(** * sshtui: session multiplexer, scrollback capture and multi-host executor

    A shallow embedding of the Go sources of sshtui (session.go in its
    latest revision, the one with [ConnectionTimeout] and [drainStdin];
    [buildSSHArgs] of the host configuration file; multi.go; the session
    part of ui.go's [showMenu]; the [!N] handler of main.go) together with
    the properties checked against them.

    Conventions.
    - A Go [int] is a [Z]; the lengths met here stay far below 2^63, so no
      wrap-around is written out.
    - A [[]byte] is a [list byte]; [s[lo:]] is [sliceFrom lo s].
    - A Go [string] is a Rocq [string]. The literals handed to [fmt] are
      the Go source literals with their escapes left unexpanded; a line read
      from the operator is the bytes read.
    - A [*Session] is an index into the [heap] of allocated Session
      objects, so that the registry slice, the exit monitor and an attach
      cycle share the object they mutate. A dereference that finds nothing
      (a nil pointer in Go) makes the operation return [None].
    - Whatever the operating system or the operator decides (what a read
      returns, whether a spawn succeeds, in which order goroutines finish)
      is an explicit argument of the function that consumes it.
    - Every observable effect is appended to the [log] of the [World]. *)

From stdpp Require Import base list strings.
From Stdlib Require Import ZArith Lia Strings.Byte.

Open Scope Z_scope.

(** ** Go slices *)

Module GoSlice.

Definition len {A} (s : list A) : Z := Z.of_nat (length s).

(** [s[lo:]] for [0 <= lo <= len s]. *)
Definition sliceFrom {A} (lo : Z) (s : list A) : list A :=
  drop (Z.to_nat lo) s.

(** [s[:hi]] for [0 <= hi <= len s]. *)
Definition sliceTo {A} (hi : Z) (s : list A) : list A :=
  take (Z.to_nat hi) s.

(** [if len(s) > k { s = s[len(s)-k:] }]: the idiom used both for the
    scrollback ceiling and for the replay window. *)
Definition keepLast {A} (k : Z) (s : list A) : list A :=
  if k <? len s then sliceFrom (len s - k) s else s.

(** [append(s[:i], s[i+1:]...)] for [0 <= i < len s]. *)
Definition removeAt {A} (i : nat) (s : list A) : list A :=
  take i s ++ drop (S i) s.

End GoSlice.

Import GoSlice.

(** ** Constants of session.go *)

Definition ScrollbackReplaySize : Z := 4096.
Definition MaxScrollbackSize : Z := 1024 * 1024.
Definition StdinBufSize : Z := 1024.
Definition PtyBufSize : Z := 4096.

(** [10 * time.Second]; a [time.Duration] counts nanoseconds. *)
Definition ConnectionTimeout : Z := 10 * 1000000000.

(** ** Hosts and ssh arguments *)

Module Host.

Record PortForward := {
  Type_ : string;       (* "L", "R", "D" *)
  LocalPort : string;
  RemoteAddr : string
}.

Record SSHHost := {
  Alias : string;
  HostName : string;
  User : string;
  Port : string;
  Forwards : list PortForward
}.

End Host.

Definition forwardArgs (fwd : Host.PortForward) : list string :=
  if String.eqb (Host.Type_ fwd) "L" then
    ["-L"; Host.LocalPort fwd +:+ ":" +:+ Host.RemoteAddr fwd]
  else if String.eqb (Host.Type_ fwd) "R" then
    ["-R"; Host.LocalPort fwd +:+ ":" +:+ Host.RemoteAddr fwd]
  else if String.eqb (Host.Type_ fwd) "D" then
    ["-D"; Host.LocalPort fwd]
  else [].

Definition buildSSHArgs (host : Host.SSHHost) : list string :=
  flat_map forwardArgs (Host.Forwards host) ++ [Host.Alias host].

(** ** Operating-system handles and observable effects *)

Definition OsFile := nat.      (* an open *os.File, by descriptor *)
Definition OsProcess := nat.   (* a started *os.Process, by pid *)

Record Winsize := { Rows : Z; Cols : Z; X : Z; Y : Z }.

(** [os.ProcessState]: [Exited] is false for a process ended by a signal. *)
Record OsProcessState := { Exited : bool }.

(** [exec.Cmd], the two fields the program reads. *)
Record ExecCmd := {
  Process : option OsProcess;
  ProcessState : option OsProcessState
}.

Inductive Arg :=
  | AStr (s : string)
  | AInt (n : Z)
  | ADuration (ns : Z).

Inductive Event :=
  | EPrint (s : string)                          (* fmt.Print(s) *)
  | EPrintln (s : string)                        (* fmt.Println(s) *)
  | EPrintf (format : string) (args : list Arg)  (* fmt.Printf(format, args...) *)
  | EStdoutWrite (b : list byte)                 (* os.Stdout.Write(b) *)
  | EReadLine                                    (* a ReadString('\n') on stdin whose
                                                    result is thrown away *)
  | EStart (args : list string)                  (* pty.Start(exec.Command("ssh", args...)) *)
  | EKill (p : OsProcess)                        (* Process.Kill() *)
  | EWait (p : option OsProcess)                 (* Cmd.Wait() *)
  | EClose (f : OsFile)                          (* File.Close() *)
  | EPtyWrite (f : option OsFile) (b : list byte) (* bytes taken by PTY.Write *)
  | ECopyStdin (f : OsFile)                      (* go io.Copy(ptmx, os.Stdin) *)
  | ESetsize (f : option OsFile) (ws : Winsize)  (* pty.Setsize(PTY, ws) *)
  | ENotifyWinch                                 (* signal.Notify(winch, SIGWINCH) *)
  | EStopWinch                                   (* signal.Stop(winch); close(done) *)
  | EMakeRaw                                     (* makeRaw(stdin) succeeded *)
  | ERestore                                     (* restore(stdin, oldState) *)
  | EDrainStdin                                  (* drainStdin() *)
  | EWaitGroupDone.                              (* wg.Wait() has returned *)

(** ** Sessions and the registry (session.go) *)

Record Session := {
  ID : Z;
  Alias : string;
  Cmd : ExecCmd;
  PTY : option OsFile;
  Active : bool;
  Scrollback : list byte
}.

Definition setScrollback (sb : list byte) (s : Session) : Session :=
  {| ID := ID s; Alias := Alias s; Cmd := Cmd s; PTY := PTY s;
     Active := Active s; Scrollback := sb |}.

(** What the monitor goroutine leaves behind: [cmd.Wait()] has recorded the
    process state, then [session.Active = false]. *)
Definition markExited (st : OsProcessState) (s : Session) : Session :=
  {| ID := ID s; Alias := Alias s;
     Cmd := {| Process := Process (Cmd s); ProcessState := Some st |};
     PTY := PTY s; Active := false; Scrollback := Scrollback s |}.

(** The globals [sessions], [nextID], the Session objects they point to,
    the monitor goroutines still blocked in [cmd.Wait()], the mode of the
    controlling terminal, and the effects so far (oldest first). *)
Record World := {
  heap : list Session;
  sessions : list nat;
  nextID : Z;
  monitors : list nat;
  rawMode : bool;
  log : list Event
}.

Definition initialWorld : World :=
  {| heap := []; sessions := []; nextID := 1; monitors := [];
     rawMode := false; log := [] |}.

Definition emit (evs : list Event) (w : World) : World :=
  {| heap := heap w; sessions := sessions w; nextID := nextID w;
     monitors := monitors w; rawMode := rawMode w; log := log w ++ evs |}.

Definition setHeap (h : list Session) (w : World) : World :=
  {| heap := h; sessions := sessions w; nextID := nextID w;
     monitors := monitors w; rawMode := rawMode w; log := log w |}.

Definition setSessions (l : list nat) (w : World) : World :=
  {| heap := heap w; sessions := l; nextID := nextID w;
     monitors := monitors w; rawMode := rawMode w; log := log w |}.

Definition setMonitors (l : list nat) (w : World) : World :=
  {| heap := heap w; sessions := sessions w; nextID := nextID w;
     monitors := l; rawMode := rawMode w; log := log w |}.

Definition setRawMode (b : bool) (w : World) : World :=
  {| heap := heap w; sessions := sessions w; nextID := nextID w;
     monitors := monitors w; rawMode := b; log := log w |}.

(** ** Scrollback capture and replay (attachToSession) *)

Inductive ReadResult :=
  | ReadOk (chunk : list byte)   (* err == nil, buf[:n] = chunk *)
  | ReadErr.                     (* err != nil *)

Inductive WriteResult :=
  | WriteOk
  | WriteErr (written : nat).    (* err != nil after [written] bytes *)

(** A goroutine of the I/O proxy either loops again or has sent on [ioStop]
    and returned. *)
Inductive Next := Continue | Stop.

(** [session.Scrollback = append(session.Scrollback, buf[:n]...)] followed
    by the 1 MiB ceiling. *)
Definition appendScrollback (chunk : list byte) (sb : list byte) : list byte :=
  keepLast MaxScrollbackSize (sb ++ chunk).

(** One iteration of the PTY -> stdout goroutine. *)
Definition ptyToStdoutIter (r : ReadResult) (s : Session)
  : list Event * Session * Next :=
  match r with
  | ReadErr => ([], s, Stop)
  | ReadOk chunk =>
      if 0 <? len chunk then
        ([EStdoutWrite chunk],
         setScrollback (appendScrollback chunk (Scrollback s)) s,
         Continue)
      else ([], s, Continue)
  end.

(** The PTY -> stdout goroutine over the reads it is given; it is still
    blocked in [Read] when they run out. *)
Fixpoint ptyToStdout (reads : list ReadResult) (s : Session)
  : list Event * Session * Next :=
  match reads with
  | [] => ([], s, Continue)
  | r :: rest =>
      match ptyToStdoutIter r s with
      | (evs, s', Stop) => (evs, s', Stop)
      | (evs, s', Continue) =>
          match ptyToStdout rest s' with
          | (evs', s'', nx) => (evs ++ evs', s'', nx)
          end
      end
  end.

(** [for i := 0; i < n; i++ { if buf[i] == 0 { ... return } }] *)
Fixpoint hasSentinel (buf : list byte) : bool :=
  match buf with
  | [] => false
  | b :: rest => if Byte.eqb b x00 then true else hasSentinel rest
  end.

(** One iteration of the stdin -> PTY goroutine; [wr] is what
    [session.PTY.Write(buf[:n])] answers if the iteration gets to it. *)
Definition stdinToPtyIter (pty : option OsFile) (r : ReadResult)
  (wr : WriteResult) : list Event * Next :=
  match r with
  | ReadErr => ([], Stop)
  | ReadOk buf =>
      if hasSentinel buf then ([], Stop)
      else
        match wr with
        | WriteOk => ([EPtyWrite pty buf], Continue)
        | WriteErr written => ([EPtyWrite pty (take written buf)], Stop)
        end
  end.

(** The stdin -> PTY goroutine over the reads it is given. *)
Fixpoint stdinToPty (pty : option OsFile)
  (reads : list (ReadResult * WriteResult)) : list Event * Next :=
  match reads with
  | [] => ([], Continue)
  | (r, wr) :: rest =>
      match stdinToPtyIter pty r wr with
      | (evs, Stop) => (evs, Stop)
      | (evs, Continue) =>
          match stdinToPty pty rest with
          | (evs', nx) => (evs ++ evs', nx)
          end
      end
  end.

(** The bytes a log shows as written to the pseudo-terminal. *)
Fixpoint forwarded (evs : list Event) : list byte :=
  match evs with
  | [] => []
  | EPtyWrite _ b :: rest => b ++ forwarded rest
  | _ :: rest => forwarded rest
  end.

(** The bytes a log shows as written raw to stdout. *)
Fixpoint stdoutBytes (evs : list Event) : list byte :=
  match evs with
  | [] => []
  | EStdoutWrite b :: rest => b ++ stdoutBytes rest
  | _ :: rest => stdoutBytes rest
  end.

(** An input stream whose reads and writes all succeed, chunk by chunk. *)
Definition okReads (chunks : list (list byte))
  : list (ReadResult * WriteResult) :=
  map (fun c => (ReadOk c, WriteOk)) chunks.

(** The bytes of a stream that precede its first byte 0. *)
Fixpoint beforeSentinel (bs : list byte) : list byte :=
  match bs with
  | [] => []
  | b :: rest => if Byte.eqb b x00 then [] else b :: beforeSentinel rest
  end.

(** The chunks of a stream that precede its first chunk holding a byte 0. *)
Fixpoint chunksBeforeSentinel (chunks : list (list byte))
  : list (list byte) :=
  match chunks with
  | [] => []
  | c :: rest => if hasSentinel c then [] else c :: chunksBeforeSentinel rest
  end.

(** [scrollbackToShow] as it stands when it is written out. *)
Definition scrollbackToShow (sb : list byte) : list byte :=
  keepLast ScrollbackReplaySize sb.

(** The replay block of attachToSession. *)
Definition replayScrollback (sb : list byte) : list Event :=
  if 0 <? len sb then
    [EStdoutWrite (scrollbackToShow sb);
     EPrintln "\n--- [Scrollback end, live session resumed] ---"]
  else [].

(** ** The attach engine (attachToSession) *)

(** What happens while attached, one entry per loop iteration of the
    goroutine that runs it: the interleaving is the scheduler's. *)
Inductive IOEvent :=
  | StdinIter (r : ReadResult) (wr : WriteResult)  (* stdin -> PTY goroutine *)
  | PtyIter (r : ReadResult)                       (* PTY -> stdout goroutine *)
  | Winch (sz : option Winsize).                   (* SIGWINCH; GetsizeFull's answer *)

Inductive MakeRawResult := RawOk | RawErr (msg : string).

Record AttachEnv := {
  sizeAtAttach : option Winsize;   (* pty.GetsizeFull(os.Stdin), None on error *)
  makeRawResult : MakeRawResult;
  restoreOk : bool;
  schedule : list IOEvent
}.

(** [session.Cmd.ProcessState != nil && session.Cmd.ProcessState.Exited()] *)
Definition sessionEnded (s : Session) : bool :=
  match ProcessState (Cmd s) with
  | Some st => Exited st
  | None => false
  end.

Definition attachBanner (s : Session) : list Event :=
  [EPrint "\033[2J\033[H";
   EPrintf "╔════════════════════════════════════════╗\n" [];
   EPrintf "║ Connected: %-28s║\n" [AStr (Alias s)];
   EPrintf "║ Ctrl+Space to detach                   ║\n" [];
   EPrintf "╚════════════════════════════════════════╝\n\n" []].

(** [if ws, err := pty.GetsizeFull(os.Stdin); err == nil { pty.Setsize(session.PTY, ws) }] *)
Definition propagateSize (pty : option OsFile) (sz : option Winsize)
  : list Event :=
  match sz with
  | Some ws => [ESetsize pty ws]
  | None => []
  end.

(** From the start of the two copy goroutines to the first send on
    [ioStop], which is what [<-ioStop] waits for. [None]: the schedule ends
    with nobody having signalled, attachToSession is still blocked. What the
    goroutines left behind do after the signal is not part of the call. *)
Fixpoint runAttached (a : nat) (sched : list IOEvent) (w : World)
  : option World :=
  match sched with
  | [] => None
  | ev :: rest =>
      match heap w !! a with
      | None => None
      | Some s =>
          match ev with
          | Winch sz => runAttached a rest (emit (propagateSize (PTY s) sz) w)
          | StdinIter r wr =>
              match stdinToPtyIter (PTY s) r wr with
              | (evs, Stop) => Some (emit evs w)
              | (evs, Continue) => runAttached a rest (emit evs w)
              end
          | PtyIter r =>
              match ptyToStdoutIter r s with
              | (evs, s', Stop) =>
                  Some (emit evs (setHeap (<[a := s']> (heap w)) w))
              | (evs, s', Continue) =>
                  runAttached a rest (emit evs (setHeap (<[a := s']> (heap w)) w))
              end
          end
      end
  end.

(** The chunks the capture goroutine reads successfully before the first
    send on [ioStop], in the order it reads them. *)
Fixpoint capturedChunks (sched : list IOEvent) : list (list byte) :=
  match sched with
  | [] => []
  | Winch _ :: rest => capturedChunks rest
  | StdinIter r wr :: rest =>
      match snd (stdinToPtyIter None r wr) with
      | Stop => []
      | Continue => capturedChunks rest
      end
  | PtyIter ReadErr :: _ => []
  | PtyIter (ReadOk chunk) :: rest => chunk :: capturedChunks rest
  end.

(** [defer restore(os.Stdin.Fd(), oldState)]; its error is dropped. *)
Definition restore (ok : bool) (oldState : bool) (w : World) : World :=
  if ok then setRawMode oldState (emit [ERestore] w) else w.

(** The banner and the replay of the scrollback, the first thing an attach
    does once past its guard. *)
Definition attachReplay (s : Session) (w : World) : World :=
  emit (attachBanner s ++ replayScrollback (Scrollback s)) w.

Definition attachToSession (a : nat) (env : AttachEnv) (w : World)
  : option World :=
  match heap w !! a with
  | None => None
  | Some s =>
      if sessionEnded s then
        Some (emit [EPrintln "Session has ended. Press Enter..."; EReadLine] w)
      else
        let w1 := attachReplay s w in
        let w2 := emit (propagateSize (PTY s) (sizeAtAttach env)) w1 in
        let w3 := emit [ENotifyWinch] w2 in
        match makeRawResult env with
        | RawErr msg =>
            Some (emit [EStopWinch] (emit [EPrintf "Error: %v\n" [AStr msg]] w3))
        | RawOk =>
            let oldState := rawMode w3 in
            let w4 := setRawMode true (emit [EMakeRaw] w3) in
            match runAttached a (schedule env) w4 with
            | None => None
            | Some w5 =>
                let w6 := emit [EDrainStdin; EPrint "\n\n[Detached]\n"] w5 in
                Some (emit [EStopWinch] (restore (restoreOk env) oldState w6))
            end
        end
  end.

(** ** Creating a session (createSession) *)

Inductive StartResult :=
  | StartOk (ptmx : OsFile) (proc : OsProcess)
  | StartErr (msg : string).

(** The goroutine running [pty.Start(cmd)]: how long it takes to deliver
    its result, the result, and [cmd.Process] as the main flow sees it if
    the deadline passes first. *)
Record StartAttempt := {
  latency : Z;
  result : StartResult;
  processAtDeadline : option OsProcess
}.

(** The [select]: [resultCh] when the result is there within
    [ConnectionTimeout], [ctx.Done()] when it is not. *)
Definition withinTimeout (att : StartAttempt) : bool :=
  latency att <=? ConnectionTimeout.

Definition newSession (id : Z) (host : Host.SSHHost) (ptmx : OsFile)
  (proc : OsProcess) : Session :=
  {| ID := id; Alias := Host.Alias host;
     Cmd := {| Process := Some proc; ProcessState := None |};
     PTY := Some ptmx; Active := true; Scrollback := [] |}.

(** The critical section of createSession and the launch of the monitor. *)
Definition registerSession (host : Host.SSHHost) (ptmx : OsFile)
  (proc : OsProcess) (w : World) : nat * World :=
  let a := length (heap w) in
  (a, {| heap := heap w ++ [newSession (nextID w) host ptmx proc];
         sessions := sessions w ++ [a];
         nextID := nextID w + 1;
         monitors := monitors w ++ [a];
         rawMode := rawMode w;
         log := log w |}).

Definition createSession (host : Host.SSHHost) (att : StartAttempt)
  (env : AttachEnv) (w : World) : option World :=
  let w1 := emit [EPrintf "\nConnecting to %s...\n" [AStr (Host.Alias host)];
                  EStart (buildSSHArgs host)] w in
  if withinTimeout att then
    match result att with
    | StartErr msg =>
        Some (emit [EPrintf "Error: %v\nPress Enter..." [AStr msg]; EReadLine] w1)
    | StartOk ptmx proc =>
        let '(a, w2) := registerSession host ptmx proc w1 in
        attachToSession a env w2
    end
  else
    let kill := match processAtDeadline att with
                | Some p => [EKill p]
                | None => []
                end in
    Some (emit (kill ++
                [EPrintf "Connection timeout after %v\nPress Enter..."
                   [ADuration ConnectionTimeout];
                 EReadLine]) w1).

(** ** Closing sessions *)

Definition closeEffects (s : Session) : list Event :=
  match PTY s with Some f => [EClose f] | None => [] end ++
  match Process (Cmd s) with
  | Some p => [EKill p; EWait (Some p)]
  | None => []
  end.

(** The body of the [if sessions[i].Active] of closeActiveSession, for
    [s = *sessions[i]]: close the pty, kill and reap the process,
    [sessions = append(sessions[:i], sessions[i+1:]...)]. *)
Definition closeAt (i : nat) (s : Session) (w : World) : World :=
  setSessions (removeAt i (sessions w)) (emit (closeEffects s) w).

(** [for i := n - 1; i >= 0; i-- { if sessions[i].Active { ...; break } }] *)
Fixpoint closeActiveFrom (n : nat) (w : World) : option World :=
  match n with
  | O => Some w
  | S i =>
      match sessions w !! i with
      | None => None
      | Some a =>
          match heap w !! a with
          | None => None
          | Some s =>
              if Active s then Some (closeAt i s w)
              else closeActiveFrom i w
          end
      end
  end.

Definition closeActiveSession (w : World) : option World :=
  closeActiveFrom (length (sessions w)) w.

Fixpoint closeAllFrom (l : list nat) (w : World) : option World :=
  match l with
  | [] => Some w
  | a :: rest =>
      match heap w !! a with
      | None => None
      | Some s => closeAllFrom rest (emit (closeEffects s) w)
      end
  end.

Definition closeAllSessions (w : World) : option World :=
  closeAllFrom (sessions w) w.

(** The monitor goroutine of session [a] wakes up: [cmd.Wait()] returned
    with state [st], then [session.Active = false]; the goroutine is gone. *)
Definition monitorExit (a : nat) (st : OsProcessState) (w : World)
  : option World :=
  if decide (a ∈ monitors w) then
    match heap w !! a with
    | None => None
    | Some s =>
        Some (setMonitors (filter (λ x, x ≠ a) (monitors w))
                (setHeap (<[a := markExited st s]> (heap w))
                   (emit [EWait (Process (Cmd s))] w)))
    end
  else None.

(** ** Session numbers (showMenu, and the [!N] handler of main) *)

(** [for i, s := range sessions { ... fmt.Printf("  [!%d] %s (%s)\n", i+1, s.Alias, status) }] *)
Fixpoint sessionLines (w : World) (i : Z) (l : list nat)
  : option (list Event) :=
  match l with
  | [] => Some []
  | a :: rest =>
      match heap w !! a, sessionLines w (i + 1) rest with
      | Some s, Some evs =>
          let status := if sessionEnded s then "ended" else "alive" in
          Some (EPrintf "  [!%d] %s (%s)\n"
                  [AInt (i + 1); AStr (Alias s); AStr status] :: evs)
      | _, _ => None
      end
  end.

Definition showMenuSessions (w : World) : option (list Event) :=
  if 0 <? len (sessions w) then
    match sessionLines w 0 (sessions w) with
    | Some evs => Some ([EPrintln "Active Sessions:"] ++ evs ++ [EPrintln ""])
    | None => None
    end
  else Some [].

(** [if num > 0 && num <= len(sessions) { session := sessions[num-1] ...] *)
Definition sessionAt (num : Z) (w : World) : option nat :=
  if (0 <? num) && (num <=? len (sessions w)) then
    sessions w !! Z.to_nat (num - 1)
  else None.

Definition resumeSession (num : Z) (env : AttachEnv) (w : World)
  : option World :=
  if (0 <? num) && (num <=? len (sessions w)) then
    match sessions w !! Z.to_nat (num - 1) with
    | Some a => attachToSession a env w
    | None => None
    end
  else
    Some (emit [EPrintf "Invalid session number: %d (have %d sessions)\n"
                  [AInt num; AInt (len (sessions w))];
                EPrintln "Press Enter to continue...";
                EReadLine] w).

(** The session lines of a menu, read back as (number, alias) pairs. *)
Fixpoint menuEntries (evs : list Event) : list (Z * string) :=
  match evs with
  | [] => []
  | EPrintf _ [AInt n; AStr alias; AStr _] :: rest =>
      (n, alias) :: menuEntries rest
  | _ :: rest => menuEntries rest
  end.

(** The pointer [a] leads to a Session whose [Active] is false. *)
Definition inactive (w : World) (a : nat) : Prop :=
  exists s, heap w !! a = Some s /\ Active s = false.

(** No entry of [sessions] is a dangling pointer. *)
Definition registryValid (w : World) : Prop :=
  Forall (fun a => is_Some (heap w !! a)) (sessions w).

(** ** The multi-host executor (multi.go) *)

Module HostResult.

Record t := {
  Alias : string;
  Output : string;
  Error : option string   (* nil or the error's text *)
}.

(** The zero value [make([]HostResult, n)] fills the slice with. *)
Definition zero : t := {| Alias := ""; Output := ""; Error := None |}.

End HostResult.

(** What one host's goroutine meets: [pty.Start] fails, or the process
    runs to its end having written [output] to its pseudo-terminal. *)
Inductive HostRun :=
  | SpawnFailed (err : string)
  | Ran (ptmx : OsFile) (proc : OsProcess) (output : string).

Definition hostArgs (h : Host.SSHHost) (command : string) : list string :=
  buildSSHArgs h ++ [command].

Definition separator : string :=
  "─────────────────────────────────────────".

(** The line a goroutine prints when its host is done. *)
Definition tick (h : Host.SSHHost) : Event :=
  EPrintf "  ✓ %s\n" [AStr (Host.Alias h)].

(** The goroutine body of executeMultiHostCollected, from its first line to
    its deferred [ptmx.Close()]: the value stored in [results[idx]] and the
    effects. A goroutine's effects are logged in one piece when it
    finishes. *)
Definition collectedTask (h : Host.SSHHost) (command : string) (run : HostRun)
  : HostResult.t * list Event :=
  match run with
  | SpawnFailed err =>
      ({| HostResult.Alias := Host.Alias h; HostResult.Output := "";
          HostResult.Error := Some err |},
       [EStart (hostArgs h command)])
  | Ran ptmx proc output =>
      ({| HostResult.Alias := Host.Alias h; HostResult.Output := output;
          HostResult.Error := None |},
       [EStart (hostArgs h command); ECopyStdin ptmx; EWait (Some proc);
        tick h; EClose ptmx])
  end.

(** The goroutine of index [idx] finishes: [results[idx] = ...], its
    effects, [wg.Done()]. *)
Definition finishCollected (hosts : list Host.SSHHost) (command : string)
  (runs : list HostRun) (st : list HostResult.t * Z * list Event) (idx : nat)
  : list HostResult.t * Z * list Event :=
  match hosts !! idx, runs !! idx with
  | Some h, Some run =>
      let '(results, wg, evs) := st in
      let '(r, e) := collectedTask h command run in
      (<[idx := r]> results, wg - 1, evs ++ e)
  | _, _ => st
  end.

Definition collectedBanner : list Event :=
  [EPrint "\033[2J\033[H";
   EPrintln "╔════════════════════════════════════════╗";
   EPrintln "║ Multi-Host Execution (Collecting...)   ║";
   EPrintln "╚════════════════════════════════════════╝\n"].

(** One turn of [for _, result := range results]. *)
Definition reportSection (r : HostResult.t) : list Event :=
  [EPrintf (separator +:+ "\n") [];
   EPrintf "Host: %s\n" [AStr (HostResult.Alias r)]] ++
  match HostResult.Error r with
  | Some e => [EPrintf "Error: %v\n" [AStr e]]
  | None => []
  end ++
  [EPrintf "\n%s\n" [AStr (HostResult.Output r)]].

Definition reportHeader (command : string) : list Event :=
  [EPrint "\033[2J\033[H";
   EPrintln "╔════════════════════════════════════════╗";
   EPrintln "║ Multi-Host Results                     ║";
   EPrintln "╚════════════════════════════════════════╝\n";
   EPrintf "Command: %s\n\n" [AStr command]].

Definition reportFooter : list Event :=
  [EPrintln separator; EPrintln "\nPress Enter..."; EReadLine].

Definition collectedReport (command : string) (results : list HostResult.t)
  : list Event :=
  reportHeader command ++ flat_map reportSection results ++ reportFooter.

(** What the report must show for a host, whatever the order in which the
    goroutines finish. *)
Definition expectedResult (h : Host.SSHHost) (run : HostRun) : HostResult.t :=
  match run with
  | SpawnFailed err =>
      {| HostResult.Alias := Host.Alias h; HostResult.Output := "";
         HostResult.Error := Some err |}
  | Ran _ _ output =>
      {| HostResult.Alias := Host.Alias h; HostResult.Output := output;
         HostResult.Error := None |}
  end.

Definition isPrint (e : Event) : bool :=
  match e with
  | EPrint _ | EPrintln _ | EPrintf _ _ | EStdoutWrite _ => true
  | _ => false
  end.

(** The part of a log that precedes the return of [wg.Wait()]. *)
Fixpoint beforeWait (evs : list Event) : list Event :=
  match evs with
  | [] => []
  | EWaitGroupDone :: _ => []
  | e :: rest => e :: beforeWait rest
  end.

(** The effects of the goroutine of index [idx]. *)
Definition collectedTaskEvents (hosts : list Host.SSHHost) (command : string)
  (runs : list HostRun) (idx : nat) : list Event :=
  match hosts !! idx, runs !! idx with
  | Some h, Some run => snd (collectedTask h command run)
  | _, _ => []
  end.

(** What a log shows as printed. *)
Fixpoint printed (evs : list Event) : list Event :=
  match evs with
  | [] => []
  | e :: rest => if isPrint e then e :: printed rest else printed rest
  end.

(** Everything up to the return of [wg.Wait()]: [results], the counter of
    the wait group and the effects, for goroutines finishing in [order]. *)
Definition collectPhase (hosts : list Host.SSHHost) (command : string)
  (runs : list HostRun) (order : list nat)
  : list HostResult.t * Z * list Event :=
  foldl (finishCollected hosts command runs)
        (replicate (length hosts) HostResult.zero, len hosts, collectedBanner)
        order.

(** [None]: [wg.Wait()] has not returned, some goroutine is not done. *)
Definition executeMultiHostCollected (hosts : list Host.SSHHost)
  (command : string) (runs : list HostRun) (order : list nat) (w : World)
  : option World :=
  let '(results, wg, evs) := collectPhase hosts command runs order in
  if wg =? 0 then
    Some (emit (evs ++ [EWaitGroupDone] ++ collectedReport command results) w)
  else None.

(** The goroutine body of executeMultiHostLive; the block it prints is
    printed under [outputMutex]. *)
Definition liveTask (h : Host.SSHHost) (command : string) (run : HostRun)
  : list Event :=
  match run with
  | SpawnFailed err =>
      [EStart (hostArgs h command);
       EPrintf (separator +:+ "\n") [];
       EPrintf "Host: %s\n" [AStr (Host.Alias h)];
       EPrintf "Error starting: %v\n" [AStr err]]
  | Ran ptmx proc output =>
      [EStart (hostArgs h command); ECopyStdin ptmx; EWait (Some proc);
       EPrintf (separator +:+ "\n") [];
       EPrintf "Host: %s\n" [AStr (Host.Alias h)];
       EPrintf "\n%s\n" [AStr output];
       EClose ptmx]
  end.

Definition finishLive (hosts : list Host.SSHHost) (command : string)
  (runs : list HostRun) (st : Z * list Event) (idx : nat) : Z * list Event :=
  match hosts !! idx, runs !! idx with
  | Some h, Some run => (fst st - 1, snd st ++ liveTask h command run)
  | _, _ => st
  end.

Definition liveBanner (command : string) : list Event :=
  [EPrint "\033[2J\033[H";
   EPrintln "╔════════════════════════════════════════╗";
   EPrintln "║ Multi-Host Execution (Live)            ║";
   EPrintln "╚════════════════════════════════════════╝\n";
   EPrintf "Command: %s\n\n" [AStr command]].

Definition executeMultiHostLive (hosts : list Host.SSHHost)
  (command : string) (runs : list HostRun) (order : list nat) (w : World)
  : option World :=
  let '(wg, evs) :=
    foldl (finishLive hosts command runs) (len hosts, liveBanner command) order in
  if wg =? 0 then
    Some (emit (evs ++ [EWaitGroupDone; EPrintln separator;
                        EPrintln "\nExecution complete. Press Enter...";
                        EReadLine]) w)
  else None.

(** What the operator and the hosts supply to one run of executeMultiHost:
    the two lines ReadString returns, and the fate of each goroutine. *)
Record MultiEnv := {
  commandLine : string;
  modeLine : string;
  runs : list HostRun;
  order : list nat
}.

Definition modePrompt : list Event :=
  [EPrint "\nDisplay mode:\n";
   EPrintln "  [1] Live streaming (see output as it arrives)";
   EPrintln "  [2] Collected results (all at once)";
   EPrint "> ";
   EReadLine].

(** [strings.TrimSpace] on a string of ASCII characters; used where the
    parameter [TrimSpace] below has to be a concrete function. *)
Definition isAsciiSpace (c : Ascii.ascii) : bool :=
  match Ascii.N_of_ascii c with
  | 9%N | 10%N | 11%N | 12%N | 13%N | 32%N => true
  | _ => false
  end.

Fixpoint trimLeft (s : string) : string :=
  match s with
  | EmptyString => EmptyString
  | String c rest => if isAsciiSpace c then trimLeft rest else s
  end.

Definition asciiTrimSpace (s : string) : string :=
  String.rev (trimLeft (String.rev (trimLeft s))).

Section System.

(** Go's [strings.TrimSpace], which is not code of this program. *)
Variable TrimSpace : string -> string.

Definition executeMultiHost (hosts : list Host.SSHHost) (env : MultiEnv)
  (w : World) : option World :=
  if len hosts =? 0 then
    Some (emit [EPrintln "No hosts selected. Press Enter..."; EReadLine] w)
  else
    let w1 := emit [EPrint "\nEnter command to execute: "; EReadLine] w in
    let command := TrimSpace (commandLine env) in
    if String.eqb command "" then Some w1
    else
      let w2 := emit modePrompt w1 in
      let modeInput := TrimSpace (modeLine env) in
      if String.eqb modeInput "1" then
        executeMultiHostLive hosts command (runs env) (order env) w2
      else
        executeMultiHostCollected hosts command (runs env) (order env) w2.

(** ** The system as a whole

    One operation of the command loop of main, or the wake-up of a monitor
    goroutine between two of them. *)
Inductive Op :=
  | OpCreate (host : Host.SSHHost) (att : StartAttempt) (env : AttachEnv)
  | OpResume (num : Z) (env : AttachEnv)
  | OpCloseActive
  | OpCloseAll
  | OpMultiHost (hosts : list Host.SSHHost) (env : MultiEnv)
  | OpMonitorExit (a : nat) (st : OsProcessState).

Definition step (op : Op) (w : World) : option World :=
  match op with
  | OpCreate host att env => createSession host att env w
  | OpResume num env => resumeSession num env w
  | OpCloseActive => closeActiveSession w
  | OpCloseAll => closeAllSessions w
  | OpMultiHost hosts env => executeMultiHost hosts env w
  | OpMonitorExit a st => monitorExit a st w
  end.

Fixpoint run (ops : list Op) (w : World) : option World :=
  match ops with
  | [] => Some w
  | op :: rest =>
      match step op w with
      | Some w' => run rest w'
      | None => None
      end
  end.

(** How often the monitor goroutine of the session at [a] wakes up in a
    sequence of operations. *)
Fixpoint monitorExits (a : nat) (ops : list Op) : nat :=
  match ops with
  | [] => O
  | OpMonitorExit b _ :: rest =>
      if decide (b = a) then S (monitorExits a rest) else monitorExits a rest
  | _ :: rest => monitorExits a rest
  end.

End System.

(** [w'] has the Session objects of [w], each with the [Active] it had, and
    the same monitor goroutines. *)
Definition heapStable (w w' : World) : Prop :=
  monitors w' = monitors w /\
  length (heap w') = length (heap w) /\
  forall a s, heap w !! a = Some s ->
              exists s', heap w' !! a = Some s' /\ Active s' = Active s.

(** Every monitor goroutine watches an allocated session, and none
    watches a session twice. *)
Definition monitorsValid (w : World) : Prop :=
  NoDup (monitors w) /\
  Forall (fun a => (a < length (heap w))%nat) (monitors w).

(** * Further parts of the program

    The attach cycle and the registry seen as a whole, the parser of the
    ssh configuration, the scrollback pager, the selection of hosts (whose
    [map[int]bool] is a [gmap]) and the port forward screen. *)

From stdpp Require gmap.


(** ** Further notions used by the properties of the attach engine and of
    the registry *)


(** [s'] is [s] but for its scrollback. *)
Definition sameButScrollback (s s' : Session) : Prop :=
  s' = setScrollback (Scrollback s') s.

(** What the registry keeps true from the start of the program on: [nextID]
    is one more than the number of sessions ever created, the session
    created [n]-th has ID [n], no scrollback exceeds its ceiling, and
    [sessions] lists allocated sessions in the order of their creation. *)
Definition registryInv (w : World) : Prop :=
  nextID w = len (heap w) + 1 /\
  (forall a s, heap w !! a = Some s ->
               ID s = Z.of_nat a + 1 /\
               len (Scrollback s) <= MaxScrollbackSize) /\
  (forall i j a b, (i < j)%nat ->
                   sessions w !! i = Some a -> sessions w !! j = Some b ->
                   (a < b)%nat) /\
  Forall (fun a => (a < length (heap w))%nat) (sessions w).

(** The Session objects the registry points to, in registry order. *)
Definition registered (w : World) : list Session :=
  omap (fun a => heap w !! a) (sessions w).

(** The effects the two copy goroutines and the resize handler have. *)
Definition isLiveEvent (e : Event) : bool :=
  match e with
  | EStdoutWrite _ | EPtyWrite _ _ | ESetsize _ _ => true
  | _ => false
  end.

(** [w'] differs from [w] at most by the scrollback of the session at [a]
    and by a longer log, whose new part sends no byte 0 to a pty and writes
    to stdout the bytes of [chunks]. *)
Definition attachedStep (a : nat) (chunks : list (list byte)) (w w' : World)
  : Prop :=
  sessions w' = sessions w /\
  nextID w' = nextID w /\
  monitors w' = monitors w /\
  rawMode w' = rawMode w /\
  length (heap w') = length (heap w) /\
  (forall b, b <> a -> heap w' !! b = heap w !! b) /\
  (forall s, heap w !! a = Some s ->
             exists s', heap w' !! a = Some s' /\ sameButScrollback s s') /\
  exists evs,
    log w' = log w ++ evs /\
    forallb isLiveEvent evs = true /\
    hasSentinel (forwarded evs) = false /\
    stdoutBytes evs = concat chunks.

(** ** Further notions used by the properties of the multi-host executor *)





(** ** Reading the ssh configuration (parseSSHConfig) *)

(** [strings.HasPrefix], [strings.Contains] and [strings.Join] work on the
    bytes of their arguments. *)
Definition HasPrefix (s p : string) : bool := String.prefix p s.

Fixpoint Contains (s substr : string) : bool :=
  String.prefix substr s ||
  match s with
  | EmptyString => false
  | String _ rest => Contains rest substr
  end.

Definition Join (elems : list string) (sep : string) : string :=
  String.concat sep elems.

(** [strings.Fields] and [strings.ToLower] on strings of ASCII characters;
    used where the parameters [Fields] and [ToLower] below have to be
    concrete functions. *)
Fixpoint fieldsFrom (cur : string) (s : string) : list string :=
  match s with
  | EmptyString => if String.eqb cur "" then [] else [cur]
  | String c rest =>
      if isAsciiSpace c then
        if String.eqb cur "" then fieldsFrom "" rest
        else cur :: fieldsFrom "" rest
      else fieldsFrom (cur +:+ String c "") rest
  end.

Definition asciiFields (s : string) : list string := fieldsFrom "" s.

Definition lowerAscii (c : Ascii.ascii) : Ascii.ascii :=
  let n := Ascii.N_of_ascii c in
  if ((65 <=? n) && (n <=? 90))%N then Ascii.ascii_of_N (n + 32) else c.

Fixpoint asciiToLower (s : string) : string :=
  match s with
  | EmptyString => EmptyString
  | String c rest => String (lowerAscii c) (asciiToLower rest)
  end.

(** The ways [os.UserHomeDir], [os.Open] and the scanner can go: the lines
    the scanner delivered, and its error if it stopped early. *)
Inductive ConfigSource :=
  | NoHome (err : string)
  | NoFile (err : string)
  | Scanned (lines : list string) (scanErr : option string).

Definition withHostName (v : string) (h : Host.SSHHost) : Host.SSHHost :=
  {| Host.Alias := Host.Alias h; Host.HostName := v; Host.User := Host.User h;
     Host.Port := Host.Port h; Host.Forwards := Host.Forwards h |}.

Definition withUser (v : string) (h : Host.SSHHost) : Host.SSHHost :=
  {| Host.Alias := Host.Alias h; Host.HostName := Host.HostName h;
     Host.User := v; Host.Port := Host.Port h;
     Host.Forwards := Host.Forwards h |}.

Definition withPort (v : string) (h : Host.SSHHost) : Host.SSHHost :=
  {| Host.Alias := Host.Alias h; Host.HostName := Host.HostName h;
     Host.User := Host.User h; Host.Port := v;
     Host.Forwards := Host.Forwards h |}.

(** [if fwd != nil { current.Forwards = append(current.Forwards, *fwd) }] *)
Definition addForward (fwd : option Host.PortForward) (h : Host.SSHHost)
  : Host.SSHHost :=
  match fwd with
  | Some f =>
      {| Host.Alias := Host.Alias h; Host.HostName := Host.HostName h;
         Host.User := Host.User h; Host.Port := Host.Port h;
         Host.Forwards := Host.Forwards h ++ [f] |}
  | None => h
  end.

(** [displayForwards]: one part for each forward of a known type. *)
Definition displayPart (fwd : Host.PortForward) : list string :=
  if String.eqb (Host.Type_ fwd) "L" then
    ["L:" +:+ Host.LocalPort fwd +:+ "→" +:+ Host.RemoteAddr fwd]
  else if String.eqb (Host.Type_ fwd) "R" then
    ["R:" +:+ Host.LocalPort fwd +:+ "→" +:+ Host.RemoteAddr fwd]
  else if String.eqb (Host.Type_ fwd) "D" then
    ["D:" +:+ Host.LocalPort fwd]
  else [].

Definition displayForwards (forwards : list Host.PortForward) : string :=
  if len forwards =? 0 then ""
  else " [" +:+ Join (flat_map displayPart forwards) ", " +:+ "]".

Section Config.

(** Go's [strings.TrimSpace], [strings.Fields] and [strings.ToLower], which
    are not code of this program. *)
Variable TrimSpace : string -> string.
Variable Fields : string -> list string.
Variable ToLower : string -> string.

Definition parseLocalForward (value : string) : option Host.PortForward :=
  match Fields value with
  | p0 :: p1 :: _ =>
      Some {| Host.Type_ := "L"; Host.LocalPort := p0; Host.RemoteAddr := p1 |}
  | _ => None
  end.

Definition parseRemoteForward (value : string) : option Host.PortForward :=
  match Fields value with
  | p0 :: p1 :: _ =>
      Some {| Host.Type_ := "R"; Host.LocalPort := p0; Host.RemoteAddr := p1 |}
  | _ => None
  end.

Definition parseDynamicForward (value : string) : option Host.PortForward :=
  let port := TrimSpace value in
  if String.eqb port "" then None
  else Some {| Host.Type_ := "D"; Host.LocalPort := port; Host.RemoteAddr := "" |}.

(** The head of the loop body of parseSSHConfig: [None] where the body
    says [continue] before it has a key, the key and the value otherwise. *)
Definition directive (text : string) : option (string * string) :=
  let line := TrimSpace text in
  if String.eqb line "" || HasPrefix line "#" then None
  else
    match Fields line with
    | p0 :: p1 :: rest => Some (ToLower p0, Join (p1 :: rest) " ")
    | _ => None
    end.

(** The [switch key] of the loop body, on [*current]. *)
Definition applySetting (key value : string) (cur : Host.SSHHost)
  : Host.SSHHost :=
  if String.eqb key "hostname" then withHostName value cur
  else if String.eqb key "user" then withUser value cur
  else if String.eqb key "port" then withPort value cur
  else if String.eqb key "localforward" then
    addForward (parseLocalForward value) cur
  else if String.eqb key "remoteforward" then
    addForward (parseRemoteForward value) cur
  else if String.eqb key "dynamicforward" then
    addForward (parseDynamicForward value) cur
  else cur.

(** One turn of [for scanner.Scan()], on [hosts] and [current]. *)
Definition parseLine (st : list Host.SSHHost * option Host.SSHHost)
  (text : string) : list Host.SSHHost * option Host.SSHHost :=
  match directive text with
  | None => st
  | Some (key, value) =>
      if String.eqb key "host" then
        if Contains value "*" then (fst st, None)
        else
          (match snd st with
           | Some cur => fst st ++ [cur]
           | None => fst st
           end,
           Some {| Host.Alias := value; Host.HostName := ""; Host.User := "";
                   Host.Port := ""; Host.Forwards := [] |})
      else
        match snd st with
        | None => st
        | Some cur => (fst st, Some (applySetting key value cur))
        end
  end.

(** [if current != nil { hosts = append(hosts, *current) }] *)
Definition flush (st : list Host.SSHHost * option Host.SSHHost)
  : list Host.SSHHost :=
  match snd st with
  | Some cur => fst st ++ [cur]
  | None => fst st
  end.

Definition parseLines (lines : list string) : list Host.SSHHost :=
  flush (foldl parseLine ([], None) lines).

Definition parseSSHConfig (src : ConfigSource)
  : list Host.SSHHost * option string :=
  match src with
  | NoHome err => ([], Some err)
  | NoFile err => ([], Some err)
  | Scanned lines scanErr => (parseLines lines, scanErr)
  end.

(** A line the loop skips before it looks at the key. *)
Definition skipped (text : string) : bool :=
  match directive text with None => true | Some _ => false end.

(** A [Host] line, and one whose pattern holds a [*]. *)
Definition isHostLine (text : string) : bool :=
  match directive text with
  | Some (key, _) => String.eqb key "host"
  | None => false
  end.

Definition isWildcardHostLine (text : string) : bool :=
  match directive text with
  | Some (key, value) => String.eqb key "host" && Contains value "*"
  | None => false
  end.

End Config.

Definition knownForward (f : Host.PortForward) : Prop :=
  Host.Type_ f = "L" \/ Host.Type_ f = "R" \/
  (Host.Type_ f = "D" /\ Host.LocalPort f <> "" /\ Host.RemoteAddr f = "").

(** ** The scrollback pager (viewScrollback) *)

(** [s[i]] for an [int] index: [None] is the run-time panic of an index
    out of range. *)
Definition index {A} (s : list A) (i : Z) : option A :=
  if (0 <=? i) && (i <? len s) then s !! Z.to_nat i else None.

(** [strings.TrimPrefix], on the bytes of its arguments. *)
Definition TrimPrefix (s p : string) : string :=
  if String.prefix p s
  then String.substring (String.length p) (String.length s - String.length p) s
  else s.

(** The local variables of the loop. *)
Record Pager := {
  currentLine : Z;
  searchTerm : string;
  searchResults : list Z;
  searchIndex : Z
}.

Definition pageSize : Z := 20.

Definition pagerStart : Pager :=
  {| currentLine := 0; searchTerm := ""; searchResults := [];
     searchIndex := -1 |}.

Definition setCurrentLine (i : Z) (p : Pager) : Pager :=
  {| currentLine := i; searchTerm := searchTerm p;
     searchResults := searchResults p; searchIndex := searchIndex p |}.

(** [strings.Split(string(b), "\n")] on a scrollback of ASCII characters;
    used where the parameter [Split] below has to be a concrete function. *)
Fixpoint splitFrom (cur : string) (b : list byte) : list string :=
  match b with
  | [] => [cur]
  | c :: rest =>
      if Byte.eqb c x0a then cur :: splitFrom "" rest
      else splitFrom (cur +:+ String (Ascii.ascii_of_byte c) "") rest
  end.

Definition asciiSplitLines (b : list byte) : list string := splitFrom "" b.

(** [strings.ReplaceAll] for a pattern that is not empty, on the bytes of
    its arguments; [n] bounds the number of steps. *)
Fixpoint replaceFrom (n : nat) (s old new : string) : string :=
  match n with
  | O => s
  | S n' =>
      match s with
      | EmptyString => EmptyString
      | String c rest =>
          if String.prefix old s
          then new +:+
               replaceFrom n'
                 (String.substring (String.length old)
                    (String.length s - String.length old) s) old new
          else String c (replaceFrom n' rest old new)
      end
  end.

Definition bytesReplaceAll (s old new : string) : string :=
  if String.eqb old "" then s else replaceFrom (String.length s) s old new.

Section Pager.

(** Go's [strings.TrimSpace], [strings.ToLower], [strings.ReplaceAll] and
    [strings.Split(string(b), "\n")], which are not code of this program. *)
Variable TrimSpace : string -> string.
Variable ToLower : string -> string.
Variable ReplaceAll : string -> string -> string -> string.
Variable Split : list byte -> list string.

(** [strings.Contains(strings.ToLower(line), strings.ToLower(searchTerm))] *)
Definition found (term line : string) : bool :=
  Contains (ToLower line) (ToLower term).

(** [for i, line := range lines { if ... { searchResults = append(searchResults, i) } }],
    from index [i] on. *)
Fixpoint searchFrom (i : Z) (lines : list string) (term : string) : list Z :=
  match lines with
  | [] => []
  | line :: rest =>
      if found term line then i :: searchFrom (i + 1) rest term
      else searchFrom (i + 1) rest term
  end.

(** [searchIndex = idx; currentLine = searchResults[searchIndex]] *)
Definition jumpTo (idx : Z) (p : Pager) : option Pager :=
  match index (searchResults p) idx with
  | Some i =>
      Some {| currentLine := i; searchTerm := searchTerm p;
              searchResults := searchResults p; searchIndex := idx |}
  | None => None
  end.

(** The [switch] of the loop, but for its first case; [None] is a panic. *)
Definition pagerCommand (lines : list string) (input : string) (p : Pager)
  : option Pager :=
  if String.eqb input "j" || String.eqb input "" then
    if currentLine p + pageSize <? len lines
    then Some (setCurrentLine (currentLine p + pageSize) p)
    else Some p
  else if String.eqb input "k" then
    if 0 <=? currentLine p - pageSize
    then Some (setCurrentLine (currentLine p - pageSize) p)
    else Some (setCurrentLine 0 p)
  else if String.eqb input "g" then Some (setCurrentLine 0 p)
  else if String.eqb input "G" then
    if pageSize <? len lines
    then Some (setCurrentLine (len lines - pageSize) p)
    else Some p
  else if HasPrefix input "/" then
    let term := TrimPrefix input "/" in
    let results := searchFrom 0 lines term in
    let p1 := {| currentLine := currentLine p; searchTerm := term;
                 searchResults := results; searchIndex := searchIndex p |} in
    if 0 <? len results then jumpTo 0 p1 else Some p1
  else if String.eqb input "n" then
    if 0 <? len (searchResults p)
    then jumpTo (Z.rem (searchIndex p + 1) (len (searchResults p))) p
    else Some p
  else if String.eqb input "N" then
    if 0 <? len (searchResults p)
    then jumpTo (Z.rem (searchIndex p - 1 + len (searchResults p))
                   (len (searchResults p))) p
    else Some p
  else Some p.

(** The line as it is printed, with the search term in reverse video. *)
Definition highlight (term line : string) : string :=
  if negb (String.eqb term "") && found term line
  then ReplaceAll line term ("\033[7m" +:+ term +:+ "\033[0m")
  else line.

(** [for i := currentLine; i < endLine; i++ { line := lines[i] ... fmt.Println(line) }],
    with [n] turns left. *)
Fixpoint printPage (n : nat) (i : Z) (lines : list string) (term : string)
  : option (list Event) :=
  match n with
  | O => Some []
  | S n' =>
      match index lines i, printPage n' (i + 1) lines term with
      | Some line, Some evs => Some (EPrintln (highlight term line) :: evs)
      | _, _ => None
      end
  end.

Definition endLine (lines : list string) (p : Pager) : Z :=
  if len lines <? currentLine p + pageSize then len lines
  else currentLine p + pageSize.

(** What one turn of the loop prints before it reads a command. *)
Definition display (alias : string) (lines : list string) (p : Pager)
  : option (list Event) :=
  match printPage (Z.to_nat (endLine lines p - currentLine p)) (currentLine p)
          lines (searchTerm p) with
  | None => None
  | Some page =>
      Some ([EPrint "\033[2J\033[H";
             EPrintf "╔════════════════════════════════════════╗\n" [];
             EPrintf "║ Scrollback: %-27s║\n" [AStr alias]] ++
            (if String.eqb (searchTerm p) "" then []
             else [EPrintf "║ Search: %-31s║\n" [AStr (searchTerm p)];
                   EPrintf "║ Matches: %-30d║\n" [AInt (len (searchResults p))]]) ++
            [EPrintf "╚════════════════════════════════════════╝\n\n" []] ++
            page ++
            [EPrintf "\n[Line %d/%d] " [AInt (currentLine p); AInt (len lines)]] ++
            (if negb (String.eqb (searchTerm p) "") && (0 <? len (searchResults p))
             then [EPrintf "[Match %d/%d] "
                     [AInt (searchIndex p + 1); AInt (len (searchResults p))]]
             else []) ++
            [EPrint "Command: "; EReadLine])
  end.

(** The loop, over the lines the operator types; [None] when it has not
    returned: it waits for a command, or it has panicked. *)
Fixpoint pagerLoop (alias : string) (lines : list string)
  (inputs : list string) (p : Pager) (w : World) : option World :=
  match display alias lines p with
  | None => None
  | Some evs =>
      match inputs with
      | [] => None
      | raw :: rest =>
          let input := TrimSpace raw in
          if String.eqb input "q" then Some (emit evs w)
          else
            match pagerCommand lines input p with
            | Some p' => pagerLoop alias lines rest p' (emit evs w)
            | None => None
            end
      end
  end.

Definition viewScrollback (s : Session) (inputs : list string) (w : World)
  : option World :=
  if len (Scrollback s) =? 0 then
    Some (emit [EPrintln "No scrollback available. Press Enter..."; EReadLine] w)
  else
    pagerLoop (Alias s) (Split (Scrollback s)) inputs pagerStart
      (emit [EPrint "\033[2J\033[H";
             EPrintf "╔════════════════════════════════════════╗\n" [];
             EPrintf "║ Scrollback: %-27s║\n" [AStr (Alias s)];
             EPrintf "║ Commands: /search, n next, q quit      ║\n" [];
             EPrintf "╚════════════════════════════════════════╝\n\n" []] w).

End Pager.

(** The state of the pager is within the lines and the search results. *)
Definition pagerValid (lines : list string) (p : Pager) : Prop :=
  0 <= currentLine p < len lines /\
  Forall (fun i => 0 <= i < len lines) (searchResults p) /\
  (searchResults p <> [] -> 0 <= searchIndex p < len (searchResults p)).

(** ** Choosing the hosts of a multi-host run (selectHosts) *)

(** [selected[i]] on a [map[int]bool]: a missing key reads as false. *)
Definition isSelected (selected : gmap.gmap Z bool) (i : Z) : bool :=
  default false (selected !! i).

(** [for i := range hosts { selected[i] = true }], from index [i] on. *)
Fixpoint selectAllFrom (i : Z) (hosts : list Host.SSHHost)
  (selected : gmap.gmap Z bool) : gmap.gmap Z bool :=
  match hosts with
  | [] => selected
  | _ :: rest => selectAllFrom (i + 1) rest (<[i := true]> selected)
  end.

(** [for i, host := range hosts { if selected[i] { result = append(result, host) } }] *)
Fixpoint chosenFrom (i : Z) (hosts : list Host.SSHHost)
  (selected : gmap.gmap Z bool) : list Host.SSHHost :=
  match hosts with
  | [] => []
  | host :: rest =>
      if isSelected selected i then host :: chosenFrom (i + 1) rest selected
      else chosenFrom (i + 1) rest selected
  end.

Fixpoint selectLines (i : Z) (hosts : list Host.SSHHost)
  (selected : gmap.gmap Z bool) : list Event :=
  match hosts with
  | [] => []
  | host :: rest =>
      [EPrintf "  %s [%d] %s"
         [AStr (if isSelected selected i then "[X]" else "[ ]");
          AInt (i + 1); AStr (Host.Alias host)]] ++
      (if String.eqb (Host.HostName host) "" then []
       else [EPrintf " (%s)" [AStr (Host.HostName host)]]) ++
      [EPrintln ""] ++
      selectLines (i + 1) rest selected
  end.

(** What one turn of the loop prints before it reads a command. *)
Definition selectScreen (hosts : list Host.SSHHost)
  (selected : gmap.gmap Z bool) : list Event :=
  [EPrint "\033[2J\033[H";
   EPrintln "╔════════════════════════════════════════╗";
   EPrintln "║ Select Hosts (space to toggle)        ║";
   EPrintln "╚════════════════════════════════════════╝\n"] ++
  selectLines 0 hosts selected ++
  [EPrintln "\nCommands:";
   EPrintln "  [number]  - Toggle selection";
   EPrintln "  a         - Select all";
   EPrintln "  c         - Clear all";
   EPrintln "  d         - Done (execute)";
   EPrintln "  q         - Cancel";
   EPrint "\n> ";
   EReadLine].

(** [fmt.Sscanf(input, "%d", &num)] on an unsigned decimal number; used
    where the parameter [Sscanf_d] below has to be a concrete function. *)
Definition digitOf (c : Ascii.ascii) : option Z :=
  let n := Z.of_N (Ascii.N_of_ascii c) in
  if (48 <=? n) && (n <=? 57) then Some (n - 48) else None.

Fixpoint digitsFrom (acc : Z) (s : string) : Z :=
  match s with
  | EmptyString => acc
  | String c rest =>
      match digitOf c with
      | Some d => digitsFrom (10 * acc + d) rest
      | None => acc
      end
  end.

Definition asciiSscanf_d (s : string) : option Z :=
  match trimLeft s with
  | EmptyString => None
  | String c rest =>
      match digitOf c with
      | Some d => Some (digitsFrom d rest)
      | None => None
      end
  end.

Section Select.

(** Go's [strings.TrimSpace] and [fmt.Sscanf(input, "%d", &num)] (the
    number, or [None] for an error), which are not code of this program. *)
Variable TrimSpace : string -> string.
Variable Sscanf_d : string -> option Z.

(** The cases of the [switch] that stay in the loop. *)
Definition selectCommand (hosts : list Host.SSHHost) (input : string)
  (selected : gmap.gmap Z bool) : gmap.gmap Z bool :=
  if String.eqb input "a" then selectAllFrom 0 hosts selected
  else if String.eqb input "c" then ∅
  else
    match Sscanf_d input with
    | Some num =>
        if (0 <? num) && (num <=? len hosts)
        then <[num - 1 := negb (isSelected selected (num - 1))]> selected
        else selected
    | None => selected
    end.

(** The loop, over the lines the operator types. [None]: the loop waits
    for a command; [Some (None, _)]: it returned [nil]. *)
Fixpoint selectLoop (hosts : list Host.SSHHost) (inputs : list string)
  (selected : gmap.gmap Z bool) (w : World)
  : option (option (list Host.SSHHost) * World) :=
  match inputs with
  | [] => None
  | raw :: rest =>
      let w1 := emit (selectScreen hosts selected) w in
      let input := TrimSpace raw in
      if String.eqb input "q" then Some (None, w1)
      else if String.eqb input "d" then
        Some (Some (chosenFrom 0 hosts selected), w1)
      else selectLoop hosts rest (selectCommand hosts input selected) w1
  end.

Definition selectHosts (hosts : list Host.SSHHost) (inputs : list string)
  (w : World) : option (option (list Host.SSHHost) * World) :=
  selectLoop hosts inputs ∅ w.

(** The [m] command of main:
    [selectedHosts := selectHosts(hosts); if selectedHosts != nil { executeMultiHost(selectedHosts) }] *)
Definition multiHostCommand (hosts : list Host.SSHHost) (inputs : list string)
  (env : MultiEnv) (w : World) : option World :=
  match selectHosts hosts inputs w with
  | None => None
  | Some (None, w1) => Some w1
  | Some (Some selectedHosts, w1) =>
      executeMultiHost TrimSpace selectedHosts env w1
  end.

End Select.

(** ** The port forward screen (manageForwards) *)

Definition configuredLine (fwd : Host.PortForward) : list Event :=
  if String.eqb (Host.Type_ fwd) "L" then
    [EPrintf "    Local:   %s → %s\n"
       [AStr (Host.LocalPort fwd); AStr (Host.RemoteAddr fwd)]]
  else if String.eqb (Host.Type_ fwd) "R" then
    [EPrintf "    Remote:  %s → %s\n"
       [AStr (Host.LocalPort fwd); AStr (Host.RemoteAddr fwd)]]
  else if String.eqb (Host.Type_ fwd) "D" then
    [EPrintf "    Dynamic: %s (SOCKS)\n" [AStr (Host.LocalPort fwd)]]
  else [].

(** The first loop over [hosts]: [hasForwards] and what is printed. *)
Fixpoint configuredForwards (hosts : list Host.SSHHost) : bool * list Event :=
  match hosts with
  | [] => (false, [])
  | host :: rest =>
      let '(has, evs) := configuredForwards rest in
      if 0 <? len (Host.Forwards host) then
        (true,
         EPrintf "\n  %s:\n" [AStr (Host.Alias host)] ::
         flat_map configuredLine (Host.Forwards host) ++ evs)
      else (has, evs)
  end.

Definition sessionForwardLine (fwd : Host.PortForward) : list Event :=
  if String.eqb (Host.Type_ fwd) "L" then
    [EPrintf "    L: %s → %s\n"
       [AStr (Host.LocalPort fwd); AStr (Host.RemoteAddr fwd)]]
  else if String.eqb (Host.Type_ fwd) "R" then
    [EPrintf "    R: %s → %s\n"
       [AStr (Host.LocalPort fwd); AStr (Host.RemoteAddr fwd)]]
  else if String.eqb (Host.Type_ fwd) "D" then
    [EPrintf "    D: %s\n" [AStr (Host.LocalPort fwd)]]
  else [].

(** The inner loop over [hosts], up to its [break]: the first host that has
    the alias of the session and at least one forward. *)
Fixpoint hostOf (hosts : list Host.SSHHost) (s : Session)
  : option Host.SSHHost :=
  match hosts with
  | [] => None
  | host :: rest =>
      if String.eqb (Host.Alias host) (Alias s) &&
         (0 <? len (Host.Forwards host))
      then Some host
      else hostOf rest s
  end.

(** The loop over [sessions]: [hasActiveForwards] and what is printed. *)
Fixpoint activeForwards (hosts : list Host.SSHHost) (w : World) (l : list nat)
  : option (bool * list Event) :=
  match l with
  | [] => Some (false, [])
  | a :: rest =>
      match heap w !! a, activeForwards hosts w rest with
      | Some s, Some (has, evs) =>
          match hostOf hosts s with
          | Some host =>
              let status := if sessionEnded s then "ended" else "alive" in
              Some (true,
                    EPrintf "\n  Session [!%d] %s (%s):\n"
                      [AInt (ID s); AStr (Alias s); AStr status] ::
                    flat_map sessionForwardLine (Host.Forwards host) ++ evs)
          | None => Some (has, evs)
          end
      | _, _ => None
      end
  end.

(** What one turn of the loop prints before it reads a command. *)
Definition forwardsScreen (hosts : list Host.SSHHost) (w : World)
  : option (list Event) :=
  match activeForwards hosts w (sessions w) with
  | None => None
  | Some (hasActiveForwards, active) =>
      let '(hasForwards, configured) := configuredForwards hosts in
      Some ([EPrint "\033[2J\033[H";
             EPrintln "╔════════════════════════════════════════╗";
             EPrintln "║ Port Forward Management                ║";
             EPrintln "╚════════════════════════════════════════╝\n";
             EPrintln "Configured Forwards:"] ++
            configured ++
            (if hasForwards then []
             else [EPrintln "  No port forwards configured"]) ++
            [EPrintln "\n\nActive Session Forwards:"] ++
            active ++
            (if hasActiveForwards then []
             else [EPrintln "  No active forwards"]) ++
            [EPrintln "\n\nNote: Port forwards are configured in ~/.ssh/config";
             EPrintln "Format:";
             EPrintln "  LocalForward 8080 remote:80";
             EPrintln "  RemoteForward 9090 localhost:80";
             EPrintln "  DynamicForward 1080";
             EPrintln "\nCommands:";
             EPrintln "  q - Back to main menu";
             EPrint "\n> ";
             EReadLine])
  end.

Section Forwards.

Variable TrimSpace : string -> string.

(** The loop, over the lines the operator types; [None] when it has not
    returned. *)
Fixpoint manageForwards (hosts : list Host.SSHHost) (inputs : list string)
  (w : World) : option World :=
  match forwardsScreen hosts w with
  | None => None
  | Some evs =>
      match inputs with
      | [] => None
      | raw :: rest =>
          if String.eqb (TrimSpace raw) "q" then Some (emit evs w)
          else manageForwards hosts rest (emit evs w)
      end
  end.

End Forwards.

(** ** Raw mode (makeRaw and restore, in the darwin variant) *)

(** [syscall.Termios]; its flags are unsigned 64-bit words, on which
    [&^] and [|] do not overflow. *)
Record Termios := {
  Iflag : Z;
  Oflag : Z;
  Cflag : Z;
  Lflag : Z;
  Cc : list byte;
  Ispeed : Z;
  Ospeed : Z
}.

Section Terminal.

(** The constants of package [syscall], which are not code of this
    program. *)
Variables IGNBRK BRKINT PARMRK ISTRIP INLCR IGNCR ICRNL IXON : Z.
Variable OPOST : Z.
Variables ECHO ECHONL ICANON ISIG IEXTEN : Z.
Variables CSIZE PARENB CS8 : Z.

Definition inputMask : Z :=
  Z.lor (Z.lor (Z.lor (Z.lor (Z.lor (Z.lor (Z.lor IGNBRK BRKINT) PARMRK)
                                ISTRIP) INLCR) IGNCR) ICRNL) IXON.

Definition localMask : Z :=
  Z.lor (Z.lor (Z.lor (Z.lor ECHO ECHONL) ICANON) ISIG) IEXTEN.

(** [newState := oldState] and the five assignments to its flags;
    [x &^= m] is [Z.ldiff x m]. *)
Definition rawState (oldState : Termios) : Termios :=
  {| Iflag := Z.ldiff (Iflag oldState) inputMask;
     Oflag := Z.ldiff (Oflag oldState) OPOST;
     Cflag := Z.lor (Z.ldiff (Cflag oldState) (Z.lor CSIZE PARENB)) CS8;
     Lflag := Z.ldiff (Lflag oldState) localMask;
     Cc := Cc oldState;
     Ispeed := Ispeed oldState;
     Ospeed := Ospeed oldState |}.

(** [makeRaw] on a terminal whose settings are [term]: the state returned
    (nil on error), the error, and the settings afterwards. [getErr] and
    [setErr] are the results of the two [ioctl] calls; a failed [TIOCSETA]
    is taken to leave the terminal as it is. *)
Definition makeRaw (getErr setErr : option string) (term : Termios)
  : option Termios * option string * Termios :=
  match getErr with
  | Some err => (None, Some err, term)
  | None =>
      let oldState := term in
      let newState := rawState oldState in
      match setErr with
      | Some err => (None, Some err, term)
      | None => (Some oldState, None, newState)
      end
  end.

Definition restoreTerminal (setErr : option string) (state : Termios)
  (term : Termios) : option string * Termios :=
  match setErr with
  | Some err => (Some err, term)
  | None => (None, state)
  end.

End Terminal.
(** * Properties *)

(** ** Slices *)

Section GoSliceFacts.

Context {A : Type}.
Implicit Types s t : list A.

Lemma len_nonneg s : 0 <= len s.
Proof. unfold len. lia. Qed.

Lemma len_app s t : len (s ++ t) = len s + len t.
Proof. unfold len. rewrite length_app. lia. Qed.

Lemma keepLast_drop k s :
  0 <= k -> keepLast k s = drop (length s - Z.to_nat k) s.
Proof.
  intros Hk. unfold keepLast, sliceFrom, len.
  destruct (Z.ltb_spec k (Z.of_nat (length s))) as [Hlt|Hge].
  - f_equal. lia.
  - replace (length s - Z.to_nat k)%nat with 0%nat by lia. reflexivity.
Qed.

Lemma keepLast_len k s : 0 <= k -> len (keepLast k s) = Z.min k (len s).
Proof.
  intros Hk. rewrite keepLast_drop by assumption.
  unfold len. rewrite length_drop. lia.
Qed.

Lemma keepLast_short k s : len s <= k -> keepLast k s = s.
Proof.
  intros Hle. unfold keepLast.
  destruct (Z.ltb_spec k (len s)); [lia | reflexivity].
Qed.

Lemma keepLast_long k s :
  k < len s -> keepLast k s = sliceFrom (len s - k) s.
Proof.
  intros Hlt. unfold keepLast.
  destruct (Z.ltb_spec k (len s)); [reflexivity | lia].
Qed.

(** Truncating early loses nothing that truncating late would keep. *)
Lemma keepLast_app_keepLast k s t :
  0 <= k -> keepLast k (keepLast k s ++ t) = keepLast k (s ++ t).
Proof.
  intros Hk.
  destruct (Z.le_gt_cases (len s) k) as [Hshort|Hlong].
  - rewrite (keepLast_short k s) by assumption. reflexivity.
  - rewrite (keepLast_drop k (s ++ t)) by assumption.
    rewrite (keepLast_drop k (keepLast k s ++ t)) by assumption.
    rewrite (keepLast_drop k s) by assumption.
    unfold len in Hlong.
    rewrite !length_app, length_drop.
    set (n := Z.to_nat k) in *.
    replace (length s - (length s - n) + length t - n)%nat
      with (length t) by lia.
    replace (length s + length t - n)%nat
      with ((length s - n) + length t)%nat by lia.
    rewrite <- drop_drop.
    rewrite (drop_app_le s t (length s - n)) by lia.
    reflexivity.
Qed.

Lemma removeAt_lookup_lt i j s :
  (j < i)%nat -> removeAt i s !! j = s !! j.
Proof.
  intros Hji. unfold removeAt.
  destruct (decide (i <= length s)%nat) as [Hin|Hout].
  - rewrite lookup_app_l by (rewrite length_take; lia).
    apply lookup_take_lt. assumption.
  - rewrite take_ge, drop_ge, app_nil_r by lia. reflexivity.
Qed.

Lemma removeAt_lookup_ge i j s :
  (i < length s)%nat -> (i <= j)%nat -> removeAt i s !! j = s !! S j.
Proof.
  intros Hi Hij. unfold removeAt.
  rewrite lookup_app_r by (rewrite length_take; lia).
  rewrite length_take, lookup_drop. f_equal. lia.
Qed.

Lemma removeAt_length i s :
  (i < length s)%nat -> length (removeAt i s) = (length s - 1)%nat.
Proof.
  intros Hi. unfold removeAt.
  rewrite length_app, length_take, length_drop. lia.
Qed.

End GoSliceFacts.

Example keepLast_drops_the_oldest :
  keepLast 3 [x61; x62; x63; x64; x65] = [x63; x64; x65] /\
  keepLast 3 [x61; x62] = [x61; x62] /\
  removeAt 1 [x61; x62; x63] = [x61; x63].
Proof. repeat split. Qed.

Example buildSSHArgs_forwards_then_alias :
  buildSSHArgs
    {| Host.Alias := "web"; Host.HostName := "10.0.0.1"; Host.User := "ops";
       Host.Port := "22";
       Host.Forwards :=
         [{| Host.Type_ := "L"; Host.LocalPort := "8080";
             Host.RemoteAddr := "localhost:80" |};
          {| Host.Type_ := "D"; Host.LocalPort := "1080";
             Host.RemoteAddr := "" |}] |}
  = ["-L"; "8080:localhost:80"; "-D"; "1080"; "web"].
Proof. reflexivity. Qed.

Lemma MaxScrollbackSize_nonneg : 0 <= MaxScrollbackSize.
Proof. unfold MaxScrollbackSize. lia. Qed.

Lemma ScrollbackReplaySize_nonneg : 0 <= ScrollbackReplaySize.
Proof. unfold ScrollbackReplaySize. lia. Qed.

(** ** The scrollback ceiling *)

Lemma appendScrollback_len chunk sb :
  len (appendScrollback chunk sb) <= MaxScrollbackSize.
Proof.
  unfold appendScrollback.
  rewrite keepLast_len by apply MaxScrollbackSize_nonneg. lia.
Qed.

(** Reads that all succeed never stop the capture goroutine; it writes
    every byte to stdout and leaves in the buffer what one truncation of
    everything would leave. *)
Lemma ptyToStdout_capture (chunks : list (list byte)) (s : Session) :
  len (Scrollback s) <= MaxScrollbackSize ->
  exists evs s',
    ptyToStdout (map ReadOk chunks) s = (evs, s', Continue) /\
    stdoutBytes evs = concat chunks /\
    Scrollback s' = keepLast MaxScrollbackSize (Scrollback s ++ concat chunks).
Proof.
  revert s. induction chunks as [|c chunks IH]; intros s Hs.
  - exists [], s. simpl. rewrite app_nil_r.
    rewrite keepLast_short by assumption. auto.
  - cbn [map ptyToStdout ptyToStdoutIter concat].
    destruct (Z.ltb_spec 0 (len c)) as [Hpos|Hzero].
    + set (s1 := setScrollback (appendScrollback c (Scrollback s)) s).
      destruct (IH s1) as (evs & s' & Hrun & Hout & Hsb).
      { apply appendScrollback_len. }
      rewrite Hrun. exists ([EStdoutWrite c] ++ evs), s'.
      split; [reflexivity|]. split.
      * simpl. rewrite Hout. reflexivity.
      * rewrite Hsb. subst s1. cbn [Scrollback setScrollback].
        unfold appendScrollback.
        rewrite keepLast_app_keepLast by apply MaxScrollbackSize_nonneg.
        rewrite <- app_assoc. reflexivity.
    + assert (c = []) as ->.
      { destruct c; [reflexivity|]. unfold len in Hzero. simpl in Hzero. lia. }
      destruct (IH s Hs) as (evs & s' & Hrun & Hout & Hsb).
      rewrite Hrun. exists ([] ++ evs), s'. auto.
Qed.

Lemma stdinToPtyIter_next (pty : option OsFile) (r : ReadResult)
  (wr : WriteResult) :
  snd (stdinToPtyIter pty r wr) = snd (stdinToPtyIter None r wr).
Proof.
  unfold stdinToPtyIter. destruct r as [buf|]; [|reflexivity].
  destruct (hasSentinel buf); [reflexivity|]. destruct wr; reflexivity.
Qed.

(** The same law inside an attach cycle, whatever the interleaving with the
    stdin goroutine and the resize handler: when the cycle ends the
    scrollback is what one truncation of the old buffer followed by every
    chunk captured in the cycle leaves. *)
Lemma runAttached_scrollback (a : nat) (sched : list IOEvent) :
  forall w w' s,
    runAttached a sched w = Some w' ->
    heap w !! a = Some s ->
    len (Scrollback s) <= MaxScrollbackSize ->
    exists s',
      heap w' !! a = Some s' /\
      Scrollback s' =
        keepLast MaxScrollbackSize (Scrollback s ++ concat (capturedChunks sched)).
Proof.
  induction sched as [|ev sched IH]; intros w w' s Hrun Hs Hlen; [discriminate|].
  cbn [runAttached] in Hrun. rewrite Hs in Hrun.
  destruct ev as [r wr|r|sz]; cbn [capturedChunks].
  - rewrite <- (stdinToPtyIter_next (PTY s)).
    destruct (stdinToPtyIter (PTY s) r wr) as [evs [|]]; cbn [snd].
    + apply (IH _ _ s Hrun); assumption.
    + injection Hrun as <-. exists s. split; [assumption|].
      cbn [concat]. rewrite app_nil_r, keepLast_short by assumption.
      reflexivity.
  - destruct r as [chunk|]; cbn [ptyToStdoutIter] in Hrun.
    + destruct (Z.ltb_spec 0 (len chunk)) as [Hpos|Hzero].
      * destruct (IH _ _ (setScrollback (appendScrollback chunk (Scrollback s)) s)
                    Hrun) as (s' & Hs' & Hsb).
        { cbn [heap emit setHeap]. apply list_lookup_insert_eq.
          eapply lookup_lt_Some. exact Hs. }
        { apply appendScrollback_len. }
        exists s'. split; [assumption|]. rewrite Hsb.
        cbn [Scrollback setScrollback concat]. unfold appendScrollback.
        rewrite keepLast_app_keepLast by apply MaxScrollbackSize_nonneg.
        rewrite <- app_assoc. reflexivity.
      * assert (chunk = []) as ->.
        { destruct chunk; [reflexivity|]. unfold len in Hzero.
          simpl in Hzero. lia. }
        destruct (IH _ _ s Hrun) as (s' & Hs' & Hsb).
        { cbn [heap emit setHeap]. apply list_lookup_insert_eq.
          eapply lookup_lt_Some. exact Hs. }
        { assumption. }
        exists s'. split; [assumption|]. rewrite Hsb. reflexivity.
    + injection Hrun as <-. exists s. split.
      * cbn [heap emit setHeap]. apply list_lookup_insert_eq.
        eapply lookup_lt_Some. exact Hs.
      * cbn [concat]. rewrite app_nil_r, keepLast_short by assumption.
        reflexivity.
  - apply (IH _ _ s Hrun); assumption.
Qed.

(** C1. Scrollback truncation law: a fresh session whose capture goroutine
    reads the chunks [chunks] one after the other (all reads succeed) never
    stops, echoes every byte, and ends with a scrollback that is the whole
    concatenation when that is at most 1 MiB long, and exactly its last
    1024*1024 bytes when it is longer. *)
Theorem scrollback_truncation_law (id : Z) (host : Host.SSHHost)
  (ptmx : OsFile) (proc : OsProcess) (chunks : list (list byte)) :
  let all := concat chunks in
  let '(evs, s', nx) :=
    ptyToStdout (map ReadOk chunks) (newSession id host ptmx proc) in
  nx = Continue /\
  stdoutBytes evs = all /\
  if len all <=? 1024 * 1024 then Scrollback s' = all
  else Scrollback s' = sliceFrom (len all - 1024 * 1024) all /\
       len (Scrollback s') = 1024 * 1024.
Proof.
  intros all.
  destruct (ptyToStdout_capture chunks (newSession id host ptmx proc))
    as (evs & s' & Hrun & Hout & Hsb).
  { simpl. unfold len, MaxScrollbackSize. simpl. lia. }
  rewrite Hrun. split; [reflexivity|]. split; [assumption|].
  cbn [Scrollback newSession] in Hsb. rewrite app_nil_l in Hsb.
  fold all in Hsb. change (1024 * 1024) with MaxScrollbackSize.
  destruct (Z.leb_spec (len all) MaxScrollbackSize) as [Hle|Hgt].
  - rewrite Hsb. apply keepLast_short. assumption.
  - split.
    + rewrite Hsb. apply keepLast_long. assumption.
    + rewrite Hsb, keepLast_len by apply MaxScrollbackSize_nonneg. lia.
Qed.

(** ** Replay on attach *)

Lemma stdoutBytes_app (l1 l2 : list Event) :
  stdoutBytes (l1 ++ l2) = stdoutBytes l1 ++ stdoutBytes l2.
Proof.
  induction l1 as [|e l1 IH]; [reflexivity|].
  destruct e; simpl; rewrite ?IH, ?app_assoc; reflexivity.
Qed.

Lemma replayScrollback_bytes (sb : list byte) :
  stdoutBytes (replayScrollback sb) = scrollbackToShow sb.
Proof.
  unfold replayScrollback.
  destruct (Z.ltb_spec 0 (len sb)) as [Hpos|Hzero].
  - simpl. apply app_nil_r.
  - destruct sb; [reflexivity|]. unfold len in Hzero. simpl in Hzero. lia.
Qed.

(** C5. replayTail bound: the replay an attach performs writes to stdout
    the bytes [scrollbackToShow] selects from the session's scrollback and
    no others; they are at most 4096, they are the whole buffer when it
    holds fewer than 4096 bytes, and the replay leaves every Session object
    (so the buffer itself) as it was. *)
Theorem replayTail_bound (s : Session) (w : World) :
  let w1 := attachReplay s w in
  stdoutBytes (log w1) = stdoutBytes (log w) ++ scrollbackToShow (Scrollback s) /\
  len (scrollbackToShow (Scrollback s)) <= 4096 /\
  (len (Scrollback s) < 4096 -> scrollbackToShow (Scrollback s) = Scrollback s) /\
  heap w1 = heap w.
Proof.
  cbn zeta. unfold attachReplay. cbn [log heap emit].
  repeat split.
  - rewrite !stdoutBytes_app, replayScrollback_bytes. reflexivity.
  - unfold scrollbackToShow.
    rewrite keepLast_len by apply ScrollbackReplaySize_nonneg.
    unfold ScrollbackReplaySize. lia.
  - intros Hshort. unfold scrollbackToShow. apply keepLast_short.
    unfold ScrollbackReplaySize. lia.
Qed.

Lemma replayTail_bound_witness :
  let s := setScrollback [x68; x69]
             (newSession 1 (Host.Build_SSHHost "web" "" "" "" []) 3%nat 100%nat) in
  len (Scrollback s) < 4096 /\
  stdoutBytes (log (attachReplay s initialWorld)) = [x68; x69].
Proof.
  cbn zeta. split; [reflexivity|].
  destruct (replayTail_bound
              (setScrollback [x68; x69]
                 (newSession 1 (Host.Build_SSHHost "web" "" "" "" []) 3%nat 100%nat))
              initialWorld) as (Hlog & _ & Hshort & _).
  rewrite Hlog. rewrite Hshort; reflexivity.
Defined.

(** ** The detach sentinel *)

Lemma forwarded_app (l1 l2 : list Event) :
  forwarded (l1 ++ l2) = forwarded l1 ++ forwarded l2.
Proof.
  induction l1 as [|e l1 IH]; [reflexivity|].
  destruct e; simpl; rewrite ?IH, ?app_assoc; reflexivity.
Qed.

Lemma hasSentinel_app (a b : list byte) :
  hasSentinel (a ++ b) = hasSentinel a || hasSentinel b.
Proof.
  induction a as [|x a IH]; [reflexivity|].
  simpl. destruct (Byte.eqb x x00); [reflexivity | exact IH].
Qed.

Lemma hasSentinel_take (n : nat) (buf : list byte) :
  hasSentinel buf = false -> hasSentinel (take n buf) = false.
Proof.
  revert n. induction buf as [|x buf IH]; intros [|n] H; try reflexivity.
  simpl in *. destruct (Byte.eqb x x00); [discriminate | auto].
Qed.

Lemma beforeSentinel_app_clean (a b : list byte) :
  hasSentinel a = false -> beforeSentinel (a ++ b) = a ++ beforeSentinel b.
Proof.
  induction a as [|x a IH]; intros H; [reflexivity|].
  simpl in *. destruct (Byte.eqb x x00); [discriminate|].
  rewrite IH by assumption. reflexivity.
Qed.

(** Whatever the reads and writes answer, no byte 0 reaches the
    pseudo-terminal. *)
Lemma stdinToPty_never_forwards_sentinel (pty : option OsFile)
  (reads : list (ReadResult * WriteResult)) :
  hasSentinel (forwarded (fst (stdinToPty pty reads))) = false.
Proof.
  induction reads as [|[r wr] reads IH]; [reflexivity|].
  cbn [stdinToPty]. unfold stdinToPtyIter.
  destruct r as [buf|]; [|reflexivity].
  destruct (hasSentinel buf) eqn:Hbuf; [reflexivity|].
  destruct wr as [|n].
  - destruct (stdinToPty pty reads) as [evs nx]. cbn [fst] in *.
    rewrite forwarded_app, hasSentinel_app, IH. simpl.
    rewrite app_nil_r, Hbuf. reflexivity.
  - simpl. rewrite app_nil_r. apply hasSentinel_take. assumption.
Qed.

(** C2, as the code has it. For an input stream that holds the byte 0 and
    whose reads and writes succeed, the stdin -> PTY goroutine forwards the
    chunks read before the first chunk that holds the sentinel, each of them
    whole, and nothing of that chunk or of a later one; then it signals.
    What it forwards holds no byte 0 and is a prefix of the bytes that
    precede the sentinel. *)
Theorem detach_sentinel_chunks (pty : option OsFile)
  (chunks : list (list byte)) :
  hasSentinel (concat chunks) = true ->
  let '(evs, nx) := stdinToPty pty (okReads chunks) in
  nx = Stop /\
  forwarded evs = concat (chunksBeforeSentinel chunks) /\
  hasSentinel (forwarded evs) = false /\
  exists held, beforeSentinel (concat chunks) = forwarded evs ++ held.
Proof.
  intros Hin.
  pose proof (stdinToPty_never_forwards_sentinel pty (okReads chunks)) as Hclean.
  induction chunks as [|c chunks IH]; [discriminate|].
  cbn [okReads map stdinToPty concat chunksBeforeSentinel] in *.
  unfold stdinToPtyIter in *.
  rewrite hasSentinel_app in Hin.
  destruct (hasSentinel c) eqn:Hc.
  - repeat split. simpl. eauto.
  - simpl in Hin. fold (okReads chunks) in *.
    destruct (stdinToPty pty (okReads chunks)) as [evs nx] eqn:Hrun.
    cbn [fst] in Hclean.
    destruct IH as (Hnx & Hfw & _ & held & Hheld).
    + assumption.
    + rewrite forwarded_app, hasSentinel_app in Hclean.
      apply orb_false_iff in Hclean. tauto.
    + split; [assumption|]. split.
      { rewrite forwarded_app. simpl. rewrite app_nil_r, Hfw. reflexivity. }
      split; [assumption|].
      exists held. rewrite beforeSentinel_app_clean by assumption.
      rewrite forwarded_app. simpl. rewrite app_nil_r, Hheld, app_assoc.
      reflexivity.
Qed.

Lemma detach_sentinel_chunks_witness :
  let chunks := [[x6c; x73]; [x0a]; [x00]; [x0a]] in
  hasSentinel (concat chunks) = true /\
  stdinToPty (Some 3%nat) (okReads chunks) =
    ([EPtyWrite (Some 3%nat) [x6c; x73]; EPtyWrite (Some 3%nat) [x0a]], Stop).
Proof.
  cbn zeta. split; [reflexivity|].
  pose proof (detach_sentinel_chunks (Some 3%nat)
                [[x6c; x73]; [x0a]; [x00]; [x0a]] eq_refl) as H.
  destruct (stdinToPty (Some 3%nat) (okReads [[x6c; x73]; [x0a]; [x00]; [x0a]]))
    as [evs nx] eqn:Hrun.
  destruct H as (Hnx & _). subst nx.
  vm_compute in Hrun. injection Hrun as <-. reflexivity.
Defined.

(** C2, as the claim words it, fails: when the sentinel shares its chunk
    with earlier keystrokes, those are bytes that precede the sentinel and
    they are not forwarded. *)
Lemma detach_sentinel_counterexample :
  let chunks := [[x61; x00]] in
  hasSentinel (concat chunks) = true /\
  beforeSentinel (concat chunks) = [x61] /\
  forwarded (fst (stdinToPty (Some 3%nat) (okReads chunks))) = [] /\
  forwarded (fst (stdinToPty (Some 3%nat) (okReads chunks)))
    <> beforeSentinel (concat chunks).
Proof.
  cbn zeta. repeat split. discriminate.
Qed.

(** A whole attach cycle: replay of "hi", one captured chunk, one
    forwarded keystroke, detach on the sentinel. *)
Example attach_cycle :
  let s := setScrollback [x68; x69]
             (newSession 1 (Host.Build_SSHHost "web" "" "" "" []) 3%nat 100%nat) in
  let w := {| heap := [s]; sessions := [0%nat]; nextID := 2;
              monitors := [0%nat]; rawMode := false; log := [] |} in
  let env := {| sizeAtAttach := Some {| Rows := 24; Cols := 80; X := 0; Y := 0 |};
                makeRawResult := RawOk; restoreOk := true;
                schedule := [PtyIter (ReadOk [x24]);
                             StdinIter (ReadOk [x6c]) WriteOk;
                             StdinIter (ReadOk [x00]) WriteOk;
                             PtyIter (ReadOk [x21])] |} in
  attachToSession 0%nat env w =
    Some {| heap := [setScrollback [x68; x69; x24] s];
            sessions := [0%nat]; nextID := 2; monitors := [0%nat];
            rawMode := false;
            log := attachBanner s ++
                   [EStdoutWrite [x68; x69];
                    EPrintln "\n--- [Scrollback end, live session resumed] ---";
                    ESetsize (Some 3%nat) {| Rows := 24; Cols := 80; X := 0; Y := 0 |};
                    ENotifyWinch; EMakeRaw;
                    EStdoutWrite [x24];
                    EPtyWrite (Some 3%nat) [x6c];
                    EDrainStdin; EPrint "\n\n[Detached]\n";
                    ERestore; EStopWinch] |}.
Proof. reflexivity. Qed.

(** ** Connection timeout *)



(** ** The guard of attach *)



(** ** The empty command of the multi-host executor *)

(** C10. With at least one host selected and a command line that
    [strings.TrimSpace] reduces to the empty string, executeMultiHost
    returns right after reading that line: the log gains the command prompt
    and the read and nothing more (no display-mode prompt, no [pty.Start],
    no notice, no error), and the rest of the world is what it was. *)
Theorem empty_command_returns_silently (TrimSpace : string -> string)
  (hosts : list Host.SSHHost) (env : MultiEnv) (w : World) :
  hosts <> [] ->
  TrimSpace (commandLine env) = "" ->
  exists w',
    executeMultiHost TrimSpace hosts env w = Some w' /\
    log w' = log w ++ [EPrint "\nEnter command to execute: "; EReadLine] /\
    heap w' = heap w /\
    sessions w' = sessions w /\
    nextID w' = nextID w /\
    monitors w' = monitors w /\
    rawMode w' = rawMode w.
Proof.
  intros Hhosts Hempty. unfold executeMultiHost.
  destruct hosts as [|h hosts]; [congruence|].
  replace (len (h :: hosts) =? 0) with false
    by (symmetry; apply Z.eqb_neq; unfold len; simpl; lia).
  rewrite Hempty. cbn [String.eqb].
  eexists. split; [reflexivity|]. repeat split.
Qed.

Lemma empty_command_returns_silently_witness :
  let hosts := [Host.Build_SSHHost "web" "" "" "" []] in
  let env := {| commandLine := String (Ascii.ascii_of_nat 32) (String (Ascii.ascii_of_nat 10) "");
                modeLine := "2";
                runs := [Ran 7%nat 70%nat "ok"]; order := [0%nat] |} in
  hosts <> [] /\
  asciiTrimSpace (commandLine env) = ""%string /\
  executeMultiHost asciiTrimSpace hosts env initialWorld =
    Some (emit [EPrint "\nEnter command to execute: "; EReadLine] initialWorld).
Proof.
  cbn zeta. split; [discriminate|]. split; [reflexivity|].
  destruct (empty_command_returns_silently asciiTrimSpace
              [Host.Build_SSHHost "web" "" "" "" []]
              {| commandLine := String (Ascii.ascii_of_nat 32) (String (Ascii.ascii_of_nat 10) "");
                modeLine := "2";
                 runs := [Ran 7%nat 70%nat "ok"]; order := [0%nat] |}
              initialWorld ltac:(discriminate) eq_refl)
    as (w' & Hrun & _).
  rewrite Hrun. vm_compute in Hrun. injection Hrun as <-. reflexivity.
Defined.

(** ** Closing the active session *)

Lemma removeAt_middle {A} (pre post : list A) (x : A) :
  removeAt (length pre) (pre ++ x :: post) = pre ++ post.
Proof.
  unfold removeAt.
  rewrite take_app_length, drop_app_ge by lia.
  replace (S (length pre) - length pre)%nat with 1%nat by lia.
  reflexivity.
Qed.

(** The loop walks down over inactive sessions without touching anything. *)
Lemma closeActiveFrom_skip_inactive (w : World) (post : list nat) :
  forall pre rest,
    sessions w = pre ++ post ++ rest ->
    Forall (inactive w) post ->
    closeActiveFrom (length (pre ++ post)) w = closeActiveFrom (length pre) w.
Proof.
  induction post as [|b post IH] using rev_ind; intros pre rest Hs Hin.
  - rewrite app_nil_r. reflexivity.
  - apply Forall_app in Hin as [Hpost Hb].
    apply Forall_singleton in Hb as (t & Ht & Hoff).
    rewrite app_assoc, length_app. cbn [length].
    replace (length (pre ++ post) + 1)%nat with (S (length (pre ++ post))) by lia.
    cbn [closeActiveFrom].
    assert (sessions w !! length (pre ++ post) = Some b) as ->.
    { rewrite Hs, <- app_assoc, app_assoc.
      rewrite lookup_app_r by lia.
      replace (length (pre ++ post) - length (pre ++ post))%nat with 0%nat by lia.
      reflexivity. }
    rewrite Ht, Hoff.
    apply (IH pre ([b] ++ rest)); [|assumption].
    rewrite Hs, <- app_assoc. reflexivity.
Qed.

Lemma closeActiveFrom_total (w : World) (n : nat) :
  registryValid w -> (n <= length (sessions w))%nat ->
  is_Some (closeActiveFrom n w).
Proof.
  intros Hvalid. induction n as [|i IH]; intros Hn; [eexists; reflexivity|].
  cbn [closeActiveFrom].
  destruct (lookup_lt_is_Some_2 (sessions w) i) as [a Ha]; [lia|].
  rewrite Ha.
  destruct (proj1 (Forall_forall _ _) Hvalid a) as [s Hs].
  { eapply list_elem_of_lookup_2. exact Ha. }
  rewrite Hs. destruct (Active s); [eexists; reflexivity|].
  apply IH. lia.
Qed.

(** C6. closeActive selection and no-op: on a registry without dangling
    entries closeActiveSession always returns. When [a], at index
    [length pre], is the last entry whose session has [Active] set, exactly
    that entry leaves [sessions] (the others keep their order), its pty is
    closed and its process killed and reaped, and no Session object is
    modified. When no session has [Active] set, the world is returned as it
    was. *)
Theorem closeActive_selection (w : World) :
  registryValid w ->
  is_Some (closeActiveSession w) /\
  (forall pre a s post,
      sessions w = pre ++ a :: post ->
      heap w !! a = Some s ->
      Active s = true ->
      Forall (inactive w) post ->
      exists w',
        closeActiveSession w = Some w' /\
        w' = closeAt (length pre) s w /\
        sessions w' = pre ++ post /\
        heap w' = heap w /\
        log w' = log w ++ closeEffects s /\
        nextID w' = nextID w /\
        monitors w' = monitors w /\
        rawMode w' = rawMode w) /\
  (Forall (inactive w) (sessions w) -> closeActiveSession w = Some w).
Proof.
  intros Hvalid. split; [|split].
  - apply closeActiveFrom_total; [assumption | lia].
  - intros pre a s post Hs Ha Hon Hpost.
    exists (closeAt (length pre) s w). split.
    + unfold closeActiveSession.
      replace (length (sessions w)) with (length ((pre ++ [a]) ++ post))
        by (rewrite Hs, <- app_assoc; reflexivity).
      rewrite (closeActiveFrom_skip_inactive w post (pre ++ [a]) [])
        by (rewrite ?app_nil_r, <- ?app_assoc; assumption).
      rewrite length_app. cbn [length].
      replace (length pre + 1)%nat with (S (length pre)) by lia.
      cbn [closeActiveFrom].
      assert (sessions w !! length pre = Some a) as ->.
      { rewrite Hs. apply list_lookup_middle. reflexivity. }
      rewrite Ha, Hon. reflexivity.
    + split; [reflexivity|].
      unfold closeAt. cbn [sessions heap log nextID monitors rawMode
                           setSessions emit].
      rewrite Hs, removeAt_middle. repeat split.
  - intros Hall. unfold closeActiveSession.
    rewrite <- (app_nil_l (sessions w)) at 1.
    rewrite (closeActiveFrom_skip_inactive w (sessions w) [] []);
      [reflexivity | rewrite app_nil_r; reflexivity | assumption].
Qed.

Lemma closeActive_selection_witness :
  let host := Host.Build_SSHHost "web" "" "" "" [] in
  let s0 := newSession 1 host 3%nat 100%nat in
  let s1 := newSession 2 host 4%nat 101%nat in
  let s2 := markExited {| Exited := true |} (newSession 3 host 5%nat 102%nat) in
  let w := {| heap := [s0; s1; s2]; sessions := [0; 1; 2]%nat; nextID := 4;
              monitors := [0; 1]%nat; rawMode := false; log := [] |} in
  registryValid w /\
  closeActiveSession w =
    Some {| heap := [s0; s1; s2]; sessions := [0; 2]%nat; nextID := 4;
            monitors := [0; 1]%nat; rawMode := false;
            log := [EClose 4%nat; EKill 101%nat; EWait (Some 101%nat)] |}.
Proof.
  cbn zeta.
  assert (registryValid
            {| heap := [newSession 1 (Host.Build_SSHHost "web" "" "" "" []) 3%nat 100%nat;
                        newSession 2 (Host.Build_SSHHost "web" "" "" "" []) 4%nat 101%nat;
                        markExited {| Exited := true |}
                          (newSession 3 (Host.Build_SSHHost "web" "" "" "" []) 5%nat 102%nat)];
               sessions := [0; 1; 2]%nat; nextID := 4;
               monitors := [0; 1]%nat; rawMode := false; log := [] |}) as Hvalid.
  { repeat constructor; eexists; reflexivity. }
  split; [exact Hvalid|].
  destruct (closeActive_selection _ Hvalid) as (_ & Hlast & _).
  destruct (Hlast [0%nat] 1%nat
              (newSession 2 (Host.Build_SSHHost "web" "" "" "" []) 4%nat 101%nat)
              [2%nat] eq_refl eq_refl eq_refl) as (w' & Hrun & Hw' & _).
  { repeat constructor. eexists. split; reflexivity. }
  rewrite Hrun, Hw'. reflexivity.
Defined.

(** ** Session numbers *)

Lemma sessionLines_entries (w : World) (l : list nat) :
  forall i evs,
    sessionLines w i l = Some evs ->
    length (menuEntries evs) = length l /\
    forall j a,
      l !! j = Some a ->
      exists s, heap w !! a = Some s /\
                menuEntries evs !! j = Some (i + Z.of_nat j + 1, Alias s).
Proof.
  induction l as [|a0 l IH]; intros i evs Hrun.
  - injection Hrun as <-. split; [reflexivity|]. intros j a Hj. discriminate.
  - cbn [sessionLines] in Hrun.
    destruct (heap w !! a0) as [s0|] eqn:Hs0; [|discriminate].
    destruct (sessionLines w (i + 1) l) as [rest|] eqn:Hrest; [|discriminate].
    injection Hrun as <-. cbn [menuEntries].
    destruct (IH _ _ Hrest) as [Hlen Hnth].
    split; [cbn [length]; rewrite Hlen; reflexivity|].
    intros [|j] a Hj.
    + injection Hj as <-. exists s0. split; [assumption|].
      change (Some (i + 1, Alias s0) = Some (i + Z.of_nat 0 + 1, Alias s0)).
      do 2 f_equal. lia.
    + destruct (Hnth j a Hj) as (s & Hs & Hentry).
      exists s. split; [assumption|].
      change (menuEntries rest !! j = Some (i + Z.of_nat (S j) + 1, Alias s)).
      rewrite Hentry. do 2 f_equal. lia.
Qed.

Lemma sessionAt_Some (w : World) (p : Z) (a : nat) :
  sessionAt p w = Some a <->
  1 <= p /\ sessions w !! Z.to_nat (p - 1) = Some a.
Proof.
  unfold sessionAt, len.
  destruct (Z.ltb_spec 0 p); destruct (Z.leb_spec p (Z.of_nat (length (sessions w))));
    cbn [andb]; split; intros H'; try discriminate; try tauto; try lia.
  - split; [lia | assumption].
  - destruct H' as [_ H']. apply lookup_lt_Some in H'. lia.
Qed.

Lemma menuEntries_app (l1 l2 : list Event) :
  menuEntries (l1 ++ l2) = menuEntries l1 ++ menuEntries l2.
Proof.
  induction l1 as [|e l1 IH]; [reflexivity|].
  destruct e as [| |f args| | | | | | | | | | | | | | |];
    cbn [app menuEntries]; try exact IH.
  destruct args as [|[] [|[] [|[] [|]]]]; cbn [app]; rewrite ?IH; reflexivity.
Qed.

Lemma menu_numbers_entries (w : World) (evs : list Event) :
  showMenuSessions w = Some evs ->
  length (menuEntries evs) = length (sessions w) /\
  forall j a,
    sessions w !! j = Some a ->
    exists s, heap w !! a = Some s /\
              menuEntries evs !! j = Some (Z.of_nat j + 1, Alias s).
Proof.
  unfold showMenuSessions. intros Hmenu.
  destruct (Z.ltb_spec 0 (len (sessions w))) as [Hpos|Hzero].
  - destruct (sessionLines w 0 (sessions w)) as [lines|] eqn:Hlines;
      [|discriminate].
    injection Hmenu as <-.
    destruct (sessionLines_entries _ _ _ _ Hlines) as [Hlen Hnth].
    cbn [menuEntries]. rewrite menuEntries_app. cbn [menuEntries].
    rewrite app_nil_r.
    split; [assumption|]. intros j a Hj.
    destruct (Hnth j a Hj) as (s & Hs & He). exists s. split; [assumption|].
    rewrite He. do 2 f_equal.
  - injection Hmenu as <-.
    assert (sessions w = []) as Hnil.
    { destruct (sessions w); [reflexivity|]. unfold len in Hzero.
      simpl in Hzero. lia. }
    rewrite Hnil. split; [reflexivity|]. intros j a Hj. discriminate.
Qed.

(** C4. Session renumbering invariant.
    (1) The numbers showMenu prints are the 1-based positions in
    [sessions]: an entry [(p, alias)] is on the menu exactly when [!p]
    resolves to a session of that alias, and no number is printed twice.
    (2) When closeActiveSession closes the entry at position [k], the list
    shrinks by one, positions below [k] keep their session and every
    position [p >= k] now resolves to what [p + 1] resolved to; so the
    session that was at [k + 1] is addressed as [k]. *)
Theorem session_renumbering (w : World) :
  (forall evs,
      showMenuSessions w = Some evs ->
      NoDup (map fst (menuEntries evs)) /\
      forall p alias,
        (p, alias) ∈ menuEntries evs <->
        exists a s, sessionAt p w = Some a /\ heap w !! a = Some s /\
                    Alias s = alias) /\
  (forall k s,
      1 <= k <= len (sessions w) ->
      let w' := closeAt (Z.to_nat (k - 1)) s w in
      len (sessions w') = len (sessions w) - 1 /\
      (forall p, p < k -> sessionAt p w' = sessionAt p w) /\
      (forall p, k <= p -> sessionAt p w' = sessionAt (p + 1) w)).
Proof.
  split.
  - intros evs Hmenu.
    destruct (menu_numbers_entries w evs Hmenu) as [Hlen Hnth].
    assert (forall j e, menuEntries evs !! j = Some e ->
                        exists a s, sessions w !! j = Some a /\
                                    heap w !! a = Some s /\
                                    e = (Z.of_nat j + 1, Alias s)) as Hback.
    { intros j e He.
      destruct (lookup_lt_is_Some_2 (sessions w) j) as [a Ha].
      { rewrite <- Hlen. eapply lookup_lt_Some. exact He. }
      destruct (Hnth j a Ha) as (s & Hs & He').
      exists a, s. repeat split; try assumption. congruence. }
    split.
    + apply NoDup_alt. intros i j x Hi Hj.
      rewrite list_lookup_fmap in Hi, Hj.
      destruct (menuEntries evs !! i) as [ei|] eqn:Hei; [|discriminate].
      destruct (menuEntries evs !! j) as [ej|] eqn:Hej; [|discriminate].
      destruct (Hback _ _ Hei) as (? & ? & _ & _ & ->).
      destruct (Hback _ _ Hej) as (? & ? & _ & _ & ->).
      cbn in Hi, Hj. injection Hi as <-. injection Hj as Hij. lia.
    + intros p alias. split.
      * intros Hin. apply list_elem_of_lookup in Hin as [j Hj].
        destruct (Hback _ _ Hj) as (a & s & Ha & Hs & Heq).
        injection Heq as -> ->. exists a, s. split; [|auto].
        apply sessionAt_Some. split; [lia|].
        replace (Z.to_nat (Z.of_nat j + 1 - 1)) with j by lia. assumption.
      * intros (a & s & Hat & Hs & <-).
        apply sessionAt_Some in Hat as [Hp Ha].
        destruct (Hnth _ _ Ha) as (s' & Hs' & He).
        assert (s' = s) as -> by congruence.
        apply list_elem_of_lookup. exists (Z.to_nat (p - 1)).
        rewrite He. do 2 f_equal. lia.
  - intros k s Hk w'.
    assert (sessions w' = removeAt (Z.to_nat (k - 1)) (sessions w)) as Hs'
      by reflexivity.
    assert (len (sessions w') = len (sessions w) - 1) as Hlen.
    { unfold len in *. rewrite Hs', removeAt_length by lia. lia. }
    split; [assumption|]. split.
    + intros p Hp. unfold sessionAt. rewrite Hlen.
      destruct (Z.ltb_spec 0 p); cbn [andb]; [|reflexivity].
      replace (p <=? len (sessions w) - 1) with true
        by (symmetry; apply Z.leb_le; lia).
      replace (p <=? len (sessions w)) with true
        by (symmetry; apply Z.leb_le; lia).
      rewrite Hs'. apply removeAt_lookup_lt. lia.
    + intros p Hp. unfold sessionAt. rewrite Hlen.
      replace (0 <? p) with true by (symmetry; apply Z.ltb_lt; lia).
      replace (0 <? p + 1) with true by (symmetry; apply Z.ltb_lt; lia).
      cbn [andb].
      destruct (Z.leb_spec p (len (sessions w) - 1));
        destruct (Z.leb_spec (p + 1) (len (sessions w))); try lia;
        [|reflexivity].
      rewrite Hs'. unfold len in *.
      rewrite removeAt_lookup_ge by lia. f_equal. lia.
Qed.

Lemma session_renumbering_witness :
  let host := fun alias => Host.Build_SSHHost alias "" "" "" [] in
  let s0 := newSession 1 (host "web") 3%nat 100%nat in
  let s1 := newSession 2 (host "db") 4%nat 101%nat in
  let s2 := newSession 3 (host "cache") 5%nat 102%nat in
  let w := {| heap := [s0; s1; s2]; sessions := [0; 1; 2]%nat; nextID := 4;
              monitors := [0; 1; 2]%nat; rawMode := false; log := [] |} in
  1 <= 2 <= len (sessions w) /\
  sessionAt 2 w = Some 1%nat /\
  sessionAt 3 w = Some 2%nat /\
  sessionAt 2 (closeAt 1 s1 w) = Some 2%nat.
Proof.
  cbn zeta. split; [unfold len; simpl; lia|].
  split; [reflexivity|]. split; [reflexivity|].
  destruct (session_renumbering
              {| heap := [newSession 1 (Host.Build_SSHHost "web" "" "" "" []) 3%nat 100%nat;
                          newSession 2 (Host.Build_SSHHost "db" "" "" "" []) 4%nat 101%nat;
                          newSession 3 (Host.Build_SSHHost "cache" "" "" "" []) 5%nat 102%nat];
                 sessions := [0; 1; 2]%nat; nextID := 4;
                 monitors := [0; 1; 2]%nat; rawMode := false; log := [] |})
    as [_ Hclose].
  destruct (Hclose 2 (newSession 2 (Host.Build_SSHHost "db" "" "" "" []) 4%nat 101%nat))
    as (_ & _ & Hshift).
  { unfold len. simpl. lia. }
  exact (Hshift 2 ltac:(lia)).
Defined.

(** ** The collected report of the multi-host executor *)

Lemma collectedTask_result (h : Host.SSHHost) (command : string) (run : HostRun) :
  fst (collectedTask h command run) = expectedResult h run.
Proof. destruct run; reflexivity. Qed.

Section Collected.

Variable hosts : list Host.SSHHost.
Variable command : string.
Variable runs : list HostRun.
Hypothesis runs_length : length runs = length hosts.

(** Goroutines finishing in any order write each its own slot of
    [results]; the slots of those not yet finished are untouched. *)
Lemma collect_fold (order : list nat) :
  forall results wg evs,
    Forall (fun i => (i < length hosts)%nat) order ->
    length results = length hosts ->
    exists results',
      foldl (finishCollected hosts command runs) (results, wg, evs) order =
        (results', wg - len order,
         evs ++ flat_map (collectedTaskEvents hosts command runs) order) /\
      length results' = length hosts /\
      (forall i h run,
          hosts !! i = Some h -> runs !! i = Some run -> i ∈ order ->
          results' !! i = Some (expectedResult h run)) /\
      (forall i, i ∉ order -> results' !! i = results !! i).
Proof.
  induction order as [|idx order IH]; intros results wg evs Hidx Hlen.
  - exists results. cbn [foldl flat_map]. rewrite app_nil_r, Z.sub_0_r.
    split; [reflexivity|]. split; [assumption|]. split.
    + intros i h run _ _ Hin. inversion Hin.
    + reflexivity.
  - apply Forall_cons in Hidx as [Hlt Hrest].
    destruct (lookup_lt_is_Some_2 hosts idx Hlt) as [h Hh].
    destruct (lookup_lt_is_Some_2 runs idx) as [run Hrun]; [lia|].
    cbn [foldl]. unfold finishCollected at 2. rewrite Hh, Hrun.
    destruct (collectedTask h command run) as [r e] eqn:Htask.
    destruct (IH (<[idx := r]> results) (wg - 1) (evs ++ e) Hrest)
      as (results' & Hfold & Hlen' & Hdone & Hother).
    { rewrite length_insert. assumption. }
    exists results'. rewrite Hfold. split; [|split; [assumption|split]].
    + f_equal; [f_equal; unfold len; cbn [length]; lia|].
      cbn [flat_map]. unfold collectedTaskEvents at 2.
      rewrite Hh, Hrun, Htask, <- app_assoc. reflexivity.
    + intros i h' run' Hh' Hrun' Hin.
      destruct (decide (i ∈ order)) as [Hi|Hi]; [eauto|].
      apply elem_of_cons in Hin as [->|Hin]; [|contradiction].
      rewrite (Hother idx Hi), list_lookup_insert_eq by lia.
      assert (h' = h) as -> by congruence.
      assert (run' = run) as -> by congruence.
      rewrite <- (collectedTask_result h command run), Htask. reflexivity.
    + intros i Hi. apply not_elem_of_cons in Hi as [Hne Hi].
      rewrite (Hother i Hi). apply list_lookup_insert_ne. congruence.
Qed.

Lemma collect_progress_prints (order : list nat) (e : Event) :
  e ∈ flat_map (collectedTaskEvents hosts command runs) order ->
  isPrint e = true ->
  exists h, h ∈ hosts /\ e = tick h.
Proof.
  intros Hin Hprint.
  apply list_elem_of_In, in_flat_map in Hin as (idx & _ & Hin).
  apply list_elem_of_In in Hin. unfold collectedTaskEvents in Hin.
  destruct (hosts !! idx) as [h|] eqn:Hh; [|inversion Hin].
  destruct (runs !! idx) as [run|]; [|inversion Hin].
  exists h. split; [eapply list_elem_of_lookup_2; exact Hh|].
  destruct run; cbn [collectedTask snd] in Hin;
    repeat (apply elem_of_cons in Hin as [->|Hin]; try discriminate;
            try reflexivity);
    inversion Hin.
Qed.

(** All goroutines done: [results] is, slot by slot, what each host's run
    determines, whatever the order of completion. *)
Lemma collectPhase_results (order : list nat) :
  order ≡ₚ seq 0 (length hosts) ->
  collectPhase hosts command runs order =
    (zip_with expectedResult hosts runs, 0,
     collectedBanner ++ flat_map (collectedTaskEvents hosts command runs) order).
Proof.
  intros Hperm. unfold collectPhase.
  destruct (collect_fold order (replicate (length hosts) HostResult.zero)
              (len hosts) collectedBanner)
    as (results' & Hfold & Hlen & Hdone & _).
  { apply Forall_forall. intros i Hi. rewrite Hperm in Hi.
    apply elem_of_seq in Hi. lia. }
  { apply length_replicate. }
  rewrite Hfold.
  assert (len hosts - len order = 0) as ->
    by (unfold len; rewrite Hperm, length_seq; lia).
  assert (results' = zip_with expectedResult hosts runs) as ->;
    [|reflexivity].
  - apply list_eq. intros i. rewrite lookup_zip_with.
    destruct (hosts !! i) as [h|] eqn:Hh.
    + destruct (lookup_lt_is_Some_2 runs i) as [run Hrun].
      { rewrite runs_length. eapply lookup_lt_Some. exact Hh. }
      rewrite Hrun. cbn. apply (Hdone i h run Hh Hrun).
      rewrite Hperm. apply elem_of_seq.
      apply lookup_lt_Some in Hh. lia.
    + cbn. apply lookup_ge_None. rewrite Hlen.
      apply lookup_ge_None in Hh. assumption.
Qed.

End Collected.

(** C7, as the code has it. In collected mode, once every goroutine has
    finished (in whatever order), the screen is cleared and the report is
    printed once: one section per host, in selection order, each built from
    that host's own run. A host whose spawn failed gets a section with its
    error and an empty output, and the sections of the others are what they
    would be without it. Before [wg.Wait()] returns the banner has been
    printed, and every goroutine that ran its command to the end has
    printed a line with a check mark and its alias, in order of completion;
    nothing of a host's output or error is printed before the report. *)
Theorem collected_report_selection_order (hosts : list Host.SSHHost)
  (command : string) (runs : list HostRun) (order : list nat) (w : World) :
  length runs = length hosts ->
  order ≡ₚ seq 0 (length hosts) ->
  exists w' progress,
    executeMultiHostCollected hosts command runs order w = Some w' /\
    log w' =
      log w ++ collectedBanner ++ progress ++ [EWaitGroupDone] ++
      reportHeader command ++
      flat_map reportSection (zip_with expectedResult hosts runs) ++
      reportFooter /\
    (forall e, e ∈ progress -> isPrint e = true ->
               exists h, h ∈ hosts /\ e = tick h) /\
    (forall h err,
        reportSection (expectedResult h (SpawnFailed err)) =
          [EPrintf (separator +:+ "\n") [];
           EPrintf "Host: %s\n" [AStr (Host.Alias h)];
           EPrintf "Error: %v\n" [AStr err];
           EPrintf "\n%s\n" [AStr ""]]) /\
    (forall h ptmx proc output,
        reportSection (expectedResult h (Ran ptmx proc output)) =
          [EPrintf (separator +:+ "\n") [];
           EPrintf "Host: %s\n" [AStr (Host.Alias h)];
           EPrintf "\n%s\n" [AStr output]]) /\
    heap w' = heap w /\ sessions w' = sessions w /\ nextID w' = nextID w.
Proof.
  intros Hlen Hperm.
  exists (emit ((collectedBanner ++
                 flat_map (collectedTaskEvents hosts command runs) order) ++
                [EWaitGroupDone] ++
                collectedReport command (zip_with expectedResult hosts runs)) w),
         (flat_map (collectedTaskEvents hosts command runs) order).
  split; [|split; [|split; [|split; [|split]]]].
  - unfold executeMultiHostCollected.
    rewrite (collectPhase_results hosts command runs Hlen order Hperm).
    reflexivity.
  - cbn [log emit]. unfold collectedReport.
    rewrite <- !app_assoc. reflexivity.
  - intros e. apply collect_progress_prints.
  - reflexivity.
  - reflexivity.
  - repeat split.
Qed.

Lemma collected_report_selection_order_witness :
  let A := Host.Build_SSHHost "A" "" "" "" [] in
  let B := Host.Build_SSHHost "B" "" "" "" [] in
  let C := Host.Build_SSHHost "C" "" "" "" [] in
  let runs := [Ran 7%nat 70%nat "a"; SpawnFailed "boom"; Ran 9%nat 90%nat "c"] in
  let order := [2; 0; 1]%nat in
  length runs = length [A; B; C] /\
  order ≡ₚ seq 0 (length [A; B; C]) /\
  (fun w' => printed (drop (length (beforeWait (log w'))) (log w')))
    <$> executeMultiHostCollected [A; B; C] "uptime" runs order initialWorld =
  Some (reportHeader "uptime" ++
        [EPrintf (separator +:+ "\n") []; EPrintf "Host: %s\n" [AStr "A"];
         EPrintf "\n%s\n" [AStr "a"];
         EPrintf (separator +:+ "\n") []; EPrintf "Host: %s\n" [AStr "B"];
         EPrintf "Error: %v\n" [AStr "boom"]; EPrintf "\n%s\n" [AStr ""];
         EPrintf (separator +:+ "\n") []; EPrintf "Host: %s\n" [AStr "C"];
         EPrintf "\n%s\n" [AStr "c"];
         EPrintln separator; EPrintln "\nPress Enter..."]).
Proof.
  cbn zeta.
  assert ([2; 0; 1]%nat ≡ₚ seq 0 3) as Hperm.
  { cbn [seq]. apply (Permutation_cons_append [0; 1]%nat 2%nat). }
  split; [reflexivity|]. split; [exact Hperm|].
  destruct (collected_report_selection_order
              [Host.Build_SSHHost "A" "" "" "" []; Host.Build_SSHHost "B" "" "" "" [];
               Host.Build_SSHHost "C" "" "" "" []]
              "uptime"
              [Ran 7%nat 70%nat "a"; SpawnFailed "boom"; Ran 9%nat 90%nat "c"]
              [2; 0; 1]%nat initialWorld eq_refl Hperm)
    as (w' & progress & Hrun & _).
  rewrite Hrun. vm_compute in Hrun. injection Hrun as <-. reflexivity.
Defined.

(** C7, as the claim words it, fails on "nothing is printed until all
    per-host tasks have finished": for hosts A, B, C with B failing and C
    finishing first, the banner and the check-mark lines of C and A are
    printed before [wg.Wait()] returns. *)
Lemma collected_prints_before_done_counterexample :
  let A := Host.Build_SSHHost "A" "" "" "" [] in
  let B := Host.Build_SSHHost "B" "" "" "" [] in
  let C := Host.Build_SSHHost "C" "" "" "" [] in
  let runs := [Ran 7%nat 70%nat "a"; SpawnFailed "boom"; Ran 9%nat 90%nat "c"] in
  (fun w' => printed (beforeWait (log w')))
    <$> executeMultiHostCollected [A; B; C] "uptime" runs [2; 0; 1]%nat
          initialWorld
  = Some (collectedBanner ++ [tick C; tick A]) /\
  (fun w' => printed (beforeWait (log w')))
    <$> executeMultiHostCollected [A; B; C] "uptime" runs [2; 0; 1]%nat
          initialWorld
  <> Some [].
Proof.
  cbn zeta. split; [reflexivity | discriminate].
Qed.

(** ** The Active flag *)

Lemma heapStable_refl (w : World) : heapStable w w.
Proof. repeat split. eauto. Qed.

Lemma heapStable_trans (w1 w2 w3 : World) :
  heapStable w1 w2 -> heapStable w2 w3 -> heapStable w1 w3.
Proof.
  intros (Hm1 & Hl1 & Hh1) (Hm2 & Hl2 & Hh2).
  split; [congruence|]. split; [congruence|].
  intros a s Hs. destruct (Hh1 a s Hs) as (s2 & Hs2 & Ha2).
  destruct (Hh2 a s2 Hs2) as (s3 & Hs3 & Ha3).
  exists s3. split; [assumption | congruence].
Qed.

Lemma heapStable_emit (evs : list Event) (w : World) : heapStable w (emit evs w).
Proof. repeat split. eauto. Qed.

Lemma heapStable_update (a : nat) (s s' : Session) (w : World) :
  heap w !! a = Some s -> Active s' = Active s ->
  heapStable w (setHeap (<[a := s']> (heap w)) w).
Proof.
  intros Hs Hact. split; [reflexivity|].
  split; [apply length_insert|].
  intros b t Ht. cbn [heap setHeap].
  destruct (decide (b = a)) as [->|Hne].
  - exists s'. rewrite list_lookup_insert_eq by (eapply lookup_lt_Some; eauto).
    split; [reflexivity | congruence].
  - exists t. rewrite list_lookup_insert_ne by congruence. auto.
Qed.

Lemma ptyToStdoutIter_Active (r : ReadResult) (s : Session) :
  Active (snd (fst (ptyToStdoutIter r s))) = Active s.
Proof.
  unfold ptyToStdoutIter. destruct r as [chunk|]; [|reflexivity].
  destruct (0 <? len chunk); reflexivity.
Qed.

Lemma runAttached_stable (a : nat) (sched : list IOEvent) :
  forall w w', runAttached a sched w = Some w' -> heapStable w w'.
Proof.
  induction sched as [|ev sched IH]; intros w w' Hrun; [discriminate|].
  cbn [runAttached] in Hrun.
  destruct (heap w !! a) as [s|] eqn:Hs; [|discriminate].
  destruct ev as [r wr|r|sz].
  - destruct (stdinToPtyIter (PTY s) r wr) as [evs [|]].
    + eapply heapStable_trans; [apply (heapStable_emit evs)|]. apply IH, Hrun.
    + injection Hrun as <-. apply heapStable_emit.
  - pose proof (ptyToStdoutIter_Active r s) as Hact.
    destruct (ptyToStdoutIter r s) as [[evs s'] nx]. cbn [fst snd] in Hact.
    assert (heapStable w (emit evs (setHeap (<[a := s']> (heap w)) w))) as Hst.
    { eapply heapStable_trans; [eapply heapStable_update; eassumption|].
      apply heapStable_emit. }
    destruct nx.
    + eapply heapStable_trans; [exact Hst|]. apply IH, Hrun.
    + injection Hrun as <-. exact Hst.
  - eapply heapStable_trans; [apply (heapStable_emit (propagateSize (PTY s) sz))|].
    apply IH, Hrun.
Qed.

Lemma heapStable_setRawMode (b : bool) (w : World) :
  heapStable w (setRawMode b w).
Proof. repeat split. eauto. Qed.

Lemma attachToSession_stable (a : nat) (env : AttachEnv) (w w' : World) :
  attachToSession a env w = Some w' -> heapStable w w'.
Proof.
  unfold attachToSession. intros Hrun.
  destruct (heap w !! a) as [s|]; [|discriminate].
  destruct (sessionEnded s).
  { injection Hrun as <-. apply heapStable_emit. }
  destruct (makeRawResult env).
  - match type of Hrun with
    | match runAttached a _ ?w4 with _ => _ end = _ =>
        destruct (runAttached a (schedule env) w4) as [w5|] eqn:Hio;
          [|discriminate];
        assert (heapStable w w4) as H4 by (repeat split; eauto)
    end.
    injection Hrun as <-.
    eapply heapStable_trans; [exact H4|].
    eapply heapStable_trans; [eapply runAttached_stable; exact Hio|].
    unfold restore. destruct (restoreOk env); repeat split; eauto.
  - injection Hrun as <-. repeat split. eauto.
Qed.

Lemma closeActiveFrom_stable (n : nat) (w w' : World) :
  closeActiveFrom n w = Some w' -> heapStable w w'.
Proof.
  induction n as [|i IH]; cbn [closeActiveFrom]; intros Hrun.
  - injection Hrun as <-. apply heapStable_refl.
  - destruct (sessions w !! i) as [a|]; [|discriminate].
    destruct (heap w !! a) as [s|]; [|discriminate].
    destruct (Active s); [|auto].
    injection Hrun as <-. repeat split. eauto.
Qed.

Lemma closeAllFrom_stable (l : list nat) :
  forall w w', closeAllFrom l w = Some w' -> heapStable w w'.
Proof.
  induction l as [|a l IH]; cbn [closeAllFrom]; intros w w' Hrun.
  - injection Hrun as <-. apply heapStable_refl.
  - destruct (heap w !! a) as [s|]; [|discriminate].
    eapply heapStable_trans; [apply (heapStable_emit (closeEffects s))|].
    apply IH, Hrun.
Qed.

Lemma executeMultiHost_stable (TrimSpace : string -> string)
  (hosts : list Host.SSHHost) (env : MultiEnv) (w w' : World) :
  executeMultiHost TrimSpace hosts env w = Some w' -> heapStable w w'.
Proof.
  unfold executeMultiHost, executeMultiHostLive, executeMultiHostCollected.
  intros Hrun.
  destruct (len hosts =? 0); [injection Hrun as <-; apply heapStable_emit|].
  destruct (String.eqb _ ""); [injection Hrun as <-; apply heapStable_emit|].
  destruct (String.eqb _ "1").
  - destruct (foldl _ _ _) as [wg evs].
    destruct (wg =? 0); [|discriminate].
    injection Hrun as <-. repeat split. eauto.
  - destruct (collectPhase _ _ _ _) as [[results wg] evs].
    destruct (wg =? 0); [|discriminate].
    injection Hrun as <-. repeat split. eauto.
Qed.

(** What one operation can do to the Session objects and to the monitors:
    leave both alone; or allocate one more session, active and monitored;
    or be the monitor of a session, which marks it and goes away. *)
Lemma step_cases (TrimSpace : string -> string) (op : Op) (w w' : World) :
  step TrimSpace op w = Some w' ->
  ((forall a st, op <> OpMonitorExit a st) /\ heapStable w w') \/
  (exists host ptmx proc w1,
      (forall a st, op <> OpMonitorExit a st) /\
      heapStable w w1 /\
      heapStable (snd (registerSession host ptmx proc w1)) w') \/
  (exists a st s,
      op = OpMonitorExit a st /\ a ∈ monitors w /\ heap w !! a = Some s /\
      monitors w' = filter (fun x => x <> a) (monitors w) /\
      heap w' = <[a := markExited st s]> (heap w)).
Proof.
  destruct op as [host att env|num env| | |hosts env|a st]; cbn [step]; intros Hrun.
  - unfold createSession in Hrun.
    destruct (withinTimeout att).
    + destruct (result att) as [ptmx proc|msg].
      * right. left.
        exists host, ptmx, proc,
          (emit [EPrintf "\nConnecting to %s...\n" [AStr (Host.Alias host)];
                 EStart (buildSSHArgs host)] w).
        split; [discriminate|].
        split; [apply heapStable_emit|].
        unfold registerSession in *. cbn [snd].
        eapply attachToSession_stable. exact Hrun.
      * left. split; [discriminate|].
        injection Hrun as <-. repeat split. eauto.
    + left. split; [discriminate|].
      injection Hrun as <-. repeat split. eauto.
  - left. split; [discriminate|]. unfold resumeSession in Hrun.
    destruct ((0 <? num) && (num <=? len (sessions w))).
    + destruct (sessions w !! Z.to_nat (num - 1)); [|discriminate].
      eapply attachToSession_stable. exact Hrun.
    + injection Hrun as <-. apply heapStable_emit.
  - left. split; [discriminate|]. eapply closeActiveFrom_stable. exact Hrun.
  - left. split; [discriminate|]. eapply closeAllFrom_stable. exact Hrun.
  - left. split; [discriminate|]. eapply executeMultiHost_stable. exact Hrun.
  - right. right. unfold monitorExit in Hrun.
    destruct (decide (a ∈ monitors w)) as [Hin|]; [|discriminate].
    destruct (heap w !! a) as [s|] eqn:Hs; [|discriminate].
    injection Hrun as <-. exists a, st, s. repeat split; assumption.
Qed.

Section ActiveFlag.

Variable TrimSpace : string -> string.

(** Across one operation a Session object stays where it is; its [Active]
    can only go from true to false, and only when the operation is the
    wake-up of its own monitor. *)
Lemma step_Active (op : Op) (w w' : World) (a : nat) (s : Session) :
  step TrimSpace op w = Some w' ->
  heap w !! a = Some s ->
  exists s',
    heap w' !! a = Some s' /\
    (Active s = false -> Active s' = false) /\
    ((forall st, op <> OpMonitorExit a st) -> Active s' = Active s).
Proof.
  intros Hstep Hs.
  destruct (step_cases _ _ _ _ Hstep)
    as [[_ Hst]|[(host & ptmx & proc & w1 & _ & Hst1 & Hst2)|
                 (b & st & t & -> & _ & Ht & _ & Hheap)]].
  - destruct Hst as (_ & _ & Hh). destruct (Hh a s Hs) as (s' & Hs' & Hact).
    exists s'. split; [assumption|]. split; congruence.
  - destruct Hst1 as (_ & _ & Hh1). destruct (Hh1 a s Hs) as (s1 & Hs1 & Hact1).
    destruct Hst2 as (_ & _ & Hh2).
    destruct (Hh2 a s1) as (s' & Hs' & Hact2).
    { cbn [registerSession snd heap]. apply lookup_app_l_Some. assumption. }
    exists s'. split; [assumption|]. split; congruence.
  - rewrite Hheap. destruct (decide (a = b)) as [->|Hne].
    + exists (markExited st t).
      rewrite list_lookup_insert_eq by (eapply lookup_lt_Some; eauto).
      split; [reflexivity|]. split; [reflexivity|].
      intros Hno. exfalso. apply (Hno st). reflexivity.
    + exists s. rewrite list_lookup_insert_ne by congruence. auto.
Qed.

Lemma run_Active (ops : list Op) :
  forall w w' a s,
    run TrimSpace ops w = Some w' ->
    heap w !! a = Some s ->
    Active s = false ->
    exists s', heap w' !! a = Some s' /\ Active s' = false.
Proof.
  induction ops as [|op ops IH]; intros w w' a s Hrun Hs Hoff.
  - injection Hrun as <-. eauto.
  - cbn [run] in Hrun.
    destruct (step TrimSpace op w) as [w1|] eqn:Hstep; [|discriminate].
    destruct (step_Active _ _ _ _ _ Hstep Hs) as (s1 & Hs1 & Hmono & _).
    eapply IH; eauto.
Qed.

(** The monitors stay valid; a session that is allocated and has no
    monitor never gets one; the session whose monitor wakes up has none
    afterwards. *)
Lemma step_monitors (op : Op) (w w' : World) :
  monitorsValid w ->
  step TrimSpace op w = Some w' ->
  monitorsValid w' /\
  (length (heap w) <= length (heap w'))%nat /\
  (forall a, (a < length (heap w))%nat -> a ∉ monitors w -> a ∉ monitors w') /\
  (forall a st, op = OpMonitorExit a st ->
                (a < length (heap w))%nat /\ a ∉ monitors w').
Proof.
  intros [Hnodup Hbound] Hstep.
  destruct (step_cases _ _ _ _ Hstep)
    as [[Hop (Hm & Hl & _)]|[(host & ptmx & proc & w1 & Hop & (Hm1 & Hl1 & _) &
                                (Hm2 & Hl2 & _))|
                             (b & st & t & -> & Hin & Ht & Hm & Hheap)]].
  - unfold monitorsValid. rewrite Hm, Hl.
    split; [split; assumption|]. split; [lia|]. split; [auto|].
    intros a st ->. destruct (Hop a st). reflexivity.
  - cbn [registerSession snd monitors heap] in Hm2, Hl2.
    rewrite length_app in Hl2. cbn [length] in Hl2.
    unfold monitorsValid. rewrite Hm2, Hl2, Hm1, Hl1.
    assert (length (heap w) ∉ monitors w) as Hfresh.
    { intros Hin. apply (proj1 (Forall_forall _ _) Hbound) in Hin. lia. }
    split; [split|]; [| |split; [|split]].
    + apply NoDup_app. split; [assumption|]. split; [|apply NoDup_singleton].
      intros x Hx Hx'. apply list_elem_of_singleton in Hx'. subst x.
      contradiction.
    + apply Forall_app. split.
      * eapply Forall_impl; [exact Hbound|]. cbn. intros; lia.
      * apply Forall_singleton. lia.
    + lia.
    + intros a Ha Hout Hin. apply elem_of_app in Hin as [Hin|Hin];
        [contradiction|].
      apply list_elem_of_singleton in Hin. lia.
    + intros a st ->. destruct (Hop a st). reflexivity.
  - unfold monitorsValid. rewrite Hm, Hheap, length_insert.
    split; [split|]; [| |split; [|split]].
    + apply NoDup_filter. assumption.
    + apply Forall_forall. intros x Hx. apply list_elem_of_filter in Hx as [_ Hx].
      apply (proj1 (Forall_forall _ _) Hbound). assumption.
    + lia.
    + intros a _ Hout Hx. apply list_elem_of_filter in Hx as [_ Hx].
      contradiction.
    + intros a st' Heq. injection Heq as <- _. split.
      * eapply lookup_lt_Some. exact Ht.
      * intros Hx. apply list_elem_of_filter in Hx as [Hne _]. congruence.
Qed.

Lemma run_no_monitor (ops : list Op) :
  forall w w' a,
    monitorsValid w ->
    (a < length (heap w))%nat -> a ∉ monitors w ->
    run TrimSpace ops w = Some w' ->
    monitorExits a ops = 0%nat.
Proof.
  induction ops as [|op ops IH]; intros w w' a Hvalid Ha Hout Hrun;
    [reflexivity|].
  cbn [run] in Hrun.
  destruct (step TrimSpace op w) as [w1|] eqn:Hstep; [|discriminate].
  destruct (step_monitors _ _ _ Hvalid Hstep) as (Hvalid1 & Hlen & Hkeep & _).
  assert (monitorExits a ops = 0%nat) as Hrest.
  { eapply (IH w1 w' a); eauto. lia. }
  destruct op as [| | | | |b st]; cbn [monitorExits]; try exact Hrest.
  destruct (decide (b = a)) as [->|_]; [|exact Hrest].
  cbn [step] in Hstep. unfold monitorExit in Hstep.
  destruct (decide (a ∈ monitors w)); [contradiction | discriminate].
Qed.

Lemma run_monitor_once (ops : list Op) :
  forall w w' a,
    monitorsValid w ->
    run TrimSpace ops w = Some w' ->
    (monitorExits a ops <= 1)%nat.
Proof.
  induction ops as [|op ops IH]; intros w w' a Hvalid Hrun; [cbn; lia|].
  cbn [run] in Hrun.
  destruct (step TrimSpace op w) as [w1|] eqn:Hstep; [|discriminate].
  destruct (step_monitors _ _ _ Hvalid Hstep) as (Hvalid1 & Hlen & _ & Hgone).
  pose proof (IH w1 w' a Hvalid1 Hrun) as Hrest.
  destruct op as [| | | | |b st]; cbn [monitorExits]; try exact Hrest.
  destruct (decide (b = a)) as [->|_]; [|exact Hrest].
  destruct (Hgone a st eq_refl) as [Ha Hout].
  rewrite (run_no_monitor ops w1 w' a Hvalid1); [lia | lia | assumption | assumption].
Qed.

End ActiveFlag.

Lemma initialWorld_monitorsValid : monitorsValid initialWorld.
Proof. split; [apply NoDup_nil_2 | apply Forall_nil_2]. Qed.

(** C9. One-way active transition.
    (1) A session that createSession registers is there, at a fresh
    address, with [Active] true and one monitor, when createSession
    returns.
    (2) Once [Active] is false it is false after any sequence of
    operations: nothing sets it back.
    (3) An operation that turns [Active] from true to false is the wake-up
    of the monitor of that very session.
    (4) In a run of the system from its initial state the monitor of a
    session wakes up at most once. *)
Theorem active_one_way (TrimSpace : string -> string) :
  (forall host att env w w' ptmx proc,
      withinTimeout att = true ->
      result att = StartOk ptmx proc ->
      createSession host att env w = Some w' ->
      heap w !! length (heap w) = None /\
      length (heap w) ∈ monitors w' /\
      exists s, heap w' !! length (heap w) = Some s /\ Active s = true) /\
  (forall ops w w' a s,
      run TrimSpace ops w = Some w' ->
      heap w !! a = Some s ->
      Active s = false ->
      exists s', heap w' !! a = Some s' /\ Active s' = false) /\
  (forall op w w' a s s',
      step TrimSpace op w = Some w' ->
      heap w !! a = Some s -> Active s = true ->
      heap w' !! a = Some s' -> Active s' = false ->
      exists st, op = OpMonitorExit a st) /\
  (forall ops w' a,
      run TrimSpace ops initialWorld = Some w' ->
      (monitorExits a ops <= 1)%nat).
Proof.
  split; [|split; [|split]].
  - intros host att env w w' ptmx proc Hin Hres Hrun.
    unfold createSession in Hrun. rewrite Hin, Hres in Hrun.
    unfold registerSession in Hrun. cbn [heap emit] in Hrun.
    apply attachToSession_stable in Hrun as (Hm & _ & Hh).
    split; [apply lookup_ge_None; lia|]. split.
    + rewrite Hm. cbn [monitors emit]. apply elem_of_app. right.
      apply list_elem_of_singleton. reflexivity.
    + destruct (Hh (length (heap w)) (newSession (nextID w) host ptmx proc))
        as (s & Hs & Hact).
      { cbn [heap]. apply list_lookup_middle. reflexivity. }
      exists s. split; [assumption|]. rewrite Hact. reflexivity.
  - intros ops w w' a s. apply run_Active.
  - intros op w w' a s s' Hstep Hs Hon Hs' Hoff.
    destruct (step_Active TrimSpace _ _ _ _ _ Hstep Hs) as (t & Ht & _ & Hsame).
    assert (t = s') as -> by congruence.
    destruct op as [| | | | |b st];
      try (rewrite Hsame in Hoff by discriminate; congruence).
    destruct (decide (b = a)) as [->|Hne]; [eauto|].
    rewrite Hsame in Hoff by congruence. congruence.
  - intros ops w' a. apply run_monitor_once. apply initialWorld_monitorsValid.
Qed.

Lemma active_one_way_witness :
  let host := Host.Build_SSHHost "web" "" "" "" [] in
  let att := {| latency := 20000000; result := StartOk 3%nat 100%nat;
                processAtDeadline := None |} in
  let detach := {| sizeAtAttach := None; makeRawResult := RawOk;
                   restoreOk := true;
                   schedule := [PtyIter (ReadOk [x68; x69]);
                                StdinIter (ReadOk [x00]) WriteOk] |} in
  let before := [OpCreate host att detach;
                 OpMonitorExit 0%nat {| Exited := false |}] in
  let after := [OpResume 1 detach; OpCreate host att detach; OpCloseActive;
                OpResume 1 detach; OpCloseAll] in
  match run asciiTrimSpace before initialWorld with
  | Some w =>
      Active <$> heap w !! 0%nat = Some false /\
      match run asciiTrimSpace after w with
      | Some w' => Active <$> heap w' !! 0%nat = Some false
      | None => False
      end
  | None => False
  end.
Proof.
  cbn zeta.
  match goal with
  | |- match ?r with _ => _ end =>
      destruct r as [w|] eqn:Hbefore; [|vm_compute in Hbefore; discriminate]
  end.
  vm_compute in Hbefore. injection Hbefore as <-.
  split; [reflexivity|].
  match goal with
  | |- match ?r with _ => _ end =>
      destruct r as [w'|] eqn:Hafter; [|vm_compute in Hafter; discriminate]
  end.
  destruct (active_one_way asciiTrimSpace) as (_ & Hterminal & _).
  destruct (Hterminal _ _ _ 0%nat _ Hafter eq_refl eq_refl) as (s' & Hs' & Hoff).
  rewrite Hs'. cbn. rewrite Hoff. reflexivity.
Defined.

(** * Further properties *)

(** ** The attach cycle as a whole *)

Lemma propagateSize_quiet (pty : option OsFile) (sz : option Winsize) :
  forwarded (propagateSize pty sz) = [] /\
  stdoutBytes (propagateSize pty sz) = [] /\
  forallb isLiveEvent (propagateSize pty sz) = true.
Proof. destruct sz; repeat split. Qed.

Lemma stdinToPtyIter_effects (pty : option OsFile) (r : ReadResult)
  (wr : WriteResult) :
  hasSentinel (forwarded (fst (stdinToPtyIter pty r wr))) = false /\
  stdoutBytes (fst (stdinToPtyIter pty r wr)) = [] /\
  forallb isLiveEvent (fst (stdinToPtyIter pty r wr)) = true.
Proof.
  unfold stdinToPtyIter. destruct r as [buf|]; [|repeat split].
  destruct (hasSentinel buf) eqn:Hbuf; [repeat split|].
  destruct wr as [|n]; cbn [fst forwarded stdoutBytes]; rewrite app_nil_r;
    split; try (split; reflexivity);
    [assumption | apply hasSentinel_take; assumption].
Qed.

Lemma sameButScrollback_refl (s : Session) : sameButScrollback s s.
Proof. destruct s; reflexivity. Qed.

Lemma sameButScrollback_trans (s1 s2 s3 : Session) :
  sameButScrollback s1 s2 -> sameButScrollback s2 s3 -> sameButScrollback s1 s3.
Proof.
  unfold sameButScrollback. intros H12 H23. rewrite H23 at 1. rewrite H12.
  reflexivity.
Qed.

Lemma attachedStep_trans (a : nat) (c1 c2 : list (list byte)) (w1 w2 w3 : World) :
  attachedStep a c1 w1 w2 -> attachedStep a c2 w2 w3 ->
  attachedStep a (c1 ++ c2) w1 w3.
Proof.
  intros (Hse & Hid & Hmo & Hra & Hle & Hot & Hat & evs & Hlog & Hlv & Hcl & Hout)
         (Hse' & Hid' & Hmo' & Hra' & Hle' & Hot' & Hat' & evs' & Hlog' & Hlv' &
          Hcl' & Hout').
  unfold attachedStep.
  split; [congruence|]. split; [congruence|]. split; [congruence|].
  split; [congruence|]. split; [congruence|].
  split; [intros b Hb; rewrite Hot', Hot by assumption; reflexivity|].
  split.
  - intros s Hs. destruct (Hat s Hs) as (s2 & Hs2 & H12).
    destruct (Hat' s2 Hs2) as (s3 & Hs3 & H23).
    exists s3. split; [assumption|]. eapply sameButScrollback_trans; eassumption.
  - exists (evs ++ evs'). split; [rewrite Hlog', Hlog, app_assoc; reflexivity|].
    split; [rewrite forallb_app, Hlv, Hlv'; reflexivity|].
    split.
    + rewrite forwarded_app, hasSentinel_app, Hcl, Hcl'. reflexivity.
    + rewrite stdoutBytes_app, Hout, Hout', concat_app. reflexivity.
Qed.

Lemma attachedStep_emit (a : nat) (evs : list Event) (w : World) :
  hasSentinel (forwarded evs) = false -> stdoutBytes evs = [] ->
  forallb isLiveEvent evs = true ->
  attachedStep a [] w (emit evs w).
Proof.
  intros Hcl Hout Hlv. unfold attachedStep. cbn [sessions nextID monitors rawMode heap log emit].
  do 6 (split; [reflexivity|]).
  split; [intros s Hs; exists s; split; [assumption | apply sameButScrollback_refl]|].
  exists evs. auto.
Qed.

Lemma attachedStep_capture (a : nat) (chunk : list byte) (sb : list byte)
  (s : Session) (w : World) :
  heap w !! a = Some s ->
  attachedStep a [chunk]
    w (emit [EStdoutWrite chunk] (setHeap (<[a := setScrollback sb s]> (heap w)) w)).
Proof.
  intros Hs. unfold attachedStep.
  cbn [sessions nextID monitors rawMode heap log emit setHeap].
  do 4 (split; [reflexivity|]).
  split; [apply length_insert|].
  split; [intros b Hb; apply list_lookup_insert_ne; congruence|].
  split.
  - intros s0 Hs0. assert (s0 = s) as -> by congruence.
    exists (setScrollback sb s).
    split; [apply list_lookup_insert_eq; eapply lookup_lt_Some; exact Hs|].
    reflexivity.
  - exists [EStdoutWrite chunk]. split; [reflexivity|].
    split; [reflexivity|].
    split; [reflexivity|]. cbn. rewrite !app_nil_r. reflexivity.
Qed.

Lemma attachedStep_same_heap (a : nat) (s : Session) (w : World) :
  heap w !! a = Some s ->
  attachedStep a [] w (emit [] (setHeap (<[a := s]> (heap w)) w)).
Proof.
  intros Hs. rewrite list_insert_id by assumption.
  pose proof (attachedStep_emit a [] w eq_refl eq_refl eq_refl) as H.
  destruct w. exact H.
Qed.

Lemma runAttached_frame (a : nat) (sched : list IOEvent) :
  forall w w' s,
    runAttached a sched w = Some w' ->
    heap w !! a = Some s ->
    attachedStep a (capturedChunks sched) w w'.
Proof.
  induction sched as [|ev sched IH]; intros w w' s Hrun Hs; [discriminate|].
  cbn [runAttached] in Hrun. rewrite Hs in Hrun.
  destruct ev as [r wr|r|sz]; cbn [capturedChunks].
  - destruct (stdinToPtyIter_effects (PTY s) r wr) as (Hclean & Hout & Hlive).
    rewrite <- (stdinToPtyIter_next (PTY s) r wr).
    destruct (stdinToPtyIter (PTY s) r wr) as [evs nx]. cbn [fst snd] in *.
    pose proof (attachedStep_emit a evs w Hclean Hout Hlive) as Hstep.
    destruct nx.
    + apply (attachedStep_trans a [] _ _ _ _ Hstep).
      eapply IH; [exact Hrun | exact Hs].
    + injection Hrun as <-. exact Hstep.
  - destruct r as [chunk|]; cbn [ptyToStdoutIter] in Hrun.
    + destruct (0 <? len chunk) eqn:Hpos.
      * pose proof (attachedStep_capture a chunk
                      (appendScrollback chunk (Scrollback s)) s w Hs) as Hstep.
        apply (attachedStep_trans a [chunk] _ _ _ _ Hstep).
        eapply IH; [exact Hrun|].
        cbn [heap emit setHeap]. apply list_lookup_insert_eq.
        eapply lookup_lt_Some. exact Hs.
      * assert (chunk = []) as ->.
        { apply Z.ltb_ge in Hpos. destruct chunk; [reflexivity|].
          unfold len in Hpos. simpl in Hpos. lia. }
        pose proof (attachedStep_same_heap a s w Hs) as Hstep.
        assert (attachedStep a [[]] w
                  (emit [] (setHeap (<[a := s]> (heap w)) w))) as Hstep'.
        { destruct Hstep as (? & ? & ? & ? & ? & ? & ? & evs & ? & ? & ? & ?).
          repeat (split; [assumption|]). exists evs. auto. }
        apply (attachedStep_trans a [[]] _ _ _ _ Hstep').
        eapply IH; [exact Hrun|].
        cbn [heap emit setHeap]. apply list_lookup_insert_eq.
        eapply lookup_lt_Some. exact Hs.
    + injection Hrun as <-. apply (attachedStep_same_heap a s w Hs).
  - destruct (propagateSize_quiet (PTY s) sz) as (Hfw & Hout & Hlive).
    assert (hasSentinel (forwarded (propagateSize (PTY s) sz)) = false) as Hclean
      by (rewrite Hfw; reflexivity).
    pose proof (attachedStep_emit a _ w Hclean Hout Hlive) as Hstep.
    apply (attachedStep_trans a [] _ _ _ _ Hstep).
    eapply IH; [exact Hrun | exact Hs].
Qed.

Lemma attachToSession_proxy (a : nat) (env : AttachEnv) (w w' : World)
  (s : Session) :
  attachToSession a env w = Some w' ->
  heap w !! a = Some s ->
  sessionEnded s = false ->
  makeRawResult env = RawOk ->
  exists w5,
    runAttached a (schedule env)
      (setRawMode true
         (emit [EMakeRaw]
            (emit [ENotifyWinch]
               (emit (propagateSize (PTY s) (sizeAtAttach env))
                  (attachReplay s w))))) = Some w5 /\
    w' = emit [EStopWinch]
           (restore (restoreOk env) (rawMode w)
              (emit [EDrainStdin; EPrint "\n\n[Detached]\n"] w5)).
Proof.
  unfold attachToSession. intros Hrun Hs Hlive Hraw.
  rewrite Hs, Hlive, Hraw in Hrun.
  match type of Hrun with
  | match ?r with _ => _ end = _ => destruct r as [w5|] eqn:Hio; [|discriminate]
  end.
  injection Hrun as <-. exists w5. split; reflexivity.
Qed.

(** X1. The order of an attach cycle. An attach that gets past its guard and
    into raw mode logs, in this order: banner, replay, size, subscription to
    SIGWINCH, raw mode, the traffic of the copy goroutines and the resize
    handler, the drain of stdin, the detach notice, the restoration of the
    terminal, the end of the subscription. The terminal is back in the mode
    it had, unless [restore] failed: its error is dropped and the terminal
    stays raw. *)
Theorem attach_cycle_order (a : nat) (env : AttachEnv) (w w' : World)
  (s : Session) :
  attachToSession a env w = Some w' ->
  heap w !! a = Some s ->
  sessionEnded s = false ->
  makeRawResult env = RawOk ->
  exists live,
    log w' =
      log w ++ attachBanner s ++ replayScrollback (Scrollback s) ++
      propagateSize (PTY s) (sizeAtAttach env) ++
      [ENotifyWinch; EMakeRaw] ++ live ++
      [EDrainStdin; EPrint "\n\n[Detached]\n"] ++
      (if restoreOk env then [ERestore] else []) ++ [EStopWinch] /\
    forallb isLiveEvent live = true /\
    rawMode w' = if restoreOk env then rawMode w else true.
Proof.
  intros Hrun Hs Hlive Hraw.
  destruct (attachToSession_proxy _ _ _ _ _ Hrun Hs Hlive Hraw) as (w5 & Hio & ->).
  destruct (runAttached_frame _ _ _ _ s Hio)
    as (_ & _ & _ & Hmode & _ & _ & _ & live & Hlog & Hlv & _ & _).
  { assumption. }
  exists live. split; [|split; [assumption|]].
  - unfold restore.
    destruct (restoreOk env);
      cbn [log emit setRawMode attachReplay] in *; rewrite Hlog;
      rewrite <- !app_assoc; reflexivity.
  - unfold restore. destruct (restoreOk env); cbn [rawMode emit setRawMode] in *;
      [reflexivity | assumption].
Qed.

Lemma attach_cycle_order_witness :
  let s := newSession 1 (Host.Build_SSHHost "web" "" "" "" []) 3%nat 100%nat in
  let w := {| heap := [s]; sessions := [0%nat]; nextID := 2;
              monitors := [0%nat]; rawMode := false; log := [] |} in
  let env := {| sizeAtAttach := None; makeRawResult := RawOk; restoreOk := false;
                schedule := [PtyIter (ReadOk [x24]); PtyIter ReadErr] |} in
  heap w !! 0%nat = Some s /\
  sessionEnded s = false /\
  makeRawResult env = RawOk /\
  rawMode <$> attachToSession 0%nat env w = Some true.
Proof.
  cbn zeta. split; [reflexivity|]. split; [reflexivity|]. split; [reflexivity|].
  match goal with
  | |- rawMode <$> ?r = _ => destruct r as [w'|] eqn:Hrun;
                             [|vm_compute in Hrun; discriminate]
  end.
  destruct (attach_cycle_order _ _ _ _ _ Hrun eq_refl eq_refl eq_refl)
    as (live & _ & _ & Hmode).
  cbn. rewrite Hmode. reflexivity.
Defined.

(** X2. What an attach never touches. Whatever path it takes (guard, failed
    raw mode, full cycle), an attach that returns leaves [sessions],
    [nextID] and the monitors as they were, leaves every other Session
    object as it was, and changes of the attached one nothing but the
    scrollback. *)
Theorem attach_changes_only_scrollback (a : nat) (env : AttachEnv)
  (w w' : World) (s : Session) :
  attachToSession a env w = Some w' ->
  heap w !! a = Some s ->
  sessions w' = sessions w /\
  nextID w' = nextID w /\
  monitors w' = monitors w /\
  length (heap w') = length (heap w) /\
  (forall b, b <> a -> heap w' !! b = heap w !! b) /\
  exists s',
    heap w' !! a = Some s' /\
    ID s' = ID s /\ Alias s' = Alias s /\ Cmd s' = Cmd s /\
    PTY s' = PTY s /\ Active s' = Active s.
Proof.
  intros Hrun Hs.
  destruct (sessionEnded s) eqn:Hended.
  { unfold attachToSession in Hrun. rewrite Hs, Hended in Hrun.
    injection Hrun as <-. repeat split; eauto 10. }
  destruct (makeRawResult env) as [|msg] eqn:Hraw.
  - destruct (attachToSession_proxy _ _ _ _ _ Hrun Hs Hended Hraw)
      as (w5 & Hio & ->).
    destruct (runAttached_frame _ _ _ _ s Hio)
      as (Hse & Hid & Hmo & _ & Hle & Hot & Hat & _); [assumption|].
    destruct (Hat s) as (s' & Hs' & Hsame); [assumption|].
    unfold restore.
    destruct (restoreOk env);
      cbn [sessions nextID monitors heap emit setRawMode attachReplay] in *;
      (repeat (split; [assumption|]); exists s'; split; [assumption|];
       rewrite Hsame; repeat split).
  - unfold attachToSession in Hrun. rewrite Hs, Hended, Hraw in Hrun.
    injection Hrun as <-. repeat split; eauto 10.
Qed.

Lemma attach_changes_only_scrollback_witness :
  let s0 := newSession 1 (Host.Build_SSHHost "web" "" "" "" []) 3%nat 100%nat in
  let s1 := newSession 2 (Host.Build_SSHHost "db" "" "" "" []) 4%nat 101%nat in
  let w := {| heap := [s0; s1]; sessions := [0; 1]%nat; nextID := 3;
              monitors := [0; 1]%nat; rawMode := false; log := [] |} in
  let env := {| sizeAtAttach := None; makeRawResult := RawOk; restoreOk := true;
                schedule := [PtyIter (ReadOk [x24]);
                             StdinIter (ReadOk [x00]) WriteOk] |} in
  heap w !! 1%nat = Some s1 /\
  (fun w' => (sessions w', heap w' !! 0%nat)) <$> attachToSession 1%nat env w =
    Some ([0; 1]%nat, Some s0).
Proof.
  cbn zeta. split; [reflexivity|].
  match goal with
  | |- _ <$> ?r = _ => destruct r as [w'|] eqn:Hrun;
                       [|vm_compute in Hrun; discriminate]
  end.
  destruct (attach_changes_only_scrollback _ _ _ _ _ Hrun eq_refl)
    as (Hse & _ & _ & _ & Hother & _).
  cbn. rewrite Hse, (Hother 0%nat) by discriminate. reflexivity.
Defined.

(** X3. What is shown is what is kept. After a full attach cycle the scrollback
    is the old one followed by the chunks captured during the cycle, cut to
    its last 1 MiB, and stdout has received the replay tail followed by
    exactly those chunks, whatever the interleaving with keystrokes and
    resizes. *)
Theorem attach_scrollback_and_echo (a : nat) (env : AttachEnv) (w w' : World)
  (s : Session) :
  attachToSession a env w = Some w' ->
  heap w !! a = Some s ->
  sessionEnded s = false ->
  makeRawResult env = RawOk ->
  len (Scrollback s) <= MaxScrollbackSize ->
  let captured := concat (capturedChunks (schedule env)) in
  heap w' !! a =
    Some (setScrollback (keepLast MaxScrollbackSize (Scrollback s ++ captured)) s) /\
  stdoutBytes (log w') =
    stdoutBytes (log w) ++ scrollbackToShow (Scrollback s) ++ captured.
Proof.
  intros Hrun Hs Hlive Hraw Hlen captured.
  destruct (attachToSession_proxy _ _ _ _ _ Hrun Hs Hlive Hraw) as (w5 & Hio & ->).
  destruct (runAttached_frame _ _ _ _ s Hio)
    as (_ & _ & _ & _ & _ & _ & Hat & live & Hlog & _ & _ & Hout); [assumption|].
  destruct (runAttached_scrollback _ _ _ _ s Hio) as (s' & Hs' & Hsb);
    [assumption | assumption |].
  destruct (Hat s) as (s'' & Hs'' & Hsame); [assumption|].
  assert (s'' = s') as -> by (cbn [heap emit setRawMode attachReplay] in *; congruence).
  split.
  - unfold restore.
    destruct (restoreOk env); cbn [heap emit setRawMode];
      rewrite Hs', Hsame, Hsb; reflexivity.
  - assert (stdoutBytes (log w5) =
            stdoutBytes (log w) ++ scrollbackToShow (Scrollback s) ++ captured)
      as Hshown.
    { rewrite Hlog. cbn [log emit setRawMode attachReplay].
      rewrite !stdoutBytes_app, Hout, replayScrollback_bytes.
      destruct (propagateSize_quiet (PTY s) (sizeAtAttach env)) as (_ & -> & _).
      cbn [stdoutBytes attachBanner app]. rewrite !app_nil_r, <- app_assoc.
      reflexivity. }
    unfold restore.
    destruct (restoreOk env); cbn [log emit setRawMode];
      rewrite !stdoutBytes_app, Hshown; cbn [stdoutBytes];
      rewrite !app_nil_r; reflexivity.
Qed.

Lemma attach_scrollback_and_echo_witness :
  let s := setScrollback [x68; x69]
             (newSession 1 (Host.Build_SSHHost "web" "" "" "" []) 3%nat 100%nat) in
  let w := {| heap := [s]; sessions := [0%nat]; nextID := 2;
              monitors := [0%nat]; rawMode := false; log := [] |} in
  let env := {| sizeAtAttach := None; makeRawResult := RawOk; restoreOk := true;
                schedule := [PtyIter (ReadOk [x24]);
                             StdinIter (ReadOk [x6c]) WriteOk;
                             PtyIter (ReadOk [x20]);
                             StdinIter (ReadOk [x00]) WriteOk] |} in
  heap w !! 0%nat = Some s /\
  sessionEnded s = false /\
  makeRawResult env = RawOk /\
  len (Scrollback s) <= MaxScrollbackSize /\
  (fun w' => stdoutBytes (log w')) <$> attachToSession 0%nat env w =
    Some [x68; x69; x24; x20].
Proof.
  cbn zeta. split; [reflexivity|]. split; [reflexivity|]. split; [reflexivity|].
  assert (len [x68; x69] <= MaxScrollbackSize) as Hlen
    by (unfold len, MaxScrollbackSize; simpl; lia).
  split; [exact Hlen|].
  match goal with
  | |- _ <$> ?r = _ => destruct r as [w'|] eqn:Hrun;
                       [|vm_compute in Hrun; discriminate]
  end.
  destruct (attach_scrollback_and_echo _ _ _ _ _ Hrun eq_refl eq_refl eq_refl Hlen)
    as [_ Hshown].
  cbn. rewrite Hshown. reflexivity.
Defined.

(** X4. The detach keystroke never reaches the remote side: whatever an attach
    that returns has sent to a pty, through whatever reads, writes and
    interleaving, holds no byte 0. *)
Theorem attach_never_forwards_sentinel (a : nat) (env : AttachEnv)
  (w w' : World) :
  attachToSession a env w = Some w' ->
  exists sent,
    forwarded (log w') = forwarded (log w) ++ sent /\
    hasSentinel sent = false.
Proof.
  intros Hrun.
  destruct (heap w !! a) as [s|] eqn:Hs;
    [|unfold attachToSession in Hrun; rewrite Hs in Hrun; discriminate].
  assert (forwarded (attachBanner s ++ replayScrollback (Scrollback s) ++
                     propagateSize (PTY s) (sizeAtAttach env)) = []) as Hquiet.
  { rewrite !forwarded_app.
    destruct (propagateSize_quiet (PTY s) (sizeAtAttach env)) as (-> & _).
    unfold replayScrollback. destruct (0 <? len (Scrollback s)); reflexivity. }
  destruct (sessionEnded s) eqn:Hended.
  { unfold attachToSession in Hrun. rewrite Hs, Hended in Hrun.
    injection Hrun as <-. exists []. cbn [log emit].
    rewrite forwarded_app. split; reflexivity. }
  destruct (makeRawResult env) as [|msg] eqn:Hraw.
  - destruct (attachToSession_proxy _ _ _ _ _ Hrun Hs Hended Hraw)
      as (w5 & Hio & ->).
    destruct (runAttached_frame _ _ _ _ s Hio)
      as (_ & _ & _ & _ & _ & _ & _ & live & Hlog & _ & Hclean & _);
      [assumption|].
    exists (forwarded live). split; [|assumption].
    unfold restore.
    destruct (restoreOk env); cbn [log emit setRawMode attachReplay] in *;
      rewrite !forwarded_app, Hlog, !forwarded_app;
      rewrite !forwarded_app in Hquiet;
      apply app_eq_nil in Hquiet as [Hb Hquiet];
      apply app_eq_nil in Hquiet as [Hr Hp];
      rewrite Hb, Hr, Hp; cbn [forwarded app]; rewrite !app_nil_r; reflexivity.
  - unfold attachToSession in Hrun. rewrite Hs, Hended, Hraw in Hrun.
    injection Hrun as <-. exists [].
    cbn [log emit attachReplay]. rewrite !forwarded_app.
    rewrite !forwarded_app in Hquiet.
    apply app_eq_nil in Hquiet as [Hb Hquiet].
    apply app_eq_nil in Hquiet as [Hr Hp].
    rewrite Hb, Hr, Hp. cbn [forwarded app]. rewrite !app_nil_r.
    split; reflexivity.
Qed.

Lemma attach_never_forwards_sentinel_witness :
  let s := newSession 1 (Host.Build_SSHHost "web" "" "" "" []) 3%nat 100%nat in
  let w := {| heap := [s]; sessions := [0%nat]; nextID := 2;
              monitors := [0%nat]; rawMode := false; log := [] |} in
  let env := {| sizeAtAttach := None; makeRawResult := RawOk; restoreOk := true;
                schedule := [StdinIter (ReadOk [x6c; x73]) WriteOk;
                             StdinIter (ReadOk [x0a; x00; x71]) WriteOk] |} in
  (fun w' => hasSentinel (forwarded (log w'))) <$> attachToSession 0%nat env w =
    Some false.
Proof.
  cbn zeta.
  match goal with
  | |- _ <$> ?r = _ => destruct r as [w'|] eqn:Hrun;
                       [|vm_compute in Hrun; discriminate]
  end.
  destruct (attach_never_forwards_sentinel _ _ _ _ Hrun) as (sent & Hlog & Hclean).
  cbn. rewrite Hlog, hasSentinel_app, Hclean. reflexivity.
Defined.




(** ** The registry along a run *)

Lemma attachToSession_keeps (a : nat) (env : AttachEnv) (w w' : World)
  (s : Session) :
  attachToSession a env w = Some w' ->
  heap w !! a = Some s ->
  sessions w' = sessions w /\
  nextID w' = nextID w /\
  length (heap w') = length (heap w) /\
  (forall b, b <> a -> heap w' !! b = heap w !! b) /\
  exists s',
    heap w' !! a = Some s' /\ sameButScrollback s s' /\
    (len (Scrollback s) <= MaxScrollbackSize ->
     len (Scrollback s') <= MaxScrollbackSize).
Proof.
  intros Hrun Hs.
  destruct (sessionEnded s) eqn:Hended.
  { unfold attachToSession in Hrun. rewrite Hs, Hended in Hrun.
    injection Hrun as <-.
    do 4 (split; [reflexivity|]).
    exists s. split; [assumption|]. split; [apply sameButScrollback_refl | auto]. }
  destruct (makeRawResult env) as [|msg] eqn:Hraw.
  - destruct (attachToSession_proxy _ _ _ _ _ Hrun Hs Hended Hraw)
      as (w5 & Hio & ->).
    destruct (runAttached_frame _ _ _ _ s Hio)
      as (Hse & Hid & _ & _ & Hle & Hot & Hat & _); [assumption|].
    destruct (Hat s) as (s' & Hs' & Hsame); [assumption|].
    assert (len (Scrollback s) <= MaxScrollbackSize ->
            len (Scrollback s') <= MaxScrollbackSize) as Hbound.
    { intros Hlen.
      destruct (runAttached_scrollback _ _ _ _ s Hio) as (s'' & Hs'' & Hsb);
        [assumption | assumption |].
      assert (s'' = s') as -> by congruence.
      rewrite Hsb, keepLast_len by apply MaxScrollbackSize_nonneg. lia. }
    unfold restore.
    destruct (restoreOk env);
      cbn [sessions nextID monitors heap emit setRawMode attachReplay] in *;
      (repeat (split; [assumption|]); exists s'; auto).
  - unfold attachToSession in Hrun. rewrite Hs, Hended, Hraw in Hrun.
    injection Hrun as <-.
    do 4 (split; [reflexivity|]).
    exists s. split; [assumption|]. split; [apply sameButScrollback_refl | auto].
Qed.

Lemma registryInv_same (w w' : World) :
  sessions w' = sessions w -> nextID w' = nextID w -> heap w' = heap w ->
  registryInv w -> registryInv w'.
Proof.
  unfold registryInv. intros -> -> ->. auto.
Qed.

Lemma registryInv_attach (a : nat) (env : AttachEnv) (w w' : World) :
  attachToSession a env w = Some w' -> registryInv w -> registryInv w'.
Proof.
  intros Hrun (Hnext & Hobj & Hord & Hbnd).
  destruct (heap w !! a) as [s|] eqn:Hs;
    [|unfold attachToSession in Hrun; rewrite Hs in Hrun; discriminate].
  destruct (attachToSession_keeps _ _ _ _ _ Hrun Hs)
    as (Hse & Hid & Hle & Hot & s' & Hs' & Hsame & Hsb).
  unfold registryInv. rewrite Hse, Hid, Hle. unfold len in *. rewrite Hle.
  split; [assumption|]. split; [|split; assumption].
  intros b t Ht.
  destruct (decide (b = a)) as [->|Hne].
  - assert (t = s') as -> by congruence.
    destruct (Hobj a s Hs) as [Hida Hlen].
    split; [rewrite Hsame; exact Hida | auto].
  - rewrite Hot in Ht by assumption. auto.
Qed.

Lemma registryInv_register (host : Host.SSHHost) (ptmx : OsFile)
  (proc : OsProcess) (w : World) :
  registryInv w -> registryInv (snd (registerSession host ptmx proc w)).
Proof.
  intros (Hnext & Hobj & Hord & Hbnd).
  unfold registryInv, registerSession.
  cbn [snd heap sessions nextID]. unfold len in *. rewrite length_app.
  cbn [length].
  split; [lia|]. split; [|split].
  - intros b t Ht.
    destruct (decide (b < length (heap w))%nat) as [Hlt|Hge].
    + rewrite lookup_app_l in Ht by assumption. auto.
    + rewrite lookup_app_r in Ht by lia.
      destruct (b - length (heap w))%nat as [|k] eqn:Hk; [|discriminate].
      injection Ht as <-. cbn [ID Scrollback newSession length].
      unfold MaxScrollbackSize. split; lia.
  - intros i j x y Hij Hx Hy.
    destruct (decide (j < length (sessions w))%nat) as [Hlt|Hge].
    + rewrite lookup_app_l in Hx by lia. rewrite lookup_app_l in Hy by lia.
      eauto.
    + rewrite lookup_app_r in Hy by lia.
      destruct (j - length (sessions w))%nat as [|k] eqn:Hk; [|discriminate].
      injection Hy as <-.
      rewrite lookup_app_l in Hx by lia.
      apply list_elem_of_lookup_2 in Hx.
      exact (proj1 (Forall_forall _ _) Hbnd x Hx).
  - apply Forall_app. split.
    + eapply Forall_impl; [exact Hbnd|]. cbn. intros; lia.
    + apply Forall_singleton. lia.
Qed.

Lemma closeActiveFrom_removes (n : nat) (w w' : World) :
  closeActiveFrom n w = Some w' ->
  w' = w \/
  exists i a s,
    (i < n)%nat /\ sessions w !! i = Some a /\ heap w !! a = Some s /\
    Active s = true /\ w' = closeAt i s w.
Proof.
  induction n as [|i IH]; cbn [closeActiveFrom]; intros Hrun.
  - left. congruence.
  - destruct (sessions w !! i) as [a|] eqn:Ha; [|discriminate].
    destruct (heap w !! a) as [s|] eqn:Hs; [|discriminate].
    destruct (Active s) eqn:Hact.
    + right. exists i, a, s. injection Hrun as <-. repeat split; auto.
    + destruct (IH Hrun) as [->|(j & b & t & Hj & Hb & Ht & Hon & ->)];
        [left; reflexivity|].
      right. exists j, b, t. repeat split; auto.
Qed.

Lemma registryInv_closeAt (i a : nat) (s : Session) (w : World) :
  sessions w !! i = Some a -> registryInv w -> registryInv (closeAt i s w).
Proof.
  intros Ha (Hnext & Hobj & Hord & Hbnd).
  pose proof (lookup_lt_Some _ _ _ Ha) as Hi.
  unfold registryInv, closeAt. cbn [heap sessions nextID emit setSessions].
  split; [assumption|]. split; [assumption|]. split.
  - intros j k x y Hjk Hx Hy.
    destruct (decide (k < i)%nat) as [Hki|Hki].
    + rewrite removeAt_lookup_lt in Hx by lia.
      rewrite removeAt_lookup_lt in Hy by lia. eauto.
    + rewrite removeAt_lookup_ge in Hy by lia.
      destruct (decide (j < i)%nat) as [Hji|Hji].
      * rewrite removeAt_lookup_lt in Hx by lia.
        apply (Hord j (S k)); [lia | assumption | assumption].
      * rewrite removeAt_lookup_ge in Hx by lia.
        apply (Hord (S j) (S k)); [lia | assumption | assumption].
  - apply Forall_forall. intros x Hx.
    apply (proj1 (Forall_forall _ _) Hbnd).
    unfold removeAt in Hx. apply elem_of_app in Hx as [Hx|Hx].
    + apply list_elem_of_lookup in Hx as (k & Hk).
      pose proof (lookup_lt_Some _ _ _ Hk) as Hlt. rewrite length_take in Hlt.
      rewrite lookup_take_lt in Hk by lia.
      eapply list_elem_of_lookup_2. exact Hk.
    + apply list_elem_of_lookup in Hx as (k & Hk).
      rewrite lookup_drop in Hk.
      eapply list_elem_of_lookup_2. exact Hk.
Qed.

Lemma closeAllFrom_emits (l : list nat) :
  forall w w', closeAllFrom l w = Some w' -> exists evs, w' = emit evs w.
Proof.
  induction l as [|a l IH]; cbn [closeAllFrom]; intros w w' Hrun.
  - injection Hrun as <-. exists []. unfold emit. rewrite app_nil_r.
    destruct w; reflexivity.
  - destruct (heap w !! a) as [s|]; [|discriminate].
    destruct (IH _ _ Hrun) as (evs & ->).
    exists (closeEffects s ++ evs). unfold emit. cbn [log heap sessions nextID monitors rawMode].
    rewrite app_assoc. reflexivity.
Qed.

Lemma executeMultiHost_emits (TrimSpace : string -> string)
  (hosts : list Host.SSHHost) (env : MultiEnv) (w w' : World) :
  executeMultiHost TrimSpace hosts env w = Some w' ->
  exists evs, w' = emit evs w.
Proof.
  unfold executeMultiHost, executeMultiHostLive, executeMultiHostCollected.
  intros Hrun.
  destruct (len hosts =? 0); [injection Hrun as <-; eauto|].
  destruct (String.eqb _ ""); [injection Hrun as <-; eauto|].
  destruct (String.eqb _ "1").
  - destruct (foldl _ _ _) as [wg evs].
    destruct (wg =? 0); [|discriminate].
    injection Hrun as <-. eexists. unfold emit.
    cbn [log heap sessions nextID monitors rawMode].
    rewrite <- !app_assoc. reflexivity.
  - destruct (collectPhase _ _ _ _) as [[results wg] evs].
    destruct (wg =? 0); [|discriminate].
    injection Hrun as <-. eexists. unfold emit.
    cbn [log heap sessions nextID monitors rawMode].
    rewrite <- !app_assoc. reflexivity.
Qed.

Lemma step_registryInv (TrimSpace : string -> string) (op : Op) (w w' : World) :
  step TrimSpace op w = Some w' -> registryInv w -> registryInv w'.
Proof.
  destruct op as [host att env|num env| | |hosts env|a st]; cbn [step];
    intros Hrun Hinv.
  - unfold createSession in Hrun.
    destruct (withinTimeout att).
    + destruct (result att) as [ptmx proc|msg].
      * eapply registryInv_attach; [exact Hrun|].
        apply (registryInv_register host ptmx proc
                 (emit [EPrintf "\nConnecting to %s...\n" [AStr (Host.Alias host)];
                        EStart (buildSSHArgs host)] w)).
        eapply registryInv_same; [| | |exact Hinv]; reflexivity.
      * injection Hrun as <-.
        eapply registryInv_same; [| | |exact Hinv]; reflexivity.
    + injection Hrun as <-.
      eapply registryInv_same; [| | |exact Hinv]; reflexivity.
  - unfold resumeSession in Hrun.
    destruct ((0 <? num) && (num <=? len (sessions w))).
    + destruct (sessions w !! Z.to_nat (num - 1)); [|discriminate].
      eapply registryInv_attach; eassumption.
    + injection Hrun as <-.
      eapply registryInv_same; [| | |exact Hinv]; reflexivity.
  - destruct (closeActiveFrom_removes _ _ _ Hrun)
      as [->|(i & b & s & _ & Hb & _ & _ & ->)]; [assumption|].
    apply registryInv_closeAt with b; assumption.
  - destruct (closeAllFrom_emits _ _ _ Hrun) as (evs & ->).
    eapply registryInv_same; [| | |exact Hinv]; reflexivity.
  - destruct (executeMultiHost_emits _ _ _ _ _ Hrun) as (evs & ->).
    eapply registryInv_same; [| | |exact Hinv]; reflexivity.
  - unfold monitorExit in Hrun.
    destruct (decide (a ∈ monitors w)); [|discriminate].
    destruct (heap w !! a) as [s|] eqn:Hs; [|discriminate].
    injection Hrun as <-.
    destruct Hinv as (Hnext & Hobj & Hord & Hbnd).
    unfold registryInv.
    cbn [heap sessions nextID emit setHeap setMonitors].
    unfold len in *. rewrite length_insert.
    split; [assumption|]. split; [|split; assumption].
    intros b t Ht.
    destruct (decide (b = a)) as [->|Hne].
    + rewrite list_lookup_insert_eq in Ht by (eapply lookup_lt_Some; exact Hs).
      injection Ht as <-. apply (Hobj a s Hs).
    + rewrite list_lookup_insert_ne in Ht by congruence. auto.
Qed.

Lemma run_registryInv (TrimSpace : string -> string) (ops : list Op) :
  forall w w',
    run TrimSpace ops w = Some w' -> registryInv w -> registryInv w'.
Proof.
  induction ops as [|op ops IH]; cbn [run]; intros w w' Hrun Hinv.
  - congruence.
  - destruct (step TrimSpace op w) as [w1|] eqn:Hstep; [|discriminate].
    eapply IH; [exact Hrun|]. eapply step_registryInv; eassumption.
Qed.

Lemma initialWorld_registryInv : registryInv initialWorld.
Proof.
  unfold registryInv, initialWorld. cbn.
  split; [reflexivity|]. split; [intros a s H; discriminate|].
  split; [intros i j a b _ H; discriminate | constructor].
Qed.

Lemma registryInv_valid (w : World) : registryInv w -> registryValid w.
Proof.
  intros (_ & _ & _ & Hbnd). unfold registryValid.
  eapply Forall_impl; [exact Hbnd|]. cbn. intros a Ha.
  apply lookup_lt_is_Some_2. assumption.
Qed.

(** X6. Session IDs follow creation. In every state the program reaches from
    its start, whatever was created, resumed, closed or run in between:
    [nextID] is one more than the number of sessions ever registered; each
    entry of [sessions] leads to a Session object whose ID is the rank of
    its creation, between 1 and [nextID - 1]; and the entries are in the
    order of creation, so that no two of them carry the same ID, although
    the numbers of the menu are reused. *)
Theorem session_ids_follow_creation (TrimSpace : string -> string)
  (ops : list Op) (w : World) :
  run TrimSpace ops initialWorld = Some w ->
  nextID w = len (heap w) + 1 /\
  (forall i a, sessions w !! i = Some a ->
     exists s, heap w !! a = Some s /\ ID s = Z.of_nat a + 1 /\
               1 <= ID s < nextID w) /\
  (forall i j a b s t,
     (i < j)%nat ->
     sessions w !! i = Some a -> sessions w !! j = Some b ->
     heap w !! a = Some s -> heap w !! b = Some t ->
     ID s < ID t).
Proof.
  intros Hrun.
  destruct (run_registryInv _ _ _ _ Hrun initialWorld_registryInv)
    as (Hnext & Hobj & Hord & Hbnd).
  split; [assumption|]. split.
  - intros i a Ha.
    assert (a < length (heap w))%nat as Hlt.
    { apply (proj1 (Forall_forall _ _) Hbnd).
      eapply list_elem_of_lookup_2. exact Ha. }
    destruct (lookup_lt_is_Some_2 _ _ Hlt) as [s Hs].
    exists s. split; [assumption|].
    destruct (Hobj a s Hs) as [Hid _].
    split; [assumption|]. rewrite Hid, Hnext. unfold len. lia.
  - intros i j a b s t Hij Ha Hb Hs Ht.
    destruct (Hobj a s Hs) as [-> _]. destruct (Hobj b t Ht) as [-> _].
    pose proof (Hord i j a b Hij Ha Hb). lia.
Qed.

Lemma session_ids_follow_creation_witness :
  let web := Host.Build_SSHHost "web" "" "" "" [] in
  let db := Host.Build_SSHHost "db" "" "" "" [] in
  let att := {| latency := 20000000; result := StartOk 3%nat 100%nat;
                processAtDeadline := None |} in
  let detach := {| sizeAtAttach := None; makeRawResult := RawOk;
                   restoreOk := true;
                   schedule := [StdinIter (ReadOk [x00]) WriteOk] |} in
  let ops := [OpCreate web att detach; OpCreate db att detach; OpCloseActive;
              OpCreate db att detach] in
  match run asciiTrimSpace ops initialWorld with
  | Some w => nextID w = 4 /\ sessions w = [0; 2]%nat
  | None => False
  end.
Proof.
  cbn zeta.
  match goal with
  | |- match ?r with _ => _ end =>
      destruct r as [w|] eqn:Hrun; [|vm_compute in Hrun; discriminate]
  end.
  destruct (session_ids_follow_creation _ _ _ Hrun) as (Hnext & _ & _).
  split.
  - rewrite Hnext. vm_compute in Hrun. injection Hrun as <-. reflexivity.
  - vm_compute in Hrun. injection Hrun as <-. reflexivity.
Defined.

(** X7. The scrollback ceiling holds for every session of every reachable
    state: no sequence of operations, attaches and captures makes a
    scrollback longer than [MaxScrollbackSize]. *)
Theorem scrollback_always_bounded (TrimSpace : string -> string)
  (ops : list Op) (w : World) (a : nat) (s : Session) :
  run TrimSpace ops initialWorld = Some w ->
  heap w !! a = Some s ->
  len (Scrollback s) <= MaxScrollbackSize.
Proof.
  intros Hrun Hs.
  destruct (run_registryInv _ _ _ _ Hrun initialWorld_registryInv)
    as (_ & Hobj & _).
  apply (Hobj a s Hs).
Qed.

Lemma scrollback_always_bounded_witness :
  let web := Host.Build_SSHHost "web" "" "" "" [] in
  let att := {| latency := 20000000; result := StartOk 3%nat 100%nat;
                processAtDeadline := None |} in
  let env := {| sizeAtAttach := None; makeRawResult := RawOk;
                restoreOk := true;
                schedule := [PtyIter (ReadOk [x68; x69]);
                             StdinIter (ReadOk [x00]) WriteOk] |} in
  let ops := [OpCreate web att env; OpResume 1 env] in
  match run asciiTrimSpace ops initialWorld with
  | Some w =>
      match heap w !! 0%nat with
      | Some s => Scrollback s = [x68; x69; x68; x69] /\
                  len (Scrollback s) <= MaxScrollbackSize
      | None => False
      end
  | None => False
  end.
Proof.
  cbn zeta.
  match goal with
  | |- match ?r with _ => _ end =>
      destruct r as [w|] eqn:Hrun; [|vm_compute in Hrun; discriminate]
  end.
  destruct (heap w !! 0%nat) as [s|] eqn:Hs.
  - split.
    + vm_compute in Hrun. injection Hrun as <-. vm_compute in Hs.
      injection Hs as <-. reflexivity.
    + exact (scrollback_always_bounded _ _ _ _ _ Hrun Hs).
  - vm_compute in Hrun. injection Hrun as <-. vm_compute in Hs. discriminate.
Defined.


Lemma closeAllFrom_log (l : list nat) :
  forall w,
    Forall (fun a => is_Some (heap w !! a)) l ->
    closeAllFrom l w =
      Some (emit (flat_map closeEffects (omap (fun a => heap w !! a) l)) w).
Proof.
  induction l as [|a l IH]; intros w Hall; cbn [closeAllFrom omap list_omap].
  - cbn. unfold emit. rewrite app_nil_r. destruct w; reflexivity.
  - apply Forall_cons in Hall as [[s Hs] Hrest].
    change (omap (fun a => heap w !! a) (a :: l))
      with (match heap w !! a with
            | Some y => y :: omap (fun a => heap w !! a) l
            | None => omap (fun a => heap w !! a) l
            end).
    rewrite Hs. rewrite (IH (emit (closeEffects s) w)) by exact Hrest.
    cbn [flat_map heap emit log sessions nextID monitors rawMode].
    unfold emit. cbn [heap log sessions nextID monitors rawMode].
    rewrite <- app_assoc. reflexivity.
Qed.




Lemma removeAt_keeps {A} (i : nat) (x y : A) (l : list A) :
  x ∈ l -> l !! i = Some y -> x <> y -> x ∈ removeAt i l.
Proof.
  intros Hx Hy Hne. unfold removeAt.
  rewrite <- (take_drop_middle l i y Hy) in Hx.
  apply elem_of_app in Hx as [Hx|Hx]; apply elem_of_app; [left; assumption|].
  apply elem_of_cons in Hx as [Hx|Hx]; [contradiction | right; assumption].
Qed.

Lemma attachToSession_sessions (a : nat) (env : AttachEnv) (w w' : World) :
  attachToSession a env w = Some w' -> sessions w' = sessions w.
Proof.
  intros Hrun.
  destruct (heap w !! a) as [s|] eqn:Hs;
    [|unfold attachToSession in Hrun; rewrite Hs in Hrun; discriminate].
  apply (attachToSession_keeps _ _ _ _ _ Hrun Hs).
Qed.

Lemma step_keeps_ended (TrimSpace : string -> string) (op : Op) (w w' : World)
  (a : nat) (s : Session) :
  step TrimSpace op w = Some w' ->
  a ∈ sessions w -> heap w !! a = Some s -> Active s = false ->
  a ∈ sessions w'.
Proof.
  destruct op as [host att env|num env| | |hosts env|b st]; cbn [step];
    intros Hrun Hin Hs Hoff.
  - unfold createSession in Hrun.
    destruct (withinTimeout att).
    + destruct (result att) as [ptmx proc|msg].
      * cbn [registerSession] in Hrun.
        rewrite (attachToSession_sessions _ _ _ _ Hrun). cbn [sessions emit].
        apply elem_of_app. left. assumption.
      * injection Hrun as <-. assumption.
    + injection Hrun as <-. assumption.
  - unfold resumeSession in Hrun.
    destruct ((0 <? num) && (num <=? len (sessions w))).
    + destruct (sessions w !! Z.to_nat (num - 1)); [|discriminate].
      rewrite (attachToSession_sessions _ _ _ _ Hrun). assumption.
    + injection Hrun as <-. assumption.
  - destruct (closeActiveFrom_removes _ _ _ Hrun)
      as [->|(i & b & t & _ & Hb & Ht & Hon & ->)]; [assumption|].
    unfold closeAt. cbn [sessions setSessions emit].
    apply removeAt_keeps with b; [assumption | assumption|].
    intros ->. congruence.
  - destruct (closeAllFrom_emits _ _ _ Hrun) as (evs & ->). assumption.
  - destruct (executeMultiHost_emits _ _ _ _ _ Hrun) as (evs & ->). assumption.
  - unfold monitorExit in Hrun.
    destruct (decide (b ∈ monitors w)); [|discriminate].
    destruct (heap w !! b); [|discriminate].
    injection Hrun as <-. assumption.
Qed.

(** X9. A session that has ended stays on the menu. Once the monitor of a
    registered session has cleared [Active], no sequence of operations
    takes the session out of [sessions]: [closeActiveSession] passes over
    it, [closeAllSessions] does not shorten the slice, and nothing sets
    [Active] again. *)
Theorem ended_session_never_removed (TrimSpace : string -> string)
  (ops : list Op) :
  forall (w w' : World) (a : nat),
    run TrimSpace ops w = Some w' ->
    a ∈ sessions w -> inactive w a ->
    a ∈ sessions w' /\ inactive w' a.
Proof.
  induction ops as [|op ops IH]; cbn [run]; intros w w' a Hrun Hin Hoff.
  - injection Hrun as <-. auto.
  - destruct (step TrimSpace op w) as [w1|] eqn:Hstep; [|discriminate].
    destruct Hoff as (s & Hs & Hact).
    apply (IH w1 w' a Hrun).
    + eapply step_keeps_ended; eassumption.
    + destruct (step_Active _ _ _ _ _ _ Hstep Hs) as (s1 & Hs1 & Hmono & _).
      exists s1. auto.
Qed.

Lemma ended_session_never_removed_witness :
  let web := Host.Build_SSHHost "web" "" "" "" [] in
  let ended := {| ID := 1; Alias := "web";
                  Cmd := {| Process := Some 100%nat;
                            ProcessState := Some {| Exited := true |} |};
                  PTY := Some 3%nat; Active := false; Scrollback := [] |} in
  let w := {| heap := [ended]; sessions := [0%nat]; nextID := 2;
              monitors := []; rawMode := false; log := [] |} in
  let att := {| latency := 20000000; result := StartOk 4%nat 101%nat;
                processAtDeadline := None |} in
  let detach := {| sizeAtAttach := None; makeRawResult := RawOk;
                   restoreOk := true;
                   schedule := [StdinIter (ReadOk [x00]) WriteOk] |} in
  let ops := [OpCloseActive; OpCreate web att detach; OpCloseActive;
              OpCloseActive; OpCloseAll] in
  match run asciiTrimSpace ops w with
  | Some w' => 0%nat ∈ sessions w'
  | None => False
  end.
Proof.
  cbn zeta.
  match goal with
  | |- match ?r with _ => _ end =>
      destruct r as [w'|] eqn:Hrun; [|vm_compute in Hrun; discriminate]
  end.
  refine (proj1 (ended_session_never_removed _ _ _ _ 0%nat Hrun _ _)).
  - cbn. apply list_elem_of_singleton. reflexivity.
  - eexists. split; reflexivity.
Defined.

(** X10. Closing all sessions goes through the registry in order and, for each
    entry, closes its pty and kills and reaps its process, whether or not
    the session had already ended; it removes nothing, so the registry
    still lists every session afterwards. *)
Theorem closeAll_closes_every_session (w : World) :
  registryValid w ->
  length (registered w) = length (sessions w) /\
  closeAllSessions w = Some (emit (flat_map closeEffects (registered w)) w) /\
  (forall w', closeAllSessions w = Some w' ->
     sessions w' = sessions w /\ heap w' = heap w /\ registered w' = registered w).
Proof.
  intros Hvalid. split; [|split].
  - unfold registered, registryValid in *.
    induction (sessions w) as [|a l IH]; [reflexivity|].
    apply Forall_cons in Hvalid as [[s Hs] Hrest].
    change (omap (fun a => heap w !! a) (a :: l))
      with (match heap w !! a with
            | Some y => y :: omap (fun a => heap w !! a) l
            | None => omap (fun a => heap w !! a) l
            end).
    rewrite Hs. cbn [length]. rewrite (IH Hrest). reflexivity.
  - unfold closeAllSessions, registered. apply closeAllFrom_log. assumption.
  - intros w' Hrun. unfold closeAllSessions in Hrun.
    rewrite closeAllFrom_log in Hrun by assumption.
    injection Hrun as <-. repeat split.
Qed.

Lemma closeAll_closes_every_session_witness :
  let s0 := newSession 1 (Host.Build_SSHHost "web" "" "" "" []) 3%nat 100%nat in
  let s1 := markExited {| Exited := true |}
              (newSession 2 (Host.Build_SSHHost "db" "" "" "" []) 4%nat 101%nat) in
  let w := {| heap := [s0; s1]; sessions := [0; 1]%nat; nextID := 3;
              monitors := [0%nat]; rawMode := false; log := [] |} in
  registryValid w /\
  log <$> closeAllSessions w =
    Some [EClose 3%nat; EKill 100%nat; EWait (Some 100%nat);
          EClose 4%nat; EKill 101%nat; EWait (Some 101%nat)].
Proof.
  cbn zeta.
  assert (registryValid
            {| heap := [newSession 1 (Host.Build_SSHHost "web" "" "" "" [])
                          3%nat 100%nat;
                        markExited {| Exited := true |}
                          (newSession 2 (Host.Build_SSHHost "db" "" "" "" [])
                             4%nat 101%nat)];
               sessions := [0; 1]%nat; nextID := 3; monitors := [0%nat];
               rawMode := false; log := [] |}) as Hvalid.
  { unfold registryValid. cbn. repeat constructor; eexists; reflexivity. }
  split; [exact Hvalid|].
  destruct (closeAll_closes_every_session _ Hvalid) as (_ & -> & _).
  reflexivity.
Defined.

(** X11. What creating a session registers. A [createSession] that returns has
    registered a session exactly when [pty.Start] delivered a pty within the
    timeout. Then the new Session object has [nextID] as its ID, the alias
    of the host and [Active] set; it is the last entry of [sessions], so the
    number after the last one of the menu resumes it; [nextID] has advanced
    by one and one monitor has been started. Otherwise sessions, Session
    objects, [nextID] and monitors are as before. *)
Theorem createSession_registers_iff_started (host : Host.SSHHost)
  (att : StartAttempt) (env : AttachEnv) (w w' : World) :
  createSession host att env w = Some w' ->
  (withinTimeout att = true /\
   (exists ptmx proc s',
      result att = StartOk ptmx proc /\
      heap w' !! length (heap w) = Some s' /\
      ID s' = nextID w /\ Alias s' = Host.Alias host /\
      PTY s' = Some ptmx /\ Active s' = true) /\
   sessions w' = sessions w ++ [length (heap w)] /\
   sessionAt (len (sessions w) + 1) w' = Some (length (heap w)) /\
   nextID w' = nextID w + 1 /\
   monitors w' = monitors w ++ [length (heap w)] /\
   (forall b, (b < length (heap w))%nat -> heap w' !! b = heap w !! b)) \/
  ((withinTimeout att = false \/ exists msg, result att = StartErr msg) /\
   sessions w' = sessions w /\ heap w' = heap w /\
   nextID w' = nextID w /\ monitors w' = monitors w).
Proof.
  unfold createSession. intros Hrun.
  destruct (withinTimeout att).
  - destruct (result att) as [ptmx proc|msg].
    + left. cbn [registerSession] in Hrun.
      match type of Hrun with
      | attachToSession _ _ ?w2 = _ =>
          assert (heap w2 !! length (heap w) =
                  Some (newSession (nextID w) host ptmx proc)) as Hnew
            by (cbn [heap emit]; apply list_lookup_middle; reflexivity);
          destruct (attachToSession_keeps _ _ _ _ _ Hrun Hnew)
            as (Hse & Hid & Hle & Hot & s' & Hs' & Hsame & _);
          pose proof (attachToSession_stable _ _ _ _ Hrun) as (Hmo & _)
      end.
      cbn [sessions nextID heap monitors emit] in Hse, Hid, Hot, Hmo.
      split; [reflexivity|]. split; [|split; [|split; [|split; [|split]]]].
      * exists ptmx, proc, s'. split; [reflexivity|]. split; [assumption|].
        rewrite Hsame. repeat split.
      * assumption.
      * unfold sessionAt. rewrite Hse. unfold len. rewrite length_app.
        cbn [length].
        replace ((0 <? Z.of_nat (length (sessions w)) + 1) &&
                 (Z.of_nat (length (sessions w)) + 1 <=?
                  Z.of_nat (length (sessions w) + 1)))
          with true by (symmetry; apply andb_true_intro; split;
                        [apply Z.ltb_lt | apply Z.leb_le]; lia).
        replace (Z.to_nat (Z.of_nat (length (sessions w)) + 1 - 1))
          with (length (sessions w)) by lia.
        apply list_lookup_middle. reflexivity.
      * assumption.
      * assumption.
      * intros b Hb. rewrite Hot by lia. apply lookup_app_l. assumption.
    + right. injection Hrun as <-. split; [right; eauto|]. repeat split.
  - right. injection Hrun as <-. split; [left; reflexivity|]. repeat split.
Qed.

Lemma createSession_registers_iff_started_witness :
  let web := Host.Build_SSHHost "web" "" "" "" [] in
  let db := Host.Build_SSHHost "db" "" "" "" [] in
  let s0 := newSession 1 web 3%nat 100%nat in
  let w := {| heap := [s0]; sessions := [0%nat]; nextID := 2;
              monitors := [0%nat]; rawMode := false; log := [] |} in
  let att := {| latency := 3000000000; result := StartOk 4%nat 101%nat;
                processAtDeadline := None |} in
  let detach := {| sizeAtAttach := None; makeRawResult := RawOk;
                   restoreOk := true;
                   schedule := [StdinIter (ReadOk [x00]) WriteOk] |} in
  match createSession db att detach w with
  | Some w' => sessionAt 2 w' = Some 1%nat /\ nextID w' = 3
  | None => False
  end.
Proof.
  cbn zeta.
  match goal with
  | |- match ?r with _ => _ end =>
      destruct r as [w'|] eqn:Hrun; [|vm_compute in Hrun; discriminate]
  end.
  destruct (createSession_registers_iff_started _ _ _ _ _ Hrun)
    as [(_ & _ & _ & Hat & Hnext & _)|([Hlate|(msg & Hmsg)] & _)].
  - split; [exact Hat | exact Hnext].
  - discriminate.
  - discriminate.
Defined.

(** ** The multi-host executor as a whole *)









Lemma live_fold_counter (hosts : list Host.SSHHost) (command : string)
  (runs : list HostRun) (order : list nat) :
  length runs = length hosts ->
  forall st,
    Forall (fun i => (i < length hosts)%nat) order ->
    fst (foldl (finishLive hosts command runs) st order) = fst st - len order.
Proof.
  intros Hlen. induction order as [|idx order IH]; intros st Hidx.
  - cbn [foldl]. unfold len. cbn [length]. lia.
  - apply Forall_cons in Hidx as [Hlt Hrest].
    cbn [foldl]. rewrite IH by assumption.
    unfold finishLive.
    destruct (lookup_lt_is_Some_2 hosts idx Hlt) as [h ->].
    destruct (lookup_lt_is_Some_2 runs idx) as [run ->]; [lia|].
    cbn [fst]. unfold len. cbn [length]. lia.
Qed.

Lemma all_finished_iff (n : nat) (order : list nat) :
  NoDup order ->
  Forall (fun i => (i < n)%nat) order ->
  (Z.of_nat n - len order = 0 <-> forall i, (i < n)%nat -> i ∈ order).
Proof.
  intros Hnodup Hidx.
  assert (order ⊆+ seq 0 n) as Hsub.
  { apply NoDup_submseteq; [assumption|].
    intros x Hx. apply elem_of_seq.
    pose proof (proj1 (Forall_forall _ _) Hidx x Hx) as Hlt. cbn beta in Hlt.
    lia. }
  pose proof (submseteq_length _ _ Hsub) as Hle. rewrite length_seq in Hle.
  unfold len. split.
  - intros Hzero i Hi.
    assert (order ≡ₚ seq 0 n) as Hperm.
    { apply submseteq_length_Permutation; [assumption|].
      rewrite length_seq. lia. }
    rewrite Hperm. apply elem_of_seq. lia.
  - intros Hall.
    assert (seq 0 n ⊆+ order) as Hsup.
    { apply NoDup_submseteq; [apply NoDup_seq|].
      intros x Hx. apply elem_of_seq in Hx. apply Hall. lia. }
    apply submseteq_length in Hsup. rewrite length_seq in Hsup. lia.
Qed.

(** X13. The executor waits for every host. With one goroutine per host, each
    finishing at most once, a multi-host run in either mode gets past
    [wg.Wait()] and returns exactly when the goroutine of every selected
    host has finished: a single host that hangs holds back the whole run,
    and the report of the collected mode with it. *)
Theorem multi_host_waits_for_every_host (hosts : list Host.SSHHost)
  (command : string) (runs : list HostRun) (order : list nat) (w : World) :
  length runs = length hosts ->
  NoDup order ->
  Forall (fun i => (i < length hosts)%nat) order ->
  (is_Some (executeMultiHostLive hosts command runs order w) <->
   forall i, (i < length hosts)%nat -> i ∈ order) /\
  (is_Some (executeMultiHostCollected hosts command runs order w) <->
   forall i, (i < length hosts)%nat -> i ∈ order).
Proof.
  intros Hlen Hnodup Hidx.
  pose proof (all_finished_iff (length hosts) order Hnodup Hidx) as Hiff.
  split.
  - unfold executeMultiHostLive.
    pose proof (live_fold_counter hosts command runs order Hlen
                  (len hosts, liveBanner command) Hidx) as Hwg.
    destruct (foldl _ _ _) as [wg evs]. cbn [fst] in Hwg. subst wg.
    unfold len at 1. unfold len at 1 in Hiff.
    destruct (Z.eqb_spec (Z.of_nat (length hosts) - len order) 0) as [Hz|Hnz].
    + split; [intros _; apply Hiff; assumption | eauto].
    + split; [intros [? H]; discriminate|].
      intros Hall. apply Hiff in Hall. contradiction.
  - unfold executeMultiHostCollected, collectPhase.
    destruct (collect_fold hosts command runs Hlen order
                (replicate (length hosts) HostResult.zero) (len hosts)
                collectedBanner Hidx)
      as (results' & -> & _); [apply length_replicate|].
    unfold len at 1. unfold len at 1 in Hiff.
    destruct (Z.eqb_spec (Z.of_nat (length hosts) - len order) 0) as [Hz|Hnz].
    + split; [intros _; apply Hiff; assumption | eauto].
    + split; [intros [? H]; discriminate|].
      intros Hall. apply Hiff in Hall. contradiction.
Qed.

Lemma multi_host_waits_for_every_host_witness :
  let web := Host.Build_SSHHost "web" "" "" "" [] in
  let db := Host.Build_SSHHost "db" "" "" "" [] in
  let runs := [Ran 7%nat 200%nat "up 3 days"; Ran 8%nat 201%nat "up 1 day"] in
  length runs = length [web; db] /\
  NoDup [1%nat] /\
  Forall (fun i => (i < length [web; db])%nat) [1%nat] /\
  executeMultiHostCollected [web; db] "uptime" runs [1%nat] initialWorld = None.
Proof.
  intros web db runs.
  assert (NoDup [1%nat]) as Hnodup by (apply NoDup_singleton).
  assert (Forall (fun i => (i < length [web; db])%nat) [1%nat]) as Hidx
    by (apply Forall_singleton; cbn; lia).
  split; [reflexivity|]. split; [exact Hnodup|]. split; [exact Hidx|].
  destruct (multi_host_waits_for_every_host [web; db] "uptime" runs [1%nat]
              initialWorld eq_refl Hnodup Hidx) as [_ [Hall _]].
  destruct (executeMultiHostCollected [web; db] "uptime" runs [1%nat]
              initialWorld) as [w'|]; [|reflexivity].
  exfalso.
  assert (0%nat ∈ [1%nat]) as Hin
    by (apply Hall; [eexists; reflexivity | cbn; lia]).
  apply list_elem_of_singleton in Hin. discriminate.
Defined.

(** ** The ssh configuration *)

Lemma forwardArgs_known (f : Host.PortForward) :
  knownForward f -> length (forwardArgs f) = 2%nat.
Proof.
  unfold forwardArgs. intros [H|[H|(H & _)]]; rewrite H; reflexivity.
Qed.

Lemma displayPart_known (f : Host.PortForward) :
  knownForward f -> length (displayPart f) = 1%nat.
Proof.
  unfold displayPart. intros [H|[H|(H & _)]]; rewrite H; reflexivity.
Qed.

Lemma flat_map_length_const {A B} (f : A -> list B) (k : nat) (l : list A) :
  Forall (fun x => length (f x) = k) l ->
  length (flat_map f l) = (k * length l)%nat.
Proof.
  induction 1 as [|x l Hx _ IH]; cbn [flat_map length]; [lia|].
  rewrite length_app, Hx, IH. lia.
Qed.

Section ConfigFacts.

Variable TrimSpace : string -> string.
Variable Fields : string -> list string.
Variable ToLower : string -> string.

(** A property of hosts that holds of every new block and is kept by every
    setting holds of every host the loop has seen. *)
Lemma parseLine_invariant (P : Host.SSHHost -> Prop) :
  (forall value, Contains value "*" = false ->
     P {| Host.Alias := value; Host.HostName := ""; Host.User := "";
          Host.Port := ""; Host.Forwards := [] |}) ->
  (forall key value cur, P cur -> P (applySetting TrimSpace Fields key value cur)) ->
  forall l st,
    Forall P (flush st) ->
    Forall P (flush (parseLine TrimSpace Fields ToLower st l)).
Proof.
  intros Hnew Hset l [hosts cur] Hst.
  unfold parseLine. cbn [fst snd].
  destruct (directive TrimSpace Fields ToLower l) as [[key value]|];
    [|exact Hst].
  unfold flush in *. cbn [fst snd] in *.
  destruct (String.eqb key "host").
  - destruct (Contains value "*") eqn:Hwild; cbn [fst snd].
    + destruct cur; [|exact Hst].
      apply Forall_app in Hst as [Hst _]. exact Hst.
    + apply Forall_app. split; [|apply Forall_singleton, Hnew, Hwild].
      destruct cur; exact Hst.
  - destruct cur as [cur|]; cbn [fst snd]; [|exact Hst].
    apply Forall_app in Hst as [Hdone Hcur].
    apply Forall_app. split; [exact Hdone|].
    apply Forall_singleton. apply Hset.
    exact (proj1 (Forall_singleton P cur) Hcur).
Qed.

Lemma parse_invariant (P : Host.SSHHost -> Prop) :
  (forall value, Contains value "*" = false ->
     P {| Host.Alias := value; Host.HostName := ""; Host.User := "";
          Host.Port := ""; Host.Forwards := [] |}) ->
  (forall key value cur, P cur -> P (applySetting TrimSpace Fields key value cur)) ->
  forall lines st,
    Forall P (flush st) ->
    Forall P (flush (foldl (parseLine TrimSpace Fields ToLower) st lines)).
Proof.
  intros Hnew Hset. induction lines as [|l lines IH]; intros st Hst;
    [exact Hst|].
  cbn [foldl]. apply IH. apply parseLine_invariant; assumption.
Qed.

Lemma applySetting_Alias (key value : string) (cur : Host.SSHHost) :
  Host.Alias (applySetting TrimSpace Fields key value cur) = Host.Alias cur.
Proof.
  unfold applySetting, addForward.
  repeat match goal with
         | |- context [if ?b then _ else _] => destruct b
         | |- context [match ?o with Some _ => _ | None => _ end] => destruct o
         end; reflexivity.
Qed.

Lemma applySetting_known (key value : string) (cur : Host.SSHHost) :
  Forall knownForward (Host.Forwards cur) ->
  Forall knownForward
    (Host.Forwards (applySetting TrimSpace Fields key value cur)).
Proof.
  intros Hcur. unfold applySetting.
  destruct (String.eqb key "hostname"); [exact Hcur|].
  destruct (String.eqb key "user"); [exact Hcur|].
  destruct (String.eqb key "port"); [exact Hcur|].
  destruct (String.eqb key "localforward").
  { unfold parseLocalForward.
    destruct (Fields value) as [|p0 [|p1 rest]]; cbn [addForward];
      try exact Hcur.
    cbn [Host.Forwards]. apply Forall_app. split; [exact Hcur|].
    apply Forall_singleton. left. reflexivity. }
  destruct (String.eqb key "remoteforward").
  { unfold parseRemoteForward.
    destruct (Fields value) as [|p0 [|p1 rest]]; cbn [addForward];
      try exact Hcur.
    cbn [Host.Forwards]. apply Forall_app. split; [exact Hcur|].
    apply Forall_singleton. right. left. reflexivity. }
  destruct (String.eqb key "dynamicforward"); [|exact Hcur].
  unfold parseDynamicForward.
  destruct (String.eqb (TrimSpace value) "") eqn:Hport; cbn [addForward];
    [exact Hcur|].
  cbn [Host.Forwards]. apply Forall_app. split; [exact Hcur|].
  apply Forall_singleton. right. right. cbn.
  split; [reflexivity|]. split; [|reflexivity].
  apply String.eqb_neq. exact Hport.
Qed.

(** X14. Every forward the parser stores reaches the ssh command line and the
    menu. Each forward of each host returned by parseSSHConfig has one of
    the three types [buildSSHArgs] and [displayForwards] know (a dynamic one
    with a port and no remote address), so the arguments built for the host
    are two per forward followed by the alias, and the menu shows one part
    per forward: none is dropped on the way. *)
Theorem parsed_forwards_reach_ssh (src : ConfigSource) (h : Host.SSHHost) :
  h ∈ fst (parseSSHConfig TrimSpace Fields ToLower src) ->
  Forall knownForward (Host.Forwards h) /\
  length (buildSSHArgs h) = (2 * length (Host.Forwards h) + 1)%nat /\
  last (buildSSHArgs h) = Some (Host.Alias h) /\
  length (flat_map displayPart (Host.Forwards h)) = length (Host.Forwards h).
Proof.
  intros Hin.
  assert (Forall knownForward (Host.Forwards h)) as Hknown.
  { destruct src as [err|err|lines scanErr]; cbn [parseSSHConfig fst] in Hin;
      try (inversion Hin; fail).
    pose proof (parse_invariant
                  (fun h => Forall knownForward (Host.Forwards h))
                  (fun _ _ => Forall_nil_2 _)
                  (fun key value cur => applySetting_known key value cur)
                  lines ([], None) (Forall_nil_2 _)) as Hall.
    exact (proj1 (Forall_forall _ _) Hall h Hin). }
  split; [exact Hknown|]. unfold buildSSHArgs.
  split; [|split].
  - rewrite length_app, (flat_map_length_const forwardArgs 2).
    + cbn [length]. lia.
    + eapply Forall_impl; [exact Hknown|]. apply forwardArgs_known.
  - apply last_snoc.
  - rewrite (flat_map_length_const displayPart 1); [lia|].
    eapply Forall_impl; [exact Hknown|]. apply displayPart_known.
Qed.

(** X15. No host returned by parseSSHConfig has a [*] in its alias: the blocks
    of wildcard patterns never become menu entries. Settings do not touch
    the alias, which is the value of the [Host] line as it was joined. *)
Theorem parsed_alias_has_no_wildcard (src : ConfigSource) (h : Host.SSHHost) :
  h ∈ fst (parseSSHConfig TrimSpace Fields ToLower src) ->
  Contains (Host.Alias h) "*" = false.
Proof.
  intros Hin.
  destruct src as [err|err|lines scanErr]; cbn [parseSSHConfig fst] in Hin;
    try (inversion Hin; fail).
  pose proof (parse_invariant
                (fun h => Contains (Host.Alias h) "*" = false)
                (fun _ H => H)
                (fun key value cur H =>
                   eq_trans (f_equal (fun a => Contains a "*")
                               (applySetting_Alias key value cur)) H)
                lines ([], None) (Forall_nil_2 _)) as Hall.
  exact (proj1 (Forall_forall _ _) Hall h Hin).
Qed.

Lemma parseLine_wildcard (wild : string)
  (st : list Host.SSHHost * option Host.SSHHost) :
  isWildcardHostLine TrimSpace Fields ToLower wild = true ->
  parseLine TrimSpace Fields ToLower st wild = (fst st, None).
Proof.
  unfold parseLine, isWildcardHostLine. intros Hwild.
  destruct (directive TrimSpace Fields ToLower wild) as [[key value]|];
    [|discriminate].
  apply andb_prop in Hwild as [-> ->]. reflexivity.
Qed.

(** The hosts already appended do not influence the rest of the loop. *)
Lemma parseLine_prefix (l : string) (hosts : list Host.SSHHost)
  (cur : option Host.SSHHost) :
  parseLine TrimSpace Fields ToLower (hosts, cur) l =
    (hosts ++ fst (parseLine TrimSpace Fields ToLower ([], cur) l),
     snd (parseLine TrimSpace Fields ToLower ([], cur) l)).
Proof.
  unfold parseLine. cbn [fst snd].
  destruct (directive TrimSpace Fields ToLower l) as [[key value]|];
    cbn [fst snd]; [|rewrite app_nil_r; reflexivity].
  destruct (String.eqb key "host").
  - destruct (Contains value "*"); cbn [fst snd];
      [rewrite app_nil_r; reflexivity|].
    destruct cur; cbn [app]; rewrite ?app_nil_r; reflexivity.
  - destruct cur; cbn [fst snd]; rewrite app_nil_r; reflexivity.
Qed.

Lemma parse_prefix (lines : list string) :
  forall hosts cur,
    foldl (parseLine TrimSpace Fields ToLower) (hosts, cur) lines =
      (hosts ++ fst (foldl (parseLine TrimSpace Fields ToLower) ([], cur) lines),
       snd (foldl (parseLine TrimSpace Fields ToLower) ([], cur) lines)).
Proof.
  induction lines as [|l lines IH]; intros hosts cur.
  - cbn [foldl fst snd]. rewrite app_nil_r. reflexivity.
  - cbn [foldl]. rewrite (parseLine_prefix l hosts cur).
    destruct (parseLine TrimSpace Fields ToLower ([], cur) l) as [h1 c1].
    cbn [fst snd]. rewrite (IH (hosts ++ h1) c1), (IH h1 c1).
    cbn [fst snd]. rewrite <- app_assoc. reflexivity.
Qed.

Lemma parseLines_app (pre post : list string) (done : list Host.SSHHost)
  (cur : option Host.SSHHost) :
  foldl (parseLine TrimSpace Fields ToLower) ([], None) pre = (done, cur) ->
  parseLines TrimSpace Fields ToLower (pre ++ post) =
    done ++ flush (foldl (parseLine TrimSpace Fields ToLower) ([], cur) post).
Proof.
  intros Hpre. unfold parseLines. rewrite foldl_app, Hpre, parse_prefix.
  unfold flush. cbn [fst snd].
  destruct (snd (foldl (parseLine TrimSpace Fields ToLower) ([], cur) post));
    rewrite <- ?app_assoc; reflexivity.
Qed.

(** X16. A wildcard [Host] line erases the block it follows. When the lines
    read so far end inside the block of a host, a [Host] line whose pattern
    holds a [*] drops that host: it is in the result if the file stops
    before the line, and the result of the whole file is the hosts closed
    before, followed by what the lines after the wildcard line yield on
    their own. *)
Theorem wildcard_host_line_drops_open_block (pre post : list string)
  (wild : string) (done : list Host.SSHHost) (cur : Host.SSHHost) :
  foldl (parseLine TrimSpace Fields ToLower) ([], None) pre = (done, Some cur) ->
  isWildcardHostLine TrimSpace Fields ToLower wild = true ->
  parseLines TrimSpace Fields ToLower pre = done ++ [cur] /\
  parseLines TrimSpace Fields ToLower (pre ++ wild :: post) =
    done ++ parseLines TrimSpace Fields ToLower post.
Proof.
  intros Hpre Hwild. split.
  - unfold parseLines, flush. rewrite Hpre. reflexivity.
  - rewrite (parseLines_app pre (wild :: post) done (Some cur) Hpre).
    cbn [foldl]. rewrite parseLine_wildcard by assumption. reflexivity.
Qed.

(** From outside a block, lines that are not [Host] lines change nothing. *)
Lemma parse_outside_block (body : list string) (hosts : list Host.SSHHost) :
  Forall (fun l => isHostLine TrimSpace Fields ToLower l = false) body ->
  foldl (parseLine TrimSpace Fields ToLower) (hosts, None) body = (hosts, None).
Proof.
  induction 1 as [|l body Hl _ IH]; [reflexivity|].
  cbn [foldl].
  assert (parseLine TrimSpace Fields ToLower (hosts, None) l = (hosts, None))
    as ->; [|exact IH].
  unfold parseLine. unfold isHostLine in Hl.
  destruct (directive TrimSpace Fields ToLower l) as [[key value]|];
    [|reflexivity].
  rewrite Hl. reflexivity.
Qed.

(** X17. Settings outside a host block are ignored. The lines before the first
    [Host] line change nothing, and neither do the lines between a wildcard
    [Host] line and the next [Host] line: the defaults of a [Host *] block
    reach no host. *)
Theorem settings_outside_a_block_are_ignored (pre body post : list string)
  (wild : string) :
  Forall (fun l => isHostLine TrimSpace Fields ToLower l = false) body ->
  isWildcardHostLine TrimSpace Fields ToLower wild = true ->
  parseLines TrimSpace Fields ToLower (body ++ post) =
    parseLines TrimSpace Fields ToLower post /\
  parseLines TrimSpace Fields ToLower (pre ++ wild :: body ++ post) =
    parseLines TrimSpace Fields ToLower (pre ++ wild :: post).
Proof.
  intros Hbody Hwild. split.
  - unfold parseLines. rewrite foldl_app, parse_outside_block by assumption.
    reflexivity.
  - unfold parseLines. rewrite !foldl_app. cbn [foldl].
    rewrite parseLine_wildcard by assumption.
    rewrite foldl_app, parse_outside_block by assumption. reflexivity.
Qed.

(** X18. Blank lines, comments and lines of a single word play no part: the
    hosts parsed from a file are those parsed from its other lines. *)
Theorem skipped_lines_play_no_part (lines : list string) :
  parseLines TrimSpace Fields ToLower
    (filter (fun l => skipped TrimSpace Fields ToLower l = false) lines) =
  parseLines TrimSpace Fields ToLower lines.
Proof.
  unfold parseLines. f_equal.
  generalize (@nil Host.SSHHost, @None Host.SSHHost).
  induction lines as [|l lines IH]; intros st; [reflexivity|].
  rewrite filter_cons. unfold skipped at 1.
  destruct (decide _) as [Hkeep|Hskip]; cbn [foldl].
  - apply IH.
  - rewrite IH. f_equal. unfold parseLine.
    destruct (directive TrimSpace Fields ToLower l);
      [exfalso; apply Hskip; reflexivity | reflexivity].
Qed.

End ConfigFacts.

Lemma parsed_forwards_reach_ssh_witness :
  let lines := ["# office"; "Host web";
                "  HostName 10.0.0.1";
                "  LocalForward 8080 localhost:80";
                "  DynamicForward 1080";
                "  RemoteForward 9090"] in
  let h := {| Host.Alias := "web"; Host.HostName := "10.0.0.1";
              Host.User := ""; Host.Port := "";
              Host.Forwards :=
                [{| Host.Type_ := "L"; Host.LocalPort := "8080";
                    Host.RemoteAddr := "localhost:80" |};
                 {| Host.Type_ := "D"; Host.LocalPort := "1080";
                    Host.RemoteAddr := "" |}] |} in
  h ∈ fst (parseSSHConfig asciiTrimSpace asciiFields asciiToLower
             (Scanned lines None)) /\
  length (buildSSHArgs h) = 5%nat.
Proof.
  intros lines h.
  assert (h ∈ fst (parseSSHConfig asciiTrimSpace asciiFields asciiToLower
                     (Scanned lines None))) as Hin
    by (apply list_elem_of_singleton; reflexivity).
  split; [exact Hin|].
  destruct (parsed_forwards_reach_ssh _ _ _ _ _ Hin) as (_ & Hlen & _).
  rewrite Hlen. reflexivity.
Defined.

Lemma parsed_alias_has_no_wildcard_witness :
  let lines := ["Host *.internal"; "  User ops"; "Host db"; "  Port 2222"] in
  let h := {| Host.Alias := "db"; Host.HostName := ""; Host.User := "";
              Host.Port := "2222"; Host.Forwards := [] |} in
  fst (parseSSHConfig asciiTrimSpace asciiFields asciiToLower
         (Scanned lines None)) = [h] /\
  Contains (Host.Alias h) "*" = false.
Proof.
  intros lines h.
  assert (fst (parseSSHConfig asciiTrimSpace asciiFields asciiToLower
                 (Scanned lines None)) = [h]) as Hparse by reflexivity.
  split; [exact Hparse|].
  apply (parsed_alias_has_no_wildcard asciiTrimSpace asciiFields asciiToLower
           (Scanned lines None)).
  rewrite Hparse. apply list_elem_of_singleton. reflexivity.
Defined.

Lemma wildcard_host_line_drops_open_block_witness :
  let web := {| Host.Alias := "web"; Host.HostName := "10.0.0.1";
                Host.User := ""; Host.Port := ""; Host.Forwards := [] |} in
  let pre := ["Host web"; "  HostName 10.0.0.1"] in
  let post := ["  User root"] in
  foldl (parseLine asciiTrimSpace asciiFields asciiToLower) ([], None) pre =
    ([], Some web) /\
  isWildcardHostLine asciiTrimSpace asciiFields asciiToLower "Host *" = true /\
  parseLines asciiTrimSpace asciiFields asciiToLower pre = [web] /\
  parseLines asciiTrimSpace asciiFields asciiToLower (pre ++ "Host *" :: post) = [].
Proof.
  intros web pre post.
  assert (foldl (parseLine asciiTrimSpace asciiFields asciiToLower) ([], None)
            pre = ([], Some web)) as Hpre by reflexivity.
  assert (isWildcardHostLine asciiTrimSpace asciiFields asciiToLower "Host *" =
          true) as Hwild by reflexivity.
  split; [exact Hpre|]. split; [exact Hwild|].
  destruct (wildcard_host_line_drops_open_block asciiTrimSpace asciiFields
              asciiToLower pre post "Host *" [] web Hpre Hwild) as [Hopen Hall].
  split; [exact Hopen|]. rewrite Hall. reflexivity.
Defined.

Lemma settings_outside_a_block_are_ignored_witness :
  let body := ["  User root"; "  Port 2222"; "# defaults"] in
  let pre := ["Host web"] in
  let post := ["Host db"] in
  Forall (fun l => isHostLine asciiTrimSpace asciiFields asciiToLower l = false)
    body /\
  isWildcardHostLine asciiTrimSpace asciiFields asciiToLower "Host *" = true /\
  parseLines asciiTrimSpace asciiFields asciiToLower
    (pre ++ "Host *" :: body ++ post) =
    [{| Host.Alias := "db"; Host.HostName := ""; Host.User := "";
        Host.Port := ""; Host.Forwards := [] |}].
Proof.
  intros body pre post.
  assert (Forall (fun l => isHostLine asciiTrimSpace asciiFields asciiToLower l
                           = false) body) as Hbody
    by (repeat constructor).
  assert (isWildcardHostLine asciiTrimSpace asciiFields asciiToLower "Host *" =
          true) as Hwild by reflexivity.
  split; [exact Hbody|]. split; [exact Hwild|].
  destruct (settings_outside_a_block_are_ignored asciiTrimSpace asciiFields
              asciiToLower pre body post "Host *" Hbody Hwild) as [_ Hsame].
  rewrite Hsame. reflexivity.
Defined.

(** ** The scrollback pager *)

Lemma index_Some {A} (s : list A) (i : Z) :
  0 <= i < len s -> exists x, index s i = Some x /\ s !! Z.to_nat i = Some x.
Proof.
  intros Hi. unfold index.
  destruct (lookup_lt_is_Some_2 s (Z.to_nat i)) as [x Hx];
    [unfold len in Hi; lia|].
  exists x. split; [|assumption].
  replace ((0 <=? i) && (i <? len s)) with true; [assumption|].
  symmetry. apply andb_true_intro. split; [apply Z.leb_le | apply Z.ltb_lt]; lia.
Qed.

Lemma index_inv {A} (s : list A) (i : Z) (x : A) :
  index s i = Some x -> 0 <= i < len s /\ s !! Z.to_nat i = Some x.
Proof.
  unfold index. intros H.
  destruct ((0 <=? i) && (i <? len s)) eqn:Hin; [|discriminate].
  apply andb_prop in Hin as [Hlo Hhi].
  apply Z.leb_le in Hlo. apply Z.ltb_lt in Hhi. auto.
Qed.

Lemma substring_all (s : string) : String.substring 0 (String.length s) s = s.
Proof. induction s as [|c s IH]; cbn; [reflexivity | rewrite IH; reflexivity]. Qed.

Lemma TrimPrefix_slash (term : string) : TrimPrefix ("/" +:+ term) "/" = term.
Proof.
  replace ("/" +:+ term)
    with (String (Ascii.Ascii true true true true false true false false) term)
    by reflexivity.
  unfold TrimPrefix. cbn.
  rewrite Nat.sub_0_r. destruct term as [|c term]; [reflexivity|].
  rewrite substring_all. reflexivity.
Qed.

Section PagerFacts.

Variable TrimSpace : string -> string.
Variable ToLower : string -> string.
Variable ReplaceAll : string -> string -> string -> string.
Variable Split : list byte -> list string.

Lemma searchFrom_spec (term : string) (lines : list string) :
  forall k i,
    i ∈ searchFrom ToLower k lines term <->
    exists line, k <= i /\ lines !! Z.to_nat (i - k) = Some line /\
                 found ToLower term line = true.
Proof.
  induction lines as [|l lines IH]; intros k i; cbn [searchFrom].
  - split; [intros H; inversion H | intros (line & _ & H & _); discriminate].
  - assert (i ∈ searchFrom ToLower (k + 1) lines term <->
            exists line, k + 1 <= i /\
                         (l :: lines) !! Z.to_nat (i - k) = Some line /\
                         found ToLower term line = true) as Hrest.
    { rewrite IH. split; intros (line & Hk & Hline & Hfound); exists line;
        (split; [lia|]); (split; [|assumption]).
      - replace (Z.to_nat (i - k)) with (S (Z.to_nat (i - (k + 1)))) by lia.
        exact Hline.
      - replace (Z.to_nat (i - k)) with (S (Z.to_nat (i - (k + 1)))) in Hline
          by lia.
        exact Hline. }
    destruct (found ToLower term l) eqn:Hl.
    + rewrite elem_of_cons, Hrest. split.
      * intros [->|(line & Hk & Hline & Hfound)].
        -- exists l. replace (Z.to_nat (k - k)) with 0%nat by lia.
           split; [lia|]. split; [reflexivity | assumption].
        -- exists line. split; [lia|]. auto.
      * intros (line & Hk & Hline & Hfound).
        destruct (decide (i = k)) as [->|Hne]; [left; reflexivity|].
        right. exists line. split; [lia|]. auto.
    + rewrite Hrest. split.
      * intros (line & Hk & Hline & Hfound). exists line. split; [lia|]. auto.
      * intros (line & Hk & Hline & Hfound).
        destruct (decide (i = k)) as [->|Hne].
        -- replace (Z.to_nat (k - k)) with 0%nat in Hline by lia.
           cbn in Hline. congruence.
        -- exists line. split; [lia|]. auto.
Qed.

Lemma searchFrom_ascending (term : string) (lines : list string) :
  forall k m n a b,
    (m < n)%nat ->
    searchFrom ToLower k lines term !! m = Some a ->
    searchFrom ToLower k lines term !! n = Some b ->
    k <= a < b.
Proof.
  induction lines as [|l lines IH]; intros k m n a b Hmn Ha Hb;
    cbn [searchFrom] in *; [discriminate|].
  assert (forall j x, searchFrom ToLower (k + 1) lines term !! j = Some x ->
                      k + 1 <= x) as Hlow.
  { intros j x Hx. apply list_elem_of_lookup_2 in Hx.
    apply searchFrom_spec in Hx as (line & Hk & _). exact Hk. }
  destruct (found ToLower term l).
  - destruct m as [|m]; destruct n as [|n]; try lia.
    + cbn in Ha, Hb. injection Ha as <-. apply Hlow in Hb. lia.
    + cbn in Ha, Hb.
      destruct (IH (k + 1) m n a b) as [? ?]; [lia | assumption | assumption|].
      lia.
  - destruct (IH (k + 1) m n a b) as [? ?]; [lia | assumption | assumption|].
    lia.
Qed.

Lemma searchFrom_range (term : string) (lines : list string) :
  Forall (fun i => 0 <= i < len lines) (searchFrom ToLower 0 lines term).
Proof.
  apply Forall_forall. intros i Hi.
  apply searchFrom_spec in Hi as (line & Hk & Hline & _).
  apply lookup_lt_Some in Hline. unfold len. lia.
Qed.

Lemma jumpTo_valid (lines : list string) (p : Pager) (idx : Z) :
  Forall (fun i => 0 <= i < len lines) (searchResults p) ->
  0 <= idx < len (searchResults p) ->
  exists p',
    jumpTo idx p = Some p' /\ pagerValid lines p' /\
    searchIndex p' = idx /\ searchResults p' = searchResults p /\
    searchTerm p' = searchTerm p /\
    index (searchResults p) idx = Some (currentLine p').
Proof.
  intros Hres Hidx. unfold jumpTo.
  destruct (index_Some (searchResults p) idx Hidx) as (i & Hi & Hlook).
  rewrite Hi. eexists. split; [reflexivity|].
  cbn [searchIndex searchResults searchTerm currentLine].
  split; [|auto].
  split; [|split; [assumption | intros _; assumption]].
  cbn [currentLine].
  apply list_elem_of_lookup_2 in Hlook.
  exact (proj1 (Forall_forall _ _) Hres i Hlook).
Qed.

Lemma setCurrentLine_valid (lines : list string) (i : Z) (p : Pager) :
  pagerValid lines p -> 0 <= i < len lines ->
  pagerValid lines (setCurrentLine i p).
Proof. intros (_ & Hres & Hidx) Hi. split; [exact Hi | split; assumption]. Qed.

Lemma pagerCommand_valid (lines : list string) (input : string) (p : Pager) :
  pagerValid lines p ->
  exists p', pagerCommand ToLower lines input p = Some p' /\ pagerValid lines p'.
Proof.
  intros Hvalid. pose proof Hvalid as (Hcur & Hres & Hidx).
  unfold pagerCommand, pageSize.
  destruct (String.eqb input "j" || String.eqb input "").
  { destruct (Z.ltb_spec (currentLine p + 20) (len lines));
      eexists; (split; [reflexivity|]); [|assumption].
    apply setCurrentLine_valid; [assumption | lia]. }
  destruct (String.eqb input "k").
  { destruct (Z.leb_spec 0 (currentLine p - 20));
      eexists; (split; [reflexivity|]);
      (apply setCurrentLine_valid; [assumption | lia]). }
  destruct (String.eqb input "g").
  { eexists. split; [reflexivity|].
    apply setCurrentLine_valid; [assumption | lia]. }
  destruct (String.eqb input "G").
  { destruct (Z.ltb_spec 20 (len lines));
      eexists; (split; [reflexivity|]); [|assumption].
    apply setCurrentLine_valid; [assumption | lia]. }
  destruct (HasPrefix input "/").
  { pose proof (searchFrom_range (TrimPrefix input "/") lines) as Hrange.
    destruct (Z.ltb_spec 0 (len (searchFrom ToLower 0 lines (TrimPrefix input "/"))))
      as [Hsome|Hnone].
    - match goal with
      | |- exists p', jumpTo 0 ?p1 = _ /\ _ =>
          destruct (jumpTo_valid lines p1 0) as (p' & Hj & Hv & _)
      end; [exact Hrange | cbn [searchResults]; lia|].
      exists p'. auto.
    - eexists. split; [reflexivity|].
      destruct (searchFrom ToLower 0 lines (TrimPrefix input "/")) as [|x l] eqn:Hs.
      + split; [exact Hcur|]. split; [constructor | intros H; contradiction].
      + unfold len in Hnone. cbn [length] in Hnone. lia. }
  assert (0 < len (searchResults p) ->
          0 <= searchIndex p < len (searchResults p)) as Hidx'.
  { intros Hpos. apply Hidx. intros Hnil. rewrite Hnil in Hpos.
    unfold len in Hpos. cbn in Hpos. lia. }
  destruct (String.eqb input "n").
  { destruct (Z.ltb_spec 0 (len (searchResults p))) as [Hpos|Hnone].
    - destruct (jumpTo_valid lines p
                  (Z.rem (searchIndex p + 1) (len (searchResults p))))
        as (p' & Hj & Hv & _); [assumption| |eauto].
      specialize (Hidx' Hpos).
      rewrite Z.rem_mod_nonneg by lia. apply Z.mod_pos_bound. lia.
    - exists p. split; [reflexivity | assumption]. }
  destruct (String.eqb input "N").
  { destruct (Z.ltb_spec 0 (len (searchResults p))) as [Hpos|Hnone].
    - destruct (jumpTo_valid lines p
                  (Z.rem (searchIndex p - 1 + len (searchResults p))
                     (len (searchResults p))))
        as (p' & Hj & Hv & _); [assumption| |eauto].
      specialize (Hidx' Hpos).
      rewrite Z.rem_mod_nonneg by lia. apply Z.mod_pos_bound. lia.
    - exists p. split; [reflexivity | assumption]. }
  exists p. split; [reflexivity | assumption].
Qed.

Lemma printPage_total (term : string) (lines : list string) (n : nat) :
  forall i,
    0 <= i -> i + Z.of_nat n <= len lines ->
    exists evs,
      printPage ToLower ReplaceAll n i lines term = Some evs /\
      length evs = n.
Proof.
  induction n as [|n IH]; intros i Hlo Hhi; cbn [printPage]; [eauto|].
  destruct (index_Some lines i) as (line & -> & _); [lia|].
  destruct (IH (i + 1)) as (evs & -> & Hlen); [lia | lia|].
  eexists. split; [reflexivity|]. cbn [length]. lia.
Qed.

Lemma display_total (alias : string) (lines : list string) (p : Pager) :
  pagerValid lines p ->
  is_Some (display ToLower ReplaceAll alias lines p).
Proof.
  intros (Hcur & _). unfold display.
  destruct (printPage_total (searchTerm p) lines
              (Z.to_nat (endLine lines p - currentLine p)) (currentLine p))
    as (page & -> & _); [lia| |eauto].
  unfold endLine, pageSize.
  destruct (Z.ltb_spec (len lines) (currentLine p + 20)); lia.
Qed.

Lemma pagerLoop_returns (alias : string) (lines : list string)
  (inputs : list string) :
  forall p w,
    pagerValid lines p ->
    (is_Some (pagerLoop TrimSpace ToLower ReplaceAll alias lines inputs p w) <->
     exists raw, raw ∈ inputs /\ TrimSpace raw = "q").
Proof.
  induction inputs as [|raw rest IH]; intros p w Hvalid; cbn [pagerLoop];
    destruct (display_total alias lines p Hvalid) as [evs ->].
  - split; [intros [? H]; discriminate|].
    intros (raw & Hin & _). inversion Hin.
  - destruct (String.eqb_spec (TrimSpace raw) "q") as [Hq|Hnq].
    + split; [|eauto]. intros _. exists raw. split; [left|assumption].
    + destruct (pagerCommand_valid lines (TrimSpace raw) p Hvalid)
        as (p' & -> & Hvalid').
      rewrite (IH p' (emit evs w) Hvalid'). split.
      * intros (r & Hin & Hr). exists r. split; [right; assumption | assumption].
      * intros (r & Hin & Hr). apply elem_of_cons in Hin as [->|Hin];
          [contradiction|]. eauto.
Qed.

(** X19. The pager is left by [q] and by nothing else. With the lines of a
    scrollback that is not empty, viewScrollback returns exactly when one of
    the commands typed is [q]: whatever is typed before, scrolling,
    searching and stepping through the matches never index a line or a
    match out of range, and no other command, nor an empty line, ends the
    loop. *)
Theorem viewScrollback_returns_iff_quit (s : Session) (inputs : list string)
  (w : World) :
  Split (Scrollback s) <> [] ->
  len (Scrollback s) <> 0 ->
  (is_Some (viewScrollback TrimSpace ToLower ReplaceAll Split s inputs w) <->
   exists raw, raw ∈ inputs /\ TrimSpace raw = "q").
Proof.
  intros Hlines Hsb. unfold viewScrollback.
  destruct (Z.eqb_spec (len (Scrollback s)) 0) as [Hz|_]; [contradiction|].
  apply pagerLoop_returns.
  split; [|split; [constructor | intros H; contradiction]].
  cbn [currentLine pagerStart]. unfold len.
  destruct (Split (Scrollback s)); [contradiction | cbn [length]; lia].
Qed.

(** X20. What the pager shows. In a valid state the loop prints between one and
    twenty lines of the scrollback, starting with line [currentLine]; every
    command keeps the state valid. *)
Theorem pager_stays_within_the_lines (lines : list string) (input : string)
  (p : Pager) :
  pagerValid lines p ->
  (exists page,
     printPage ToLower ReplaceAll
       (Z.to_nat (endLine lines p - currentLine p)) (currentLine p) lines
       (searchTerm p) = Some page /\
     (1 <= length page <= 20)%nat /\
     (exists line, index lines (currentLine p) = Some line /\
                   head page = Some (EPrintln (highlight ToLower ReplaceAll
                                                 (searchTerm p) line)))) /\
  exists p',
    pagerCommand ToLower lines input p = Some p' /\ pagerValid lines p'.
Proof.
  intros Hvalid. split; [|apply pagerCommand_valid; assumption].
  destruct Hvalid as (Hcur & _).
  assert (1 <= endLine lines p - currentLine p <= 20 /\
          endLine lines p <= len lines) as [Hn Hend].
  { unfold endLine, pageSize.
    destruct (Z.ltb_spec (len lines) (currentLine p + 20)); lia. }
  destruct (printPage_total (searchTerm p) lines
              (Z.to_nat (endLine lines p - currentLine p)) (currentLine p))
    as (page & Hpage & Hlen); [lia | lia|].
  exists page. split; [assumption|]. split; [lia|].
  destruct (index_Some lines (currentLine p) Hcur) as (line & Hline & _).
  exists line. split; [assumption|].
  destruct (Z.to_nat (endLine lines p - currentLine p)) as [|n] eqn:Hk; [lia|].
  cbn [printPage] in Hpage. rewrite Hline in Hpage.
  destruct (printPage ToLower ReplaceAll n (currentLine p + 1) lines
              (searchTerm p)); [|discriminate].
  injection Hpage as <-. reflexivity.
Qed.

(** X21. A search finds every matching line. After [/term] the results are the
    indices of the lines that hold the term, case folded, in ascending
    order; with a match the view jumps to the first one, without a match
    the view stays where it is and the match counter keeps its old value. *)
Theorem pager_search_finds_every_match (lines : list string) (term : string)
  (p p' : Pager) :
  pagerCommand ToLower lines ("/" +:+ term) p = Some p' ->
  searchTerm p' = term /\
  (forall i, i ∈ searchResults p' <->
             exists line, index lines i = Some line /\
                          found ToLower term line = true) /\
  (forall m n a b,
     (m < n)%nat ->
     searchResults p' !! m = Some a -> searchResults p' !! n = Some b ->
     a < b) /\
  match searchResults p' with
  | first :: _ => currentLine p' = first /\ searchIndex p' = 0
  | [] => currentLine p' = currentLine p /\ searchIndex p' = searchIndex p
  end.
Proof.
  intros Hcmd.
  assert (pagerCommand ToLower lines ("/" +:+ term) p =
          let results := searchFrom ToLower 0 lines term in
          let p1 := {| currentLine := currentLine p; searchTerm := term;
                       searchResults := results;
                       searchIndex := searchIndex p |} in
          if 0 <? len results then jumpTo 0 p1 else Some p1) as Heq.
  { unfold pagerCommand. rewrite TrimPrefix_slash.
    replace ("/" +:+ term)
      with (String (Ascii.Ascii true true true true false true false false)
              term)
      by reflexivity.
    cbn. destruct term; reflexivity. }
  rewrite Heq in Hcmd. clear Heq. cbn zeta in Hcmd.
  assert (searchTerm p' = term /\
          searchResults p' = searchFrom ToLower 0 lines term /\
          match searchFrom ToLower 0 lines term with
          | first :: _ => currentLine p' = first /\ searchIndex p' = 0
          | [] => currentLine p' = currentLine p /\
                  searchIndex p' = searchIndex p
          end) as (Hterm & Hres & Hjump).
  { destruct (searchFrom ToLower 0 lines term) as [|first rest] eqn:Hs.
    - cbn in Hcmd. injection Hcmd as <-. repeat split.
    - replace (0 <? len (first :: rest)) with true in Hcmd
        by (symmetry; apply Z.ltb_lt; unfold len; cbn [length]; lia).
      unfold jumpTo, index in Hcmd. cbn [searchResults] in Hcmd.
      replace ((0 <=? 0) && (0 <? len (first :: rest))) with true in Hcmd
        by (symmetry; apply andb_true_intro; split;
            [reflexivity | apply Z.ltb_lt; unfold len; cbn [length]; lia]).
      cbn in Hcmd. injection Hcmd as <-. repeat split. }
  split; [assumption|]. rewrite Hres. split; [|split; [|assumption]].
  - intros i. rewrite searchFrom_spec. split.
    + intros (line & Hk & Hline & Hfound). exists line. split; [|assumption].
      rewrite Z.sub_0_r in Hline.
      destruct (index_Some lines i) as (x & Hx & Hx').
      { apply lookup_lt_Some in Hline. unfold len. lia. }
      congruence.
    + intros (line & Hline & Hfound). apply index_inv in Hline as [Hi Hline].
      exists line. rewrite Z.sub_0_r. split; [lia|]. auto.
  - intros m n a b Hmn Ha Hb.
    apply (searchFrom_ascending term lines 0 m n a b Hmn Ha Hb).
Qed.

(** X22. [N] undoes [n]. With at least one match, stepping to the next match
    and then to the previous one comes back to the match the pager was on:
    the steps wrap around the ends of the results, and the view is on the
    line of that match. *)
Theorem pager_N_undoes_n (lines : list string) (p : Pager) :
  pagerValid lines p ->
  searchResults p <> [] ->
  exists p1 p2,
    pagerCommand ToLower lines "n" p = Some p1 /\
    pagerCommand ToLower lines "N" p1 = Some p2 /\
    searchIndex p2 = searchIndex p /\
    searchResults p2 = searchResults p /\
    index (searchResults p) (searchIndex p) = Some (currentLine p2).
Proof.
  intros (Hcur & Hres & Hidx) Hsome. specialize (Hidx Hsome).
  assert (0 < len (searchResults p)) as Hpos by lia.
  assert (pagerCommand ToLower lines "n" p =
          jumpTo (Z.rem (searchIndex p + 1) (len (searchResults p))) p) as Hn.
  { unfold pagerCommand. cbn.
    replace (0 <? len (searchResults p)) with true
      by (symmetry; apply Z.ltb_lt; lia).
    reflexivity. }
  destruct (jumpTo_valid lines p
              (Z.rem (searchIndex p + 1) (len (searchResults p))) Hres)
    as (p1 & Hj1 & Hv1 & Hi1 & Hr1 & _).
  { rewrite Z.rem_mod_nonneg by lia. apply Z.mod_pos_bound. lia. }
  assert (pagerCommand ToLower lines "N" p1 =
          jumpTo (Z.rem (searchIndex p1 - 1 + len (searchResults p1))
                    (len (searchResults p1))) p1) as HN.
  { unfold pagerCommand. cbn.
    replace (0 <? len (searchResults p1)) with true
      by (symmetry; apply Z.ltb_lt; rewrite Hr1; lia).
    reflexivity. }
  assert (Z.rem (searchIndex p1 - 1 + len (searchResults p1))
            (len (searchResults p1)) = searchIndex p) as Hback.
  { rewrite Hi1, Hr1. set (L := len (searchResults p)) in *.
    rewrite !Z.rem_mod_nonneg by
      (try lia; rewrite ?Z.rem_mod_nonneg by lia;
       pose proof (Z.mod_pos_bound (searchIndex p + 1) L); lia).
    destruct (decide (searchIndex p + 1 = L)) as [Hlast|Hmid].
    - rewrite Hlast, Z_mod_same_full.
      replace (0 - 1 + L) with (searchIndex p) by lia.
      apply Z.mod_small. lia.
    - rewrite (Z.mod_small (searchIndex p + 1) L) by lia.
      replace (searchIndex p + 1 - 1 + L) with (searchIndex p + 1 * L) by lia.
      rewrite Z_mod_plus_full. apply Z.mod_small. lia. }
  destruct (jumpTo_valid lines p1 (searchIndex p)) as (p2 & Hj2 & _ & Hi2 & Hr2 & _ & Hc2).
  { rewrite Hr1. assumption. }
  { rewrite Hr1. assumption. }
  exists p1, p2. rewrite Hn, HN, Hback.
  split; [assumption|]. split; [assumption|]. split; [assumption|].
  split; [congruence|]. rewrite <- Hr1. assumption.
Qed.

End PagerFacts.

Lemma viewScrollback_returns_iff_quit_witness :
  let s := setScrollback [x6f; x6b; x0a; x45; x72; x72; x0a; x6f; x6b]
             (newSession 1 (Host.Build_SSHHost "web" "" "" "" []) 3%nat 100%nat) in
  let inputs := ["j"; "/err"; "n"; " q "; "k"] in
  asciiSplitLines (Scrollback s) <> [] /\
  len (Scrollback s) <> 0 /\
  is_Some (viewScrollback asciiTrimSpace asciiToLower bytesReplaceAll
             asciiSplitLines s inputs initialWorld).
Proof.
  intros s inputs.
  assert (asciiSplitLines (Scrollback s) <> []) as Hlines by discriminate.
  assert (len (Scrollback s) <> 0) as Hsb by discriminate.
  split; [exact Hlines|]. split; [exact Hsb|].
  apply (viewScrollback_returns_iff_quit asciiTrimSpace asciiToLower
           bytesReplaceAll asciiSplitLines s inputs initialWorld Hlines Hsb).
  exists " q ". split; [|reflexivity].
  apply list_elem_of_In. simpl. tauto.
Defined.

Lemma pager_stays_within_the_lines_witness :
  let lines := ["one"; "two"; "three"] in
  pagerValid lines pagerStart /\
  exists p',
    pagerCommand asciiToLower lines "G" pagerStart = Some p' /\
    pagerValid lines p'.
Proof.
  intros lines.
  assert (pagerValid lines pagerStart) as Hvalid.
  { split; [|split; [constructor | intros H; contradiction]].
    unfold len. cbn. lia. }
  split; [exact Hvalid|].
  exact (proj2 (pager_stays_within_the_lines asciiToLower bytesReplaceAll
                  lines "G" pagerStart Hvalid)).
Defined.

Lemma pager_search_finds_every_match_witness :
  let lines := ["Error: disk"; "ok"; "another error"] in
  match pagerCommand asciiToLower lines ("/" +:+ "error") pagerStart with
  | Some p' => searchResults p' = [0; 2] /\ searchTerm p' = "error"
  | None => False
  end.
Proof.
  intros lines.
  destruct (pagerCommand asciiToLower lines ("/" +:+ "error") pagerStart)
    as [p'|] eqn:Hcmd; [|vm_compute in Hcmd; discriminate].
  destruct (pager_search_finds_every_match asciiToLower lines "error"
              pagerStart p' Hcmd) as (Hterm & _).
  split; [|exact Hterm].
  vm_compute in Hcmd. injection Hcmd as <-. reflexivity.
Defined.

Lemma pager_N_undoes_n_witness :
  let lines := ["Error: disk"; "ok"; "another error"] in
  let p := {| currentLine := 2; searchTerm := "error";
              searchResults := [0; 2]; searchIndex := 1 |} in
  pagerValid lines p /\
  searchResults p <> [] /\
  exists p1 p2,
    pagerCommand asciiToLower lines "n" p = Some p1 /\
    pagerCommand asciiToLower lines "N" p1 = Some p2 /\
    searchIndex p2 = 1.
Proof.
  intros lines p.
  assert (pagerValid lines p) as Hvalid.
  { split; [unfold len; cbn; lia|]. split.
    - repeat constructor; unfold len; cbn; lia.
    - intros _. unfold len. cbn. lia. }
  assert (searchResults p <> []) as Hsome by discriminate.
  split; [exact Hvalid|]. split; [exact Hsome|].
  destruct (pager_N_undoes_n asciiToLower lines p Hvalid Hsome)
    as (p1 & p2 & Hn & HN & Hidx & _).
  exists p1, p2. auto.
Defined.

(** ** The selection of hosts *)

Lemma chosenFrom_sublist (hosts : list Host.SSHHost)
  (selected : gmap.gmap Z bool) :
  forall i, sublist (chosenFrom i hosts selected) hosts.
Proof.
  induction hosts as [|h hosts IH]; intros i; cbn [chosenFrom];
    [constructor|].
  destruct (isSelected selected i); [apply sublist_skip | apply sublist_cons];
    apply IH.
Qed.

Lemma chosenFrom_ext (hosts : list Host.SSHHost) (m m' : gmap.gmap Z bool) :
  forall i,
    (forall j, i <= j < i + len hosts -> isSelected m j = isSelected m' j) ->
    chosenFrom i hosts m = chosenFrom i hosts m'.
Proof.
  induction hosts as [|h hosts IH]; intros i Hsame; cbn [chosenFrom];
    [reflexivity|].
  unfold len in Hsame. cbn [length] in Hsame.
  rewrite (Hsame i) by lia.
  rewrite (IH (i + 1)); [reflexivity|].
  intros j Hj. apply Hsame. unfold len in Hj. lia.
Qed.

Lemma chosenFrom_all (hosts : list Host.SSHHost) (m : gmap.gmap Z bool) :
  forall i,
    (forall j, i <= j < i + len hosts -> isSelected m j = true) ->
    chosenFrom i hosts m = hosts.
Proof.
  induction hosts as [|h hosts IH]; intros i Hall; cbn [chosenFrom];
    [reflexivity|].
  unfold len in Hall. cbn [length] in Hall.
  rewrite (Hall i) by lia. f_equal. apply IH.
  intros j Hj. apply Hall. unfold len in Hj. lia.
Qed.

Lemma chosenFrom_none (hosts : list Host.SSHHost) (m : gmap.gmap Z bool) :
  forall i,
    (forall j, i <= j < i + len hosts -> isSelected m j = false) ->
    chosenFrom i hosts m = [].
Proof.
  induction hosts as [|h hosts IH]; intros i Hnone; cbn [chosenFrom];
    [reflexivity|].
  unfold len in Hnone. cbn [length] in Hnone.
  rewrite (Hnone i) by lia. apply IH.
  intros j Hj. apply Hnone. unfold len in Hj. lia.
Qed.

Lemma isSelected_insert (m : gmap.gmap Z bool) (i j : Z) (b : bool) :
  isSelected (<[i := b]> m) j = if decide (i = j) then b else isSelected m j.
Proof.
  unfold isSelected. destruct (decide (i = j)) as [->|Hne].
  - rewrite fin_maps.lookup_insert_eq. reflexivity.
  - rewrite fin_maps.lookup_insert_ne by assumption. reflexivity.
Qed.

Lemma isSelected_empty (j : Z) : isSelected ∅ j = false.
Proof. unfold isSelected. rewrite fin_maps.lookup_empty. reflexivity. Qed.

Lemma selectAllFrom_lookup (hosts : list Host.SSHHost) :
  forall i m j,
    isSelected (selectAllFrom i hosts m) j =
      if (i <=? j) && (j <? i + len hosts) then true else isSelected m j.
Proof.
  induction hosts as [|h hosts IH]; intros i m j; cbn [selectAllFrom].
  - assert (len (@nil Host.SSHHost) = 0) as -> by reflexivity.
    destruct (Z.leb_spec i j), (Z.ltb_spec j (i + 0)); cbn [andb];
      try reflexivity; lia.
  - assert (len (h :: hosts) = len hosts + 1) as ->
      by (unfold len; cbn [length]; lia).
    rewrite IH, isSelected_insert.
    pose proof (len_nonneg hosts) as Hlen.
    destruct (Z.leb_spec (i + 1) j), (Z.ltb_spec j (i + 1 + len hosts)),
             (Z.leb_spec i j), (Z.ltb_spec j (i + (len hosts + 1)));
      cbn [andb]; destruct (decide (i = j)); try reflexivity; lia.
Qed.

Section SelectFacts.

Variable TrimSpace : string -> string.
Variable Sscanf_d : string -> option Z.

Lemma selectLoop_chosen (hosts : list Host.SSHHost) (inputs : list string) :
  forall m w result w',
    selectLoop TrimSpace Sscanf_d hosts inputs m w = Some (Some result, w') ->
    exists m', result = chosenFrom 0 hosts m'.
Proof.
  induction inputs as [|raw rest IH]; intros m w result w' Hrun;
    cbn [selectLoop] in Hrun; [discriminate|].
  destruct (String.eqb (TrimSpace raw) "q"); [discriminate|].
  destruct (String.eqb (TrimSpace raw) "d"); [|eauto].
  injection Hrun as <- _. eauto.
Qed.

(** X23. A selection is a part of the menu. Whatever is typed, the hosts that
    selectHosts returns on [d] are hosts of the list it was given, in the
    order of that list, each at most as often as the list has it: numbers
    out of range mark nothing, and no host is added or moved. *)
Theorem selectHosts_returns_part_of_the_menu (hosts : list Host.SSHHost)
  (inputs : list string) (w w' : World) (result : list Host.SSHHost) :
  selectHosts TrimSpace Sscanf_d hosts inputs w = Some (Some result, w') ->
  sublist result hosts.
Proof.
  intros Hrun. unfold selectHosts in Hrun.
  destruct (selectLoop_chosen _ _ _ _ _ _ Hrun) as (m' & ->).
  apply chosenFrom_sublist.
Qed.

(** X24. [a] marks every host and [c] none, whatever was marked before: a [d]
    after [a] returns the whole list, a [d] after [c] the empty one. *)
Theorem select_all_and_clear (hosts : list Host.SSHHost)
  (selected : gmap.gmap Z bool) :
  chosenFrom 0 hosts (selectCommand Sscanf_d hosts "a" selected) = hosts /\
  chosenFrom 0 hosts (selectCommand Sscanf_d hosts "c" selected) = [].
Proof.
  split.
  - apply chosenFrom_all. intros j Hj.
    change (selectCommand Sscanf_d hosts "a" selected)
      with (selectAllFrom 0 hosts selected).
    rewrite selectAllFrom_lookup.
    destruct (Z.leb_spec 0 j), (Z.ltb_spec j (0 + len hosts)); cbn;
      try reflexivity; lia.
  - apply chosenFrom_none. intros j _. apply isSelected_empty.
Qed.

(** X25. Typing the same number twice changes nothing about which hosts are
    marked, whether the number is on the menu or not. *)
Theorem toggling_twice_changes_nothing (hosts : list Host.SSHHost)
  (input : string) (num : Z) (selected : gmap.gmap Z bool) :
  Sscanf_d input = Some num ->
  input <> "a" -> input <> "c" ->
  let twice := selectCommand Sscanf_d hosts input
                 (selectCommand Sscanf_d hosts input selected) in
  (forall i, isSelected twice i = isSelected selected i) /\
  chosenFrom 0 hosts twice = chosenFrom 0 hosts selected.
Proof.
  intros Hnum Ha Hc twice.
  assert (forall i, isSelected twice i = isSelected selected i) as Hsame.
  { intros i. unfold twice, selectCommand.
    apply String.eqb_neq in Ha, Hc. rewrite Ha, Hc, Hnum.
    destruct ((0 <? num) && (num <=? len hosts)); [|reflexivity].
    rewrite !isSelected_insert.
    destruct (decide (num - 1 = num - 1)) as [_|Hne]; [|contradiction].
    destruct (decide (num - 1 = i)) as [<-|_]; [|reflexivity].
    apply negb_involutive. }
  split; [exact Hsame|].
  apply chosenFrom_ext. intros j _. apply Hsame.
Qed.

(** X26. Leaving the selection with [d] before anything is marked is not a
    cancel. After the [m] command, [q] on the selection screen returns to
    the menu with nothing more printed, while [d] with no host marked goes
    on into the executor, which prints its notice and waits for Enter. *)
Theorem done_with_nothing_marked_is_not_cancel (hosts : list Host.SSHHost)
  (raw : string) (rest : list string) (env : MultiEnv) (w : World) :
  (TrimSpace raw = "q" ->
   multiHostCommand TrimSpace Sscanf_d hosts (raw :: rest) env w =
     Some (emit (selectScreen hosts ∅) w)) /\
  (TrimSpace raw = "d" ->
   multiHostCommand TrimSpace Sscanf_d hosts (raw :: rest) env w =
     Some (emit [EPrintln "No hosts selected. Press Enter..."; EReadLine]
             (emit (selectScreen hosts ∅) w))).
Proof.
  unfold multiHostCommand, selectHosts. cbn [selectLoop]. split; intros ->.
  - reflexivity.
  - cbn [String.eqb Ascii.eqb Bool.eqb].
    rewrite (chosenFrom_none hosts ∅ 0)
      by (intros; apply isSelected_empty).
    reflexivity.
Qed.

End SelectFacts.

Lemma selectHosts_returns_part_of_the_menu_witness :
  let web := Host.Build_SSHHost "web" "" "" "" [] in
  let db := Host.Build_SSHHost "db" "" "" "" [] in
  let cache := Host.Build_SSHHost "cache" "" "" "" [] in
  match selectHosts asciiTrimSpace asciiSscanf_d [web; db; cache]
          ["3"; "1"; "9"; "x"; "d"] initialWorld with
  | Some (Some result, _) => result = [web; cache] /\ sublist result [web; db; cache]
  | _ => False
  end.
Proof.
  intros web db cache.
  destruct (selectHosts asciiTrimSpace asciiSscanf_d [web; db; cache]
              ["3"; "1"; "9"; "x"; "d"] initialWorld)
    as [[[result|] w']|] eqn:Hrun;
    [|vm_compute in Hrun; discriminate | vm_compute in Hrun; discriminate].
  split.
  - vm_compute in Hrun. injection Hrun as <- _. reflexivity.
  - exact (selectHosts_returns_part_of_the_menu _ _ _ _ _ _ _ Hrun).
Defined.

Lemma toggling_twice_changes_nothing_witness :
  let web := Host.Build_SSHHost "web" "" "" "" [] in
  let db := Host.Build_SSHHost "db" "" "" "" [] in
  let marked : gmap.gmap Z bool := <[1 := true]> ∅ in
  asciiSscanf_d "2" = Some 2 /\ "2" <> "a" /\ "2" <> "c" /\
  chosenFrom 0 [web; db]
    (selectCommand asciiSscanf_d [web; db] "2"
       (selectCommand asciiSscanf_d [web; db] "2" marked)) = [db].
Proof.
  intros web db marked.
  assert (asciiSscanf_d "2" = Some 2) as Hnum by reflexivity.
  assert ("2" <> "a") as Ha by discriminate.
  assert ("2" <> "c") as Hc by discriminate.
  split; [exact Hnum|]. split; [exact Ha|]. split; [exact Hc|].
  destruct (toggling_twice_changes_nothing asciiSscanf_d [web; db] "2" 2
              marked Hnum Ha Hc) as [_ Hsame].
  cbn zeta in Hsame. rewrite Hsame. vm_compute. reflexivity.
Defined.

Lemma done_with_nothing_marked_is_not_cancel_witness :
  let web := Host.Build_SSHHost "web" "" "" "" [] in
  let env := {| commandLine := "uptime"; modeLine := "2"; runs := [];
                order := [] |} in
  asciiTrimSpace " d" = "d" /\
  log <$> multiHostCommand asciiTrimSpace asciiSscanf_d [web] [" d"] env
            initialWorld =
    Some (selectScreen [web] ∅ ++
          [EPrintln "No hosts selected. Press Enter..."; EReadLine]).
Proof.
  intros web env.
  assert (asciiTrimSpace " d" = "d") as Hd by reflexivity.
  split; [exact Hd|].
  destruct (done_with_nothing_marked_is_not_cancel asciiTrimSpace
              asciiSscanf_d [web] " d" [] env initialWorld) as [_ Hdone].
  rewrite (Hdone Hd). reflexivity.
Defined.

(** ** The port forward screen *)

Lemma menuEntries_forwardLines (fwds : list Host.PortForward) :
  menuEntries (flat_map sessionForwardLine fwds) = [].
Proof.
  induction fwds as [|f fwds IH]; [reflexivity|].
  cbn [flat_map]. rewrite menuEntries_app, IH, app_nil_r.
  unfold sessionForwardLine.
  repeat match goal with
         | |- context [if ?b then _ else _] => destruct b
         end; reflexivity.
Qed.

Lemma activeForwards_entries (hosts : list Host.SSHHost) (w : World)
  (l : list nat) :
  forall flag evs n alias,
    activeForwards hosts w l = Some (flag, evs) ->
    (n, alias) ∈ menuEntries evs ->
    exists a s,
      a ∈ l /\ heap w !! a = Some s /\ Alias s = alias /\ n = ID s.
Proof.
  induction l as [|a l IH]; intros flag evs n alias Hrun Hin;
    cbn [activeForwards] in Hrun.
  - injection Hrun as <- <-. inversion Hin.
  - destruct (heap w !! a) as [s|] eqn:Hs; [|discriminate].
    destruct (activeForwards hosts w l) as [[has rest]|]; [|discriminate].
    assert ((n, alias) ∈ menuEntries rest ->
            exists b t, b ∈ a :: l /\ heap w !! b = Some t /\
                        Alias t = alias /\ n = ID t) as Hrest.
    { intros Hin'. destruct (IH has rest n alias eq_refl Hin')
        as (b & t & Hb & Ht & Halias & Hid).
      exists b, t. split; [right; assumption | auto]. }
    destruct (hostOf hosts s) as [host|].
    + injection Hrun as <- <-.
      cbn [menuEntries] in Hin.
      rewrite menuEntries_app, menuEntries_forwardLines in Hin.
      cbn [app] in Hin. apply elem_of_cons in Hin as [Heq|Hin]; [|auto].
      injection Heq as -> ->. exists a, s. split; [left|auto].
    + injection Hrun as <- <-. auto.
Qed.

Lemma activeForwards_total (hosts : list Host.SSHHost) (w : World)
  (l : list nat) :
  Forall (fun a => is_Some (heap w !! a)) l ->
  is_Some (activeForwards hosts w l).
Proof.
  induction 1 as [|a l [s Hs] _ [[has evs] IH]]; cbn [activeForwards];
    [eauto|].
  rewrite Hs, IH. destruct (hostOf hosts s); eauto.
Qed.

Lemma increasing_gap (l : list nat) :
  (forall i j a b, (i < j)%nat -> l !! i = Some a -> l !! j = Some b ->
                   (a < b)%nat) ->
  forall i j a b,
    (j <= i)%nat -> l !! j = Some b -> l !! i = Some a ->
    (b + (i - j) <= a)%nat.
Proof.
  intros Hinc. induction i as [|i IH]; intros j a b Hji Hb Ha.
  - assert (j = 0%nat) as -> by lia. assert (a = b) by congruence. lia.
  - destruct (decide (j = S i)) as [->|Hne].
    + assert (a = b) by congruence. lia.
    + destruct (lookup_lt_is_Some_2 l i) as [a' Ha'].
      { apply lookup_lt_Some in Ha. lia. }
      pose proof (IH j a' b ltac:(lia) Hb Ha').
      pose proof (Hinc i (S i) a' a ltac:(lia) Ha' Ha). lia.
Qed.

Lemma activeForwards_emit (hosts : list Host.SSHHost) (evs : list Event)
  (w : World) (l : list nat) :
  activeForwards hosts (emit evs w) l = activeForwards hosts w l.
Proof.
  induction l as [|a l IH]; cbn [activeForwards]; [reflexivity|].
  rewrite IH. reflexivity.
Qed.

Lemma manageForwards_returns (TrimSpace : string -> string)
  (hosts : list Host.SSHHost) (inputs : list string) :
  forall w,
    registryValid w ->
    (is_Some (manageForwards TrimSpace hosts inputs w) <->
     exists raw, raw ∈ inputs /\ TrimSpace raw = "q").
Proof.
  induction inputs as [|raw rest IH]; intros w Hvalid; cbn [manageForwards];
    unfold forwardsScreen;
    destruct (activeForwards_total hosts w (sessions w) Hvalid)
      as [[has active] ->];
    destruct (configuredForwards hosts) as [hasForwards configured].
  - split; [intros [? H]; discriminate|].
    intros (raw & Hin & _). inversion Hin.
  - destruct (String.eqb_spec (TrimSpace raw) "q") as [Hq|Hnq].
    + split; [|eauto]. intros _. exists raw. split; [left | assumption].
    + rewrite IH by exact Hvalid. split.
      * intros (r & Hin & Hr). exists r. split; [right; assumption | assumption].
      * intros (r & Hin & Hr). apply elem_of_cons in Hin as [->|Hin];
          [contradiction | eauto].
Qed.

(** X27. The forward screen numbers sessions by ID, the menu by position. In
    every state the program reaches, the screen of manageForwards can be
    printed, and each session heading it prints carries the ID of a
    registered session with that alias. That number is never below the
    number under which the menu lists the session and [!N] resumes it, and
    it is that number only as long as no session registered before it has
    been closed. The screen is left by [q] and by nothing else. *)
Theorem forward_screen_numbers_are_ids (TrimSpace : string -> string)
  (ops : list Op) (hosts : list Host.SSHHost) (w : World) :
  run TrimSpace ops initialWorld = Some w ->
  is_Some (forwardsScreen hosts w) /\
  (forall inputs,
     is_Some (manageForwards TrimSpace hosts inputs w) <->
     exists raw, raw ∈ inputs /\ TrimSpace raw = "q") /\
  forall flag evs n alias,
    activeForwards hosts w (sessions w) = Some (flag, evs) ->
    (n, alias) ∈ menuEntries evs ->
    exists i a s,
      sessions w !! i = Some a /\ heap w !! a = Some s /\
      Alias s = alias /\ n = ID s /\
      Z.of_nat i + 1 <= n /\
      (n = Z.of_nat i + 1 <->
       forall j b t, (j <= i)%nat -> sessions w !! j = Some b ->
                     heap w !! b = Some t -> ID t = Z.of_nat j + 1).
Proof.
  intros Hrun.
  pose proof (run_registryInv _ _ _ _ Hrun initialWorld_registryInv) as Hinv.
  pose proof (registryInv_valid _ Hinv) as Hvalid.
  destruct Hinv as (_ & Hobj & Hord & _).
  split.
  - unfold forwardsScreen.
    destruct (activeForwards_total hosts w (sessions w) Hvalid)
      as [[has evs] ->].
    destruct (configuredForwards hosts). eauto.
  - split; [intros inputs; apply manageForwards_returns; assumption|].
    intros flag evs n alias Hact Hin.
    destruct (activeForwards_entries _ _ _ _ _ _ _ Hact Hin)
      as (a & s & Ha & Hs & Halias & Hid).
    apply list_elem_of_lookup in Ha as (i & Hi).
    exists i, a, s. do 4 (split; [assumption|]).
    destruct (Hobj a s Hs) as [Hida _].
    pose proof (increasing_gap _ Hord i 0%nat a) as Hge.
    assert (i <= a)%nat as Hia.
    { destruct (lookup_lt_is_Some_2 (sessions w) 0) as [b0 Hb0].
      { apply lookup_lt_Some in Hi. lia. }
      specialize (Hge b0 ltac:(lia) Hb0 Hi). lia. }
    split; [lia|]. split.
    + intros Heq j b t Hji Hb Ht.
      destruct (Hobj b t Ht) as [-> _].
      pose proof (increasing_gap _ Hord i j a b Hji Hb Hi) as Hgap.
      pose proof (increasing_gap _ Hord j 0%nat b) as Hgej.
      destruct (lookup_lt_is_Some_2 (sessions w) 0) as [b0 Hb0].
      { apply lookup_lt_Some in Hi. lia. }
      specialize (Hgej b0 ltac:(lia) Hb0 Hb). lia.
    + intros Hall. rewrite Hid. apply (Hall i a s); [lia | assumption..].
Qed.

Lemma forward_screen_numbers_are_ids_witness :
  let fwd := {| Host.Type_ := "L"; Host.LocalPort := "8080";
                Host.RemoteAddr := "localhost:80" |} in
  let web := Host.Build_SSHHost "web" "" "" "" [] in
  let db := Host.Build_SSHHost "db" "" "" "" [fwd] in
  let att := {| latency := 20000000; result := StartOk 3%nat 100%nat;
                processAtDeadline := None |} in
  let detach := {| sizeAtAttach := None; makeRawResult := RawOk;
                   restoreOk := true;
                   schedule := [StdinIter (ReadOk [x00]) WriteOk] |} in
  let ops := [OpCreate web att detach; OpCloseActive; OpCreate db att detach] in
  match run asciiTrimSpace ops initialWorld with
  | Some w =>
      is_Some (forwardsScreen [web; db] w) /\
      (menuEntries <$> showMenuSessions w) = Some [(1, "db")] /\
      (fun r => menuEntries (snd r)) <$> activeForwards [web; db] w (sessions w) =
        Some [(2, "db")]
  | None => False
  end.
Proof.
  cbn zeta.
  match goal with
  | |- match ?r with _ => _ end =>
      destruct r as [w|] eqn:Hrun; [|vm_compute in Hrun; discriminate]
  end.
  split; [exact (proj1 (forward_screen_numbers_are_ids _ _ _ _ Hrun))|].
  vm_compute in Hrun. injection Hrun as <-. split; reflexivity.
Defined.

(** ** Raw mode *)

Lemma ldiff_ldiff (x m : Z) : Z.ldiff (Z.ldiff x m) m = Z.ldiff x m.
Proof.
  apply Z.bits_inj'. intros n Hn. rewrite !Z.ldiff_spec.
  destruct (Z.testbit x n), (Z.testbit m n); reflexivity.
Qed.

Lemma ldiff_lor_again (x a b : Z) :
  Z.lor (Z.ldiff (Z.lor (Z.ldiff x a) b) a) b = Z.lor (Z.ldiff x a) b.
Proof.
  apply Z.bits_inj'. intros n Hn.
  rewrite !Z.lor_spec, !Z.ldiff_spec, !Z.lor_spec, !Z.ldiff_spec.
  destruct (Z.testbit x n), (Z.testbit a n), (Z.testbit b n); reflexivity.
Qed.

Section TerminalFacts.

Variables IGNBRK BRKINT PARMRK ISTRIP INLCR IGNCR ICRNL IXON : Z.
Variable OPOST : Z.
Variables ECHO ECHONL ICANON ISIG IEXTEN : Z.
Variables CSIZE PARENB CS8 : Z.

(** X28. [restore] undoes [makeRaw]. When [makeRaw] returns a state, that
    state is the settings the terminal had, and a [restore] of it that
    succeeds puts the terminal back exactly as it was, control characters
    and speeds included; when [makeRaw] returns an error it has not changed
    the terminal and returns no state. *)
Theorem restore_undoes_makeRaw (getErr setErr : option string)
  (term term' : Termios) (state : option Termios) (err : option string) :
  makeRaw IGNBRK BRKINT PARMRK ISTRIP INLCR IGNCR ICRNL IXON OPOST
          ECHO ECHONL ICANON ISIG IEXTEN CSIZE PARENB CS8
          getErr setErr term = (state, err, term') ->
  match state with
  | Some oldState =>
      err = None /\ oldState = term /\
      restoreTerminal None oldState term' = (None, term)
  | None => err <> None /\ term' = term
  end.
Proof.
  unfold makeRaw. intros Hraw.
  destruct getErr as [e|].
  - injection Hraw as <- <- <-. split; [discriminate | reflexivity].
  - destruct setErr as [e|]; injection Hraw as <- <- <-.
    + split; [discriminate | reflexivity].
    + repeat split.
Qed.

(** X29. What raw mode clears, and that it is stable. After a [makeRaw]
    that succeeds, a bit of the input, output or local flags is set exactly
    when it was set before and is not in the mask cleared; the control flags
    have the bits of [CS8], and outside [CS8] those they had outside
    [CSIZE | PARENB]; control characters and speeds are untouched; and a
    second [makeRaw] finds nothing left to change. *)
Theorem makeRaw_clears_and_is_stable (term term' : Termios)
  (state : option Termios) (err : option string) :
  makeRaw IGNBRK BRKINT PARMRK ISTRIP INLCR IGNCR ICRNL IXON OPOST
          ECHO ECHONL ICANON ISIG IEXTEN CSIZE PARENB CS8
          None None term = (state, err, term') ->
  (forall n,
     Z.testbit (Iflag term') n =
       Z.testbit (Iflag term) n &&
       negb (Z.testbit (inputMask IGNBRK BRKINT PARMRK ISTRIP INLCR IGNCR
                          ICRNL IXON) n)) /\
  (forall n,
     Z.testbit (Oflag term') n =
       Z.testbit (Oflag term) n && negb (Z.testbit OPOST n)) /\
  (forall n,
     Z.testbit (Lflag term') n =
       Z.testbit (Lflag term) n &&
       negb (Z.testbit (localMask ECHO ECHONL ICANON ISIG IEXTEN) n)) /\
  (forall n,
     Z.testbit (Cflag term') n =
       Z.testbit (Cflag term) n &&
       negb (Z.testbit CSIZE n || Z.testbit PARENB n) ||
       Z.testbit CS8 n) /\
  Cc term' = Cc term /\ Ispeed term' = Ispeed term /\
  Ospeed term' = Ospeed term /\
  makeRaw IGNBRK BRKINT PARMRK ISTRIP INLCR IGNCR ICRNL IXON OPOST
          ECHO ECHONL ICANON ISIG IEXTEN CSIZE PARENB CS8
          None None term' = (Some term', None, term').
Proof.
  unfold makeRaw. intros Hraw. injection Hraw as _ _ <-.
  cbn [Iflag Oflag Lflag Cflag Cc Ispeed Ospeed rawState].
  split; [intros n; apply Z.ldiff_spec|].
  split; [intros n; apply Z.ldiff_spec|].
  split; [intros n; apply Z.ldiff_spec|].
  split.
  { intros n. rewrite Z.lor_spec, Z.ldiff_spec, Z.lor_spec. reflexivity. }
  do 3 (split; [reflexivity|]).
  unfold rawState. cbn [Iflag Oflag Lflag Cflag Cc Ispeed Ospeed].
  rewrite !ldiff_ldiff, ldiff_lor_again. reflexivity.
Qed.

End TerminalFacts.

Lemma restore_undoes_makeRaw_witness :
  let cooked := {| Iflag := 0x2b02; Oflag := 0x3; Cflag := 0x4b00;
                   Lflag := 0x5cb; Cc := [x04; x7f]; Ispeed := 38400;
                   Ospeed := 38400 |} in
  match makeRaw 0x1 0x2 0x8 0x20 0x40 0x80 0x100 0x200 0x1
                0x8 0x10 0x100 0x80 0x400 0x300 0x1000 0x300
                None None cooked with
  | (Some oldState, _, raw) =>
      Lflag raw = 0x43 /\ restoreTerminal None oldState raw = (None, cooked)
  | _ => False
  end.
Proof.
  intros cooked.
  destruct (makeRaw 0x1 0x2 0x8 0x20 0x40 0x80 0x100 0x200 0x1
                    0x8 0x10 0x100 0x80 0x400 0x300 0x1000 0x300
                    None None cooked) as [[[oldState|] err] raw] eqn:Hraw;
    [|vm_compute in Hraw; discriminate].
  pose proof (restore_undoes_makeRaw _ _ _ _ _ _ _ _ _ _ _ _ _ _ _ _ _
                _ _ _ _ _ _ Hraw) as (_ & _ & Hback).
  split; [|exact Hback].
  vm_compute in Hraw. injection Hraw as _ _ <-. reflexivity.
Defined.

Lemma makeRaw_clears_and_is_stable_witness :
  let cooked := {| Iflag := 0x2b02; Oflag := 0x3; Cflag := 0x4b00;
                   Lflag := 0x5cb; Cc := [x04; x7f]; Ispeed := 38400;
                   Ospeed := 38400 |} in
  match makeRaw 0x1 0x2 0x8 0x20 0x40 0x80 0x100 0x200 0x1
                0x8 0x10 0x100 0x80 0x400 0x300 0x1000 0x300
                None None cooked with
  | (_, _, raw) =>
      Z.testbit (Lflag raw) 3 = false /\
      makeRaw 0x1 0x2 0x8 0x20 0x40 0x80 0x100 0x200 0x1
              0x8 0x10 0x100 0x80 0x400 0x300 0x1000 0x300
              None None raw = (Some raw, None, raw)
  end.
Proof.
  intros cooked.
  destruct (makeRaw 0x1 0x2 0x8 0x20 0x40 0x80 0x100 0x200 0x1
                    0x8 0x10 0x100 0x80 0x400 0x300 0x1000 0x300
                    None None cooked) as [[state err] raw] eqn:Hraw.
  destruct (makeRaw_clears_and_is_stable _ _ _ _ _ _ _ _ _ _ _ _ _ _ _ _ _
              _ _ _ _ Hraw) as (_ & _ & Hlocal & _ & _ & _ & _ & Hstable).
  split; [|exact Hstable].
  rewrite Hlocal. reflexivity.
Defined.
